(** * Swarm Observer: the reconciliation engine of [server.js]

    A shallow embedding of the event-processing core of the server
    (agent registry, status hold timer, task matcher, role inference,
    ring buffers, inbox diffing, events-file tailing) and the properties
    its specification states about it.  The handlers are modelled first
    on well-typed events, each run to its end; then on events as they
    come, where [processEvent] may throw part-way ([processRaw]), and
    with the listeners of the files in their two steps, the notification
    and the end of the read. *)

From Stdlib Require Import ZArith NArith List String Ascii Bool Lia.
From stdpp Require Import base option list gmap.

Local Open Scope nat_scope.

(** ** JavaScript strings

    A JS string is a sequence of UTF-16 code units; [length], [substring],
    [lastIndexOf] and the regular expressions of the source all count code
    units.  String literals of the source are written [js "..."]. *)

Abbreviation jsstring := (list N).

Definition js (s : string) : jsstring :=
  map N_of_ascii (list_ascii_of_string s).

(** U+2026, the one-unit ellipsis appended by [summarizeTask]. *)
Definition ellipsis : jsstring := [8230%N].

(** U+0020. *)
Definition SPACE : N := 32%N.

(** The class [\s] of a JS regular expression, which is also what
    [String.prototype.trim] strips: WhiteSpace and LineTerminator. *)
Definition isWhiteSpace (c : N) : bool :=
  ((9 <=? c) && (c <=? 13) || (c =? 32) || (c =? 160) || (c =? 5760)
   || (8192 <=? c) && (c <=? 8202) || (c =? 8232) || (c =? 8233)
   || (c =? 8239) || (c =? 8287) || (c =? 12288) || (c =? 65279))%N.

Fixpoint dropWhile {A} (p : A -> bool) (l : list A) : list A :=
  match l with
  | [] => []
  | x :: r => if p x then dropWhile p r else l
  end.

Fixpoint takeUntil {A} (p : A -> bool) (l : list A) : list A :=
  match l with
  | [] => []
  | x :: r => if p x then [] else x :: takeUntil p r
  end.

(** [s.trim()] *)
Definition trim (s : jsstring) : jsstring :=
  rev (dropWhile isWhiteSpace (rev (dropWhile isWhiteSpace s))).

(** [s.replace(/\n/g, " ")] *)
Definition replaceNewlines (s : jsstring) : jsstring :=
  map (fun c => if (c =? 10)%N then SPACE else c) s.

(** [s.replace(/\s+/g, " ")]: every maximal run of white space becomes one
    space.  [inRun] tells that the previous unit was white space. *)
Fixpoint squeeze (inRun : bool) (s : jsstring) : jsstring :=
  match s with
  | [] => []
  | c :: r =>
      if isWhiteSpace c
      then (if inRun then squeeze true r else SPACE :: squeeze true r)
      else c :: squeeze false r
  end.

(** The class [[.!?\n]] on which [summarizeTask] splits. *)
Definition isTerminator (c : N) : bool :=
  ((c =? 46) || (c =? 33) || (c =? 63) || (c =? 10))%N.

(** [s.lastIndexOf(c)] for a one-unit needle, [-1] when absent. *)
Fixpoint lastIndexFrom (c : N) (s : jsstring) (i acc : Z) : Z :=
  match s with
  | [] => acc
  | d :: r => lastIndexFrom c r (i + 1) (if (d =? c)%N then i else acc)
  end.

Definition lastIndexOf (c : N) (s : jsstring) : Z :=
  lastIndexFrom c s 0 (-1).

(** [s.startsWith(p)] *)
Fixpoint startsWith (p s : jsstring) : bool :=
  match p, s with
  | [], _ => true
  | _ :: _, [] => false
  | a :: p', b :: s' => (a =? b)%N && startsWith p' s'
  end.

(** ** [summarizeTask] *)

(** [cleaned.split(/[.!?\n]/)[0].trim()] of the source, [cleaned] included:
    the first clause of the white-space normalised text. *)
Definition firstClause (text : jsstring) : jsstring :=
  let cleaned := trim (squeeze false (replaceNewlines text)) in
  trim (takeUntil isTerminator cleaned).

Definition summarizeTask (text : jsstring) : jsstring :=
  let first := firstClause text in
  if length first <=? 32 then first
  else
    let truncated := take 40 first in
    let lastSpace := lastIndexOf SPACE truncated in
    (if (15 <? lastSpace)%Z then take (Z.to_nat lastSpace) truncated
     else truncated) ++ ellipsis.

(** ** Data model *)

(** The values [agent.status] takes in the source. *)
Inductive Status :=
| starting | idle | reading | writing | tool_call | delegating
| thinking | blocked | done.

(** An entry of [knownAgents].  The first thirteen fields are those of the
    object literal in [getOrCreateAgent]; the others are the properties the
    handlers add later ([None] while the property is absent). *)
Module Agent.
Record t := mk {
  id : jsstring;
  shortId : jsstring;
  label : jsstring;
  role : jsstring;
  color : jsstring;
  status : Status;
  lastTool : option jsstring;
  lastFile : option jsstring;
  lastActive : Z;
  tokens : Z;
  toolCalls : nat;
  firstSeen : Z;
  cwd : option jsstring;
  _statusSetAt : option Z;
  activity : option jsstring;
  _filePaths : option (list jsstring);
  _taskLabel : option jsstring;
  teamName : option jsstring;
  teamAgentId : option jsstring;
  teamMemberName : option jsstring;
  agentType : option jsstring;
  spawnPrompt : option jsstring
}.
Definition set_label (v : jsstring) (x : t) : t :=
  mk (id x) (shortId x) v (role x) (color x) (status x) (lastTool x)
     (lastFile x) (lastActive x) (tokens x) (toolCalls x) (firstSeen x)
     (cwd x) (_statusSetAt x) (activity x) (_filePaths x) (_taskLabel x)
     (teamName x) (teamAgentId x) (teamMemberName x) (agentType x)
     (spawnPrompt x).
Definition set_role (v : jsstring) (x : t) : t :=
  mk (id x) (shortId x) (label x) v (color x) (status x) (lastTool x)
     (lastFile x) (lastActive x) (tokens x) (toolCalls x) (firstSeen x)
     (cwd x) (_statusSetAt x) (activity x) (_filePaths x) (_taskLabel x)
     (teamName x) (teamAgentId x) (teamMemberName x) (agentType x)
     (spawnPrompt x).
Definition set_color (v : jsstring) (x : t) : t :=
  mk (id x) (shortId x) (label x) (role x) v (status x) (lastTool x)
     (lastFile x) (lastActive x) (tokens x) (toolCalls x) (firstSeen x)
     (cwd x) (_statusSetAt x) (activity x) (_filePaths x) (_taskLabel x)
     (teamName x) (teamAgentId x) (teamMemberName x) (agentType x)
     (spawnPrompt x).
Definition set_status (v : Status) (x : t) : t :=
  mk (id x) (shortId x) (label x) (role x) (color x) v (lastTool x)
     (lastFile x) (lastActive x) (tokens x) (toolCalls x) (firstSeen x)
     (cwd x) (_statusSetAt x) (activity x) (_filePaths x) (_taskLabel x)
     (teamName x) (teamAgentId x) (teamMemberName x) (agentType x)
     (spawnPrompt x).
Definition set_lastTool (v : option jsstring) (x : t) : t :=
  mk (id x) (shortId x) (label x) (role x) (color x) (status x) v
     (lastFile x) (lastActive x) (tokens x) (toolCalls x) (firstSeen x)
     (cwd x) (_statusSetAt x) (activity x) (_filePaths x) (_taskLabel x)
     (teamName x) (teamAgentId x) (teamMemberName x) (agentType x)
     (spawnPrompt x).
Definition set_lastFile (v : option jsstring) (x : t) : t :=
  mk (id x) (shortId x) (label x) (role x) (color x) (status x)
     (lastTool x) v (lastActive x) (tokens x) (toolCalls x) (firstSeen x)
     (cwd x) (_statusSetAt x) (activity x) (_filePaths x) (_taskLabel x)
     (teamName x) (teamAgentId x) (teamMemberName x) (agentType x)
     (spawnPrompt x).
Definition set_lastActive (v : Z) (x : t) : t :=
  mk (id x) (shortId x) (label x) (role x) (color x) (status x)
     (lastTool x) (lastFile x) v (tokens x) (toolCalls x) (firstSeen x)
     (cwd x) (_statusSetAt x) (activity x) (_filePaths x) (_taskLabel x)
     (teamName x) (teamAgentId x) (teamMemberName x) (agentType x)
     (spawnPrompt x).
Definition set_tokens (v : Z) (x : t) : t :=
  mk (id x) (shortId x) (label x) (role x) (color x) (status x)
     (lastTool x) (lastFile x) (lastActive x) v (toolCalls x) (firstSeen x)
     (cwd x) (_statusSetAt x) (activity x) (_filePaths x) (_taskLabel x)
     (teamName x) (teamAgentId x) (teamMemberName x) (agentType x)
     (spawnPrompt x).
Definition set_toolCalls (v : nat) (x : t) : t :=
  mk (id x) (shortId x) (label x) (role x) (color x) (status x)
     (lastTool x) (lastFile x) (lastActive x) (tokens x) v (firstSeen x)
     (cwd x) (_statusSetAt x) (activity x) (_filePaths x) (_taskLabel x)
     (teamName x) (teamAgentId x) (teamMemberName x) (agentType x)
     (spawnPrompt x).
Definition set__statusSetAt (v : option Z) (x : t) : t :=
  mk (id x) (shortId x) (label x) (role x) (color x) (status x)
     (lastTool x) (lastFile x) (lastActive x) (tokens x) (toolCalls x)
     (firstSeen x) (cwd x) v (activity x) (_filePaths x) (_taskLabel x)
     (teamName x) (teamAgentId x) (teamMemberName x) (agentType x)
     (spawnPrompt x).
Definition set_activity (v : option jsstring) (x : t) : t :=
  mk (id x) (shortId x) (label x) (role x) (color x) (status x)
     (lastTool x) (lastFile x) (lastActive x) (tokens x) (toolCalls x)
     (firstSeen x) (cwd x) (_statusSetAt x) v (_filePaths x) (_taskLabel x)
     (teamName x) (teamAgentId x) (teamMemberName x) (agentType x)
     (spawnPrompt x).
Definition set__filePaths (v : option (list jsstring)) (x : t) : t :=
  mk (id x) (shortId x) (label x) (role x) (color x) (status x)
     (lastTool x) (lastFile x) (lastActive x) (tokens x) (toolCalls x)
     (firstSeen x) (cwd x) (_statusSetAt x) (activity x) v (_taskLabel x)
     (teamName x) (teamAgentId x) (teamMemberName x) (agentType x)
     (spawnPrompt x).
Definition set__taskLabel (v : option jsstring) (x : t) : t :=
  mk (id x) (shortId x) (label x) (role x) (color x) (status x)
     (lastTool x) (lastFile x) (lastActive x) (tokens x) (toolCalls x)
     (firstSeen x) (cwd x) (_statusSetAt x) (activity x) (_filePaths x) v
     (teamName x) (teamAgentId x) (teamMemberName x) (agentType x)
     (spawnPrompt x).
Definition set_teamName (v : option jsstring) (x : t) : t :=
  mk (id x) (shortId x) (label x) (role x) (color x) (status x)
     (lastTool x) (lastFile x) (lastActive x) (tokens x) (toolCalls x)
     (firstSeen x) (cwd x) (_statusSetAt x) (activity x) (_filePaths x)
     (_taskLabel x) v (teamAgentId x) (teamMemberName x) (agentType x)
     (spawnPrompt x).
Definition set_teamAgentId (v : option jsstring) (x : t) : t :=
  mk (id x) (shortId x) (label x) (role x) (color x) (status x)
     (lastTool x) (lastFile x) (lastActive x) (tokens x) (toolCalls x)
     (firstSeen x) (cwd x) (_statusSetAt x) (activity x) (_filePaths x)
     (_taskLabel x) (teamName x) v (teamMemberName x) (agentType x)
     (spawnPrompt x).
Definition set_teamMemberName (v : option jsstring) (x : t) : t :=
  mk (id x) (shortId x) (label x) (role x) (color x) (status x)
     (lastTool x) (lastFile x) (lastActive x) (tokens x) (toolCalls x)
     (firstSeen x) (cwd x) (_statusSetAt x) (activity x) (_filePaths x)
     (_taskLabel x) (teamName x) (teamAgentId x) v (agentType x)
     (spawnPrompt x).
Definition set_agentType (v : option jsstring) (x : t) : t :=
  mk (id x) (shortId x) (label x) (role x) (color x) (status x)
     (lastTool x) (lastFile x) (lastActive x) (tokens x) (toolCalls x)
     (firstSeen x) (cwd x) (_statusSetAt x) (activity x) (_filePaths x)
     (_taskLabel x) (teamName x) (teamAgentId x) (teamMemberName x) v
     (spawnPrompt x).
Definition set_spawnPrompt (v : option jsstring) (x : t) : t :=
  mk (id x) (shortId x) (label x) (role x) (color x) (status x)
     (lastTool x) (lastFile x) (lastActive x) (tokens x) (toolCalls x)
     (firstSeen x) (cwd x) (_statusSetAt x) (activity x) (_filePaths x)
     (_taskLabel x) (teamName x) (teamAgentId x) (teamMemberName x)
     (agentType x) v.
End Agent.

(** An inter-agent message, as stored in [recentMessages]. *)
Module Message.
Record t := mk {
  id : jsstring;
  from : jsstring;
  to : jsstring;
  text : jsstring;
  timestamp : Z
}.
Definition set_to (v : jsstring) (x : t) : t :=
  mk (id x) (from x) v (text x) (timestamp x).
End Message.

(** A record of [recentEvents]. *)
Module EventRecord.
Record t := mk {
  id : jsstring;
  agentId : jsstring;
  event : jsstring;
  tool : option jsstring;
  file : option jsstring;
  status : Status;
  activity : option jsstring;
  timestamp : Z;
  tokens : Z
}.
End EventRecord.

(** An entry of the [pendingTasks] queue. *)
Module PendingTask.
Record t := mk {
  from : jsstring;
  label : jsstring;
  fullDesc : jsstring;
  cwd : option jsstring;
  timestamp : Z
}.
End PendingTask.

(** [evt.tool_input]: the properties [processEvent] reads, [None] when the
    property is missing. *)
Module ToolInput.
Record t := mk {
  file_path : option jsstring;
  command : option jsstring;
  path : option jsstring;
  content : option jsstring;
  description : option jsstring;
  prompt : option jsstring;
  task : option jsstring;
  message : option jsstring;
  to : option jsstring
}.
Definition empty : t := mk None None None None None None None None None.
End ToolInput.

(** [evt.tool_response].  [file_content] is [resp.file?.content];
    [filenames] is the text [JSON.stringify(resp.filenames)], the only way
    the source looks at that property. *)
Module ToolResponse.
Record t := mk {
  file_content : option jsstring;
  stdout : option jsstring;
  filenames : option jsstring
}.
End ToolResponse.

(** A parsed line of the event log, as the hooks write it: the properties
    [processEvent] reads, each a string, or [None] when missing, and
    [tokens] an integer.  A line with values of other types is a
    [RawEvt.t], below. *)
Module Evt.
Record t := mk {
  session_id : option jsstring;
  sessionId : option jsstring;
  hook_event_name : option jsstring;
  event : option jsstring;
  type : option jsstring;
  tool_name : option jsstring;
  tool : option jsstring;
  tool_input : option ToolInput.t;
  cwd : option jsstring;
  working_directory : option jsstring;
  model : option jsstring;
  source : option jsstring;
  tool_response : option ToolResponse.t;
  tokens : option Z
}.
Definition empty : t :=
  mk None None None None None None None None None None None None None None.
End Evt.

(** A message of a team inbox file.  [text] is [msg.text] when that is a
    string and [JSON.stringify(msg.text)] otherwise. *)
Module InboxMsg.
Record t := mk {
  from : option jsstring;
  text : jsstring;
  timestamp : option jsstring;
  read : bool
}.
End InboxMsg.

(** A member descriptor of a team's [config.json]. *)
Module Member.
Record t := mk {
  name : option jsstring;
  agentId : option jsstring;
  agentType : option jsstring;
  color : option jsstring;
  prompt : option jsstring;
  cwd : option jsstring
}.
End Member.


(** A team's [config.json], read by [readTeamConfig]. *)
Record TeamConfig := { members : option (list Member.t) }.

(** A value of [teamsState].  A task is kept as the text of its file: no
    handler modelled here looks inside one. *)
Module Team.
Record t := mk {
  config : TeamConfig;
  inboxes : gmap jsstring (list InboxMsg.t);
  tasks : gmap jsstring jsstring
}.
End Team.

(** What [broadcast] is called with, by the [type] of the payload.  The
    payload is serialised at the call, so each constructor carries the
    values as they were at that moment. *)
Module Push.
Inductive t :=
| agent_join (agent : Agent.t)
| event (event : EventRecord.t) (agentUpdate : Agent.t)
| message (message : Message.t)
| team_update (teamName : jsstring) (config : TeamConfig)
| inbox_update (teamName agentName : jsstring)
    (newMessages : list InboxMsg.t) (totalCount : nat).
End Push.

(** The module-level variables of [server.js], and [sent], the broadcasts
    made so far, oldest first. *)
Record State := mkState {
  knownAgents : gmap jsstring Agent.t;
  colorIndex : nat;
  recentEvents : list EventRecord.t;
  recentMessages : list Message.t;
  pendingTasks : list PendingTask.t;
  teamsState : gmap jsstring Team.t;
  eventsFileSize : nat;
  sent : list Push.t
}.

Definition set_knownAgents (v : gmap jsstring Agent.t) (s : State) : State :=
  mkState v (colorIndex s) (recentEvents s) (recentMessages s)
    (pendingTasks s) (teamsState s) (eventsFileSize s) (sent s).
Definition set_colorIndex (v : nat) (s : State) : State :=
  mkState (knownAgents s) v (recentEvents s) (recentMessages s)
    (pendingTasks s) (teamsState s) (eventsFileSize s) (sent s).
Definition set_recentEvents (v : list EventRecord.t) (s : State) : State :=
  mkState (knownAgents s) (colorIndex s) v (recentMessages s)
    (pendingTasks s) (teamsState s) (eventsFileSize s) (sent s).
Definition set_recentMessages (v : list Message.t) (s : State) : State :=
  mkState (knownAgents s) (colorIndex s) (recentEvents s) v
    (pendingTasks s) (teamsState s) (eventsFileSize s) (sent s).
Definition set_pendingTasks (v : list PendingTask.t) (s : State) : State :=
  mkState (knownAgents s) (colorIndex s) (recentEvents s) (recentMessages s)
    v (teamsState s) (eventsFileSize s) (sent s).
Definition set_teamsState (v : gmap jsstring Team.t) (s : State) : State :=
  mkState (knownAgents s) (colorIndex s) (recentEvents s) (recentMessages s)
    (pendingTasks s) v (eventsFileSize s) (sent s).
Definition set_eventsFileSize (v : nat) (s : State) : State :=
  mkState (knownAgents s) (colorIndex s) (recentEvents s) (recentMessages s)
    (pendingTasks s) (teamsState s) v (sent s).

(** [broadcast(data)] *)
Definition broadcast (b : Push.t) (s : State) : State :=
  mkState (knownAgents s) (colorIndex s) (recentEvents s) (recentMessages s)
    (pendingTasks s) (teamsState s) (eventsFileSize s) (sent s ++ [b]).

(** The state when the server starts, the events file holding
    [size] bytes. *)
Definition initialState (size : nat) : State :=
  mkState ∅ 0 [] [] [] ∅ size [].

(** What a handler reads from outside: the clock ([Date.now()]) and the
    identifiers drawn from [Math.random()] for a message and for an event
    record. *)
Record Env := { now : Z; messageId : jsstring; recordId : jsstring }.

(** ** JavaScript operators *)

(** [a === b] on strings. *)
Definition streq (a b : jsstring) : bool := bool_decide (a = b).
Infix "===" := streq (at level 70, no associativity).

(** A property used as a condition: a missing or empty string is falsy. *)
Definition truthy (o : option jsstring) : option jsstring :=
  match o with
  | Some (c :: r) => Some (c :: r)
  | _ => None
  end.

(** [a || b || ... || null] *)
Fixpoint firstTruthy (l : list (option jsstring)) : option jsstring :=
  match l with
  | [] => None
  | o :: r => match truthy o with Some s => Some s | None => firstTruthy r end
  end.

(** [o === "literal"] for a property that may be missing. *)
Definition equalsLit (o : option jsstring) (lit : string) : bool :=
  match o with
  | Some s => s === js lit
  | None => false
  end.

(** How a template literal renders a property. *)
Definition render (o : option jsstring) : jsstring :=
  default (js "undefined") o.

(** [s.replace(/\\/g, "/")] *)
Definition normalizeSeparators (s : jsstring) : jsstring :=
  map (fun c => if (c =? 92)%N then 47%N else c) s.

(** [s.split(sep)], for the elements of any type with a test for the
    separator. *)
Fixpoint splitBy {A} (isSep : A -> bool) (s : list A) : list (list A) :=
  match s with
  | [] => [[]]
  | c :: r =>
      if isSep c then [] :: splitBy isSep r
      else match splitBy isSep r with
           | h :: t => (c :: h) :: t
           | [] => [[c]]
           end
  end.

Definition isSlash (c : N) : bool := (c =? 47)%N.

(** [s.replace(p, "")]: the first occurrence of [p] removed. *)
Fixpoint removeFirst (p s : jsstring) : jsstring :=
  match s with
  | [] => []
  | c :: r => if startsWith p s then drop (length p) s
              else c :: removeFirst p r
  end.

Definition isDigit (c : N) : bool := ((48 <=? c) && (c <=? 57))%N.

(** [s.replace(/-\d+$/, "")] *)
Fixpoint stripVersion (s : jsstring) : jsstring :=
  match s with
  | [] => []
  | c :: r =>
      if (c =? 45)%N && negb (bool_decide (r = [])) && forallb isDigit r
      then []
      else c :: stripVersion r
  end.

(** [s.toLowerCase()], one unit at a time.  Basic Latin and Latin-1 are
    mapped as JavaScript maps them, and so are the two letters beyond whose
    lower case holds a Basic Latin letter (U+0130 and the Kelvin sign
    U+212A).  The other cased letters beyond Latin-1 map among themselves
    and are left as they are: no pattern of [inferRoleFromFiles] can tell. *)
Definition lowerUnit (c : N) : jsstring :=
  (if (65 <=? c) && (c <=? 90) then [c + 32]
   else if (192 <=? c) && (c <=? 222) && negb (c =? 215) then [c + 32]
   else if c =? 304 then [105; 775]
   else if c =? 8490 then [107]
   else [c])%N.

Definition toLowerCase (s : jsstring) : jsstring := flat_map lowerUnit s.

(** [l.join(sep)] *)
Fixpoint join {A} (sep : list A) (l : list (list A)) : list A :=
  match l with
  | [] => []
  | [s] => s
  | s :: r => s ++ sep ++ join sep r
  end.

(** [buf.push(x); if (buf.length > cap) buf.shift();] *)
Definition ringPush {A} (cap : nat) (buf : list A) (x : A) : list A :=
  let pushed := buf ++ [x] in
  if cap <? length pushed then drop 1 pushed else pushed.

Definition MAX_EVENTS : nat := 500.
Definition MAX_MESSAGES : nat := 100.

Definition PALETTE : list jsstring :=
  map js
    ["#ff6b35"; "#00d4aa"; "#7b68ee"; "#ffd166"; "#ef476f";
     "#06d6a0"; "#118ab2"; "#e63946"; "#a8dadc"; "#f4a261";
     "#2a9d8f"; "#e76f51"; "#264653"; "#d4a373"; "#cdb4db";
     "#ffc8dd"; "#bde0fe"; "#a2d2ff"; "#caffbf"; "#ffd6ff"]%string.

(** ** [getOrCreateAgent] *)

(** The [extra] argument. *)
Record Hints := {
  hintLabel : option jsstring;
  hintRole : option jsstring;
  hintCwd : option jsstring
}.

(** [`Agent ${shortId}`] *)
Definition placeholderLabel (shortId : jsstring) : jsstring :=
  js "Agent " ++ shortId.

(** The object literal of the creation branch. *)
Definition newAgent (sessionId : jsstring) (extra : Hints) (color : jsstring)
    (now : Z) : Agent.t :=
  let shortId := take 8 sessionId in
  {| Agent.id := sessionId;
     Agent.shortId := shortId;
     Agent.label :=
       default (placeholderLabel shortId) (truthy (hintLabel extra));
     Agent.role := default (js "worker") (truthy (hintRole extra));
     Agent.color := color;
     Agent.status := idle;
     Agent.lastTool := None;
     Agent.lastFile := None;
     Agent.lastActive := now;
     Agent.tokens := 0;
     Agent.toolCalls := 0;
     Agent.firstSeen := now;
     Agent.cwd := truthy (hintCwd extra);
     Agent._statusSetAt := None;
     Agent.activity := None;
     Agent._filePaths := None;
     Agent._taskLabel := None;
     Agent.teamName := None;
     Agent.teamAgentId := None;
     Agent.teamMemberName := None;
     Agent.agentType := None;
     Agent.spawnPrompt := None |}.

(** The update branch: the hints reach a record that exists already. *)
Definition applyHints (extra : Hints) (existing : Agent.t) : Agent.t :=
  let e1 :=
    match truthy (hintLabel extra) with
    | Some l => if startsWith (js "Agent ") (Agent.label existing)
                then Agent.set_label l existing else existing
    | None => existing
    end in
  match truthy (hintRole extra) with
  | Some r => if Agent.role e1 === js "worker"
              then Agent.set_role r e1 else e1
  | None => e1
  end.

(** Returns the new state and the record of [sessionId] in it. *)
Definition getOrCreateAgent (sessionId : jsstring) (extra : Hints) (now : Z)
    (st : State) : State * Agent.t :=
  match knownAgents st !! sessionId with
  | None =>
      let color := nth (colorIndex st mod length PALETTE) PALETTE [] in
      let a := newAgent sessionId extra color now in
      (broadcast (Push.agent_join a)
         (set_knownAgents (<[sessionId := a]> (knownAgents st))
            (set_colorIndex (S (colorIndex st)) st)),
       a)
  | Some existing =>
      let a := applyHints extra existing in
      (set_knownAgents (<[sessionId := a]> (knownAgents st)) st, a)
  end.

(** ** Status with hold timer *)

Definition STATUS_HOLD_MS : Z := 3000.

Definition isPreTool (h : jsstring) : bool :=
  (h === js "pre_tool") || (h === js "PreToolUse").
Definition isPostTool (h : jsstring) : bool :=
  (h === js "post_tool") || (h === js "PostToolUse").
Definition isStop (h : jsstring) : bool :=
  (h === js "stop") || (h === js "Stop").
Definition isSessionStart (h : jsstring) : bool :=
  (h === js "session_start") || (h === js "SessionStart").
Definition isSubagentStop (h : jsstring) : bool :=
  (h === js "subagent_stop") || (h === js "SubagentStop").
Definition isTaskDone (h : jsstring) : bool :=
  (h === js "task_done") || (h === js "TaskCompleted").

(** The status a pre-tool event gives, from the tool name alone. *)
Definition activeStatus (toolName : option jsstring) : Status :=
  if equalsLit toolName "Read" || equalsLit toolName "Grep"
     || equalsLit toolName "Glob" || equalsLit toolName "ListDir"
  then reading
  else if equalsLit toolName "Write" || equalsLit toolName "Edit"
  then writing
  else if equalsLit toolName "Task" || equalsLit toolName "SendMessage"
  then delegating
  else if equalsLit toolName "Bash" then tool_call
  else tool_call.

Definition resolveStatus (hookEvent : jsstring) (toolName : option jsstring)
    (now : Z) (agent : Agent.t) : Agent.t :=
  if isPreTool hookEvent then
    Agent.set_status (activeStatus toolName)
      (Agent.set__statusSetAt (Some now) agent)
  else if isPostTool hookEvent then
    let elapsed := (now - default 0 (Agent._statusSetAt agent))%Z in
    if (STATUS_HOLD_MS <=? elapsed)%Z then Agent.set_status thinking agent
    else agent
  else if isStop hookEvent then Agent.set_status done agent
  else if isSessionStart hookEvent then Agent.set_status starting agent
  else if isSubagentStop hookEvent then Agent.set_status done agent
  else if isTaskDone hookEvent then Agent.set_status done agent
  else agent.

(** ** Role inference from file patterns *)

(** A pattern of [inferRoleFromFiles].  Each regular expression of the
    source is an alternation of literals, kept here in its order. *)
Record Pattern := { label : jsstring; re : list jsstring }.

Definition pat (l : string) (alts : list string) : Pattern :=
  {| label := js l; re := map js alts |}.

Definition patterns : list Pattern :=
  [ pat "Tests" ["test"; "spec"; "__test__"; ".test."; ".spec."];
    pat "API" ["api"; "route"; "endpoint"; "controller"; "handler"];
    pat "Frontend" ["component"; "page"; "view"; "layout"; ".tsx"; ".jsx";
                    ".vue"; ".svelte"];
    pat "Database" ["migration"; "schema"; "model"; "seed"; ".sql"; "prisma";
                    "drizzle"];
    pat "Config" ["config"; ".env"; "package.json"; "tsconfig"; "webpack";
                  "vite"];
    pat "Docs" ["readme"; "doc"; ".md"; "guide"; "spec/"];
    pat "DevOps" ["docker"; "ci"; "deploy"; ".yml"; ".yaml"; "terraform";
                  "k8s"];
    pat "Styles" [".css"; ".scss"; "tailwind"; "theme"; "style"] ]%string.

(** The length of the match of an alternation at the head of [s]: the
    first alternative that is a prefix of [s] wins. *)
Fixpoint matchAt (alts : list jsstring) (s : jsstring) : option nat :=
  match alts with
  | [] => None
  | a :: r => if startsWith a s then Some (length a) else matchAt r s
  end.

(** [(s.match(re) || []).length] for a global [re]: the matches are found
    left to right and do not overlap.  [skip] counts the units of the
    current match that are still to be passed. *)
Fixpoint countMatches (alts : list jsstring) (skip : nat) (s : jsstring)
    : nat :=
  match s with
  | [] => 0
  | _ :: r =>
      match skip with
      | S k => countMatches alts k r
      | 0 => match matchAt alts s with
             | Some n => S (countMatches alts (n - 1) r)
             | None => countMatches alts 0 r
             end
      end
  end.

(** [matches ? matches.length : 0] for the pattern [p]. *)
Definition matchCount (joined : jsstring) (p : Pattern) : nat :=
  countMatches (re p) 0 joined.

(** One turn of the loop over [patterns], on the pair [(best, bestCount)]. *)
Definition scoreStep (joined : jsstring) (acc : option jsstring * nat)
    (p : Pattern) : option jsstring * nat :=
  let count := matchCount joined p in
  if snd acc <? count then (Some (label p), count) else acc.

Definition inferRoleFromFiles (paths : list jsstring) : option jsstring :=
  let joined := toLowerCase (join [10%N] paths) in
  let '(best, bestCount) := fold_left (scoreStep joined) patterns (None, 0) in
  if 2 <=? bestCount then best else None.

(** ** [processEvent] *)

(** The label hinted when the event names a model:
    [`${evt.model.replace("claude-", "").replace(/-\d+$/, "")} ${sessionId.substring(0, 6)}`] *)
Definition modelLabel (model sessionId : jsstring) : jsstring :=
  stripVersion (removeFirst (js "claude-") model) ++ js " " ++ take 6 sessionId.

(** [filePath.replace(/\\/g, "/").split("/").pop()] *)
Definition shortFileOf (filePath : jsstring) : jsstring :=
  default [] (last (splitBy isSlash (normalizeSeparators filePath))).

(** The activity line: [`${toolName} → ${shortFile}`], or the tool name
    alone. *)
Definition describeActivity (hookEvent : jsstring)
    (toolName filePath : option jsstring) (agent : Agent.t) : Agent.t :=
  match toolName with
  | Some tool =>
      if isPreTool hookEvent then
        let shortFile :=
          match filePath with Some f => shortFileOf f | None => [] end in
        Agent.set_activity
          (Some (match shortFile with
                 | [] => tool
                 | _ :: _ => tool ++ [32; 8594; 32]%N ++ shortFile
                 end))
          agent
      else agent
  | None => agent
  end.

(** [lastTool], [lastFile], [lastActive] and [toolCalls++]. *)
Definition touch (toolName filePath : option jsstring) (now : Z)
    (agent : Agent.t) : Agent.t :=
  Agent.set_toolCalls (S (Agent.toolCalls agent))
    (Agent.set_lastActive now
       (Agent.set_lastFile filePath (Agent.set_lastTool toolName agent))).

(** [l.slice(-n)] *)
Definition lastN {A} (n : nat) (l : list A) : list A :=
  drop (length l - n) l.

(** File pattern tracking: the path joins the history, of which the last
    30 are kept, and the role inferred from it may become the label. *)
Definition trackFile (filePath : option jsstring) (agent : Agent.t)
    : Agent.t :=
  match filePath with
  | None => agent
  | Some f =>
      let pushed :=
        default [] (Agent._filePaths agent) ++ [normalizeSeparators f] in
      let paths := if 30 <? length pushed then lastN 30 pushed else pushed in
      let agent1 := Agent.set__filePaths (Some paths) agent in
      match truthy (Agent._taskLabel agent1) with
      | Some _ => agent1
      | None =>
          match inferRoleFromFiles paths with
          | Some inferred =>
              if startsWith (js "Agent ") (Agent.label agent1)
              then Agent.set_label inferred agent1 else agent1
          | None => agent1
          end
      end
  end.

(** [Math.ceil(s.length / 4)] *)
Definition quarter (s : jsstring) : Z := Z.of_nat ((length s + 3) / 4).

(** Token estimation: the estimate from the response and the input, or
    the event's own count when it has a truthy one; for a well-typed
    event, in integers.  The amount of an event as it comes, in the
    numbers of JavaScript, is [amountOf], below. *)
Definition estimateTokens (evt : Evt.t) (toolInput : ToolInput.t) : Z :=
  let fromResponse :=
    match Evt.tool_response evt with
    | Some resp =>
        match truthy (ToolResponse.file_content resp) with
        | Some c => quarter c
        | None =>
            match truthy (ToolResponse.stdout resp) with
            | Some o => quarter o
            | None =>
                match ToolResponse.filenames resp with
                | Some names => quarter names
                | None => 0%Z
                end
            end
        end
    | None => 0%Z
    end in
  let fromInput :=
    match truthy (ToolInput.content toolInput) with
    | Some c => quarter c
    | None => 0%Z
    end in
  match Evt.tokens evt with
  | Some t => if (t =? 0)%Z then (fromResponse + fromInput)%Z else t
  | None => (fromResponse + fromInput)%Z
  end.

(** [pendingTasks.find(t => (now - t.timestamp) < 15000 && t.from !== sessionId)]
    together with the [indexOf] of what it finds: the first entry of the
    queue that qualifies, and its position. *)
Definition matchable (now : Z) (sessionId : jsstring) (t : PendingTask.t)
    : bool :=
  (now - PendingTask.timestamp t <? 15000)%Z
  && negb (PendingTask.from t === sessionId).

Fixpoint findPending (now : Z) (sessionId : jsstring)
    (queue : list PendingTask.t) (idx : nat)
    : option (nat * PendingTask.t) :=
  match queue with
  | [] => None
  | t :: r => if matchable now sessionId t then Some (idx, t)
              else findPending now sessionId r (S idx)
  end.

(** [recentMessages.find(m => m.from === pending.from && m.to === "subagent"
    && m.text === pending.label)] followed by [msg.to = sessionId]: the first
    such message, if any, is readdressed where it is stored. *)
Fixpoint retarget (pending : PendingTask.t) (sessionId : jsstring)
    (msgs : list Message.t) : list Message.t :=
  match msgs with
  | [] => []
  | m :: r =>
      if (Message.from m === PendingTask.from pending)
         && (Message.to m === js "subagent")
         && (Message.text m === PendingTask.label pending)
      then Message.set_to sessionId m :: r
      else m :: retarget pending sessionId r
  end.

(** [pendingTasks.splice(idx, 1)] *)
Definition removeAt {A} (idx : nat) (l : list A) : list A :=
  take idx l ++ drop (S idx) l.

(** Task delegation: a pre-tool [Task] event with a description queues a
    pending task and prepares a message to the recipient ["subagent"]. *)
Definition delegateTask (hookEvent : jsstring) (toolName : option jsstring)
    (toolInput : ToolInput.t) (sessionId : jsstring) (agent : Agent.t)
    (env : Env) (queue : list PendingTask.t)
    : list PendingTask.t * option Message.t :=
  if equalsLit toolName "Task" && isPreTool hookEvent then
    match firstTruthy [ToolInput.description toolInput;
                       ToolInput.prompt toolInput;
                       ToolInput.task toolInput;
                       ToolInput.message toolInput;
                       ToolInput.content toolInput] with
    | Some taskDesc =>
        let taskLabel := summarizeTask taskDesc in
        (queue ++ [{| PendingTask.from := sessionId;
                      PendingTask.label := taskLabel;
                      PendingTask.fullDesc := take 200 taskDesc;
                      PendingTask.cwd := Agent.cwd agent;
                      PendingTask.timestamp := now env |}],
         Some {| Message.id := messageId env;
                 Message.from := sessionId;
                 Message.to := js "subagent";
                 Message.text := taskLabel;
                 Message.timestamp := now env |})
    | None => (queue, None)
    end
  else (queue, None).

(** When a new agent appears: the pending task found for it, if any, names
    the agent, its message is readdressed, the task leaves the queue and
    [agent_join] is broadcast again. *)
Definition adoptPending (hookEvent sessionId : jsstring) (now : Z)
    (agent : Agent.t) (st : State) : State * Agent.t :=
  if isSessionStart hookEvent && (0 <? length (pendingTasks st)) then
    match findPending now sessionId (pendingTasks st) 0 with
    | Some (idx, pending) =>
        let agent1 :=
          Agent.set_label (PendingTask.label pending)
            (Agent.set__taskLabel (Some (PendingTask.label pending)) agent) in
        (broadcast (Push.agent_join agent1)
           (set_pendingTasks (removeAt idx (pendingTasks st))
              (set_recentMessages
                 (retarget pending sessionId (recentMessages st)) st)),
         agent1)
    | None => (st, agent)
    end
  else (st, agent).

(** SendMessage (Agent Teams) *)
Definition sendMessage (toolName : option jsstring) (toolInput : ToolInput.t)
    (sessionId : jsstring) (env : Env) (message : option Message.t)
    : option Message.t :=
  if equalsLit toolName "SendMessage" then
    match truthy (ToolInput.to toolInput) with
    | Some target =>
        Some {| Message.id := messageId env;
                Message.from := sessionId;
                Message.to := target;
                Message.text :=
                  default (js "message")
                    (firstTruthy [ToolInput.message toolInput;
                                  ToolInput.content toolInput]);
                Message.timestamp := now env |}
    | None => message
    end
  else message.

(** [evt.session_id || evt.sessionId || "unknown"] *)
Definition sessionIdOf (evt : Evt.t) : jsstring :=
  default (js "unknown") (firstTruthy [Evt.session_id evt; Evt.sessionId evt]).

(** [evt.hook_event_name || evt.event || evt.type || "unknown"] *)
Definition hookEventOf (evt : Evt.t) : jsstring :=
  default (js "unknown")
    (firstTruthy [Evt.hook_event_name evt; Evt.event evt; Evt.type evt]).

Definition toolNameOf (evt : Evt.t) : option jsstring :=
  firstTruthy [Evt.tool_name evt; Evt.tool evt].

Definition toolInputOf (evt : Evt.t) : ToolInput.t :=
  default ToolInput.empty (Evt.tool_input evt).

Definition filePathOf (evt : Evt.t) : option jsstring :=
  let toolInput := toolInputOf evt in
  firstTruthy [ToolInput.file_path toolInput; ToolInput.command toolInput;
               ToolInput.path toolInput].

(** The hints [processEvent] passes to [getOrCreateAgent]. *)
Definition hintsOf (evt : Evt.t) : Hints :=
  {| hintLabel :=
       match truthy (Evt.model evt) with
       | Some model => Some (modelLabel model (sessionIdOf evt))
       | None => None
       end;
     hintRole :=
       if equalsLit (Evt.source evt) "startup" then Some (js "lead")
       else None;
     hintCwd := firstTruthy [Evt.cwd evt; Evt.working_directory evt] |}.

(** What the handler does to the record of the event's agent, from the
    status block to the token estimate (the record is one shared object in
    the source, mutated in place; here it is threaded and stored back). *)
Definition updateAgent (evt : Evt.t) (now : Z) (agent : Agent.t) : Agent.t :=
  let hookEvent := hookEventOf evt in
  let toolName := toolNameOf evt in
  let filePath := filePathOf evt in
  let agent1 := resolveStatus hookEvent toolName now agent in
  let agent2 := describeActivity hookEvent toolName filePath agent1 in
  let agent3 := touch toolName filePath now agent2 in
  let agent4 := trackFile filePath agent3 in
  Agent.set_tokens
    (Agent.tokens agent4 + estimateTokens evt (toolInputOf evt))%Z agent4.

Definition processEvent (evt : Evt.t) (env : Env) (st : State) : State :=
  let sessionId := sessionIdOf evt in
  let hookEvent := hookEventOf evt in
  let toolName := toolNameOf evt in
  let toolInput := toolInputOf evt in
  let '(st0, agent0) := getOrCreateAgent sessionId (hintsOf evt) (now env) st in
  let agent1 := updateAgent evt (now env) agent0 in
  let '(queue, message0) :=
    delegateTask hookEvent toolName toolInput sessionId agent1 env
      (pendingTasks st0) in
  let st1 := set_pendingTasks queue st0 in
  let '(st2, agent2) := adoptPending hookEvent sessionId (now env) agent1 st1 in
  let message := sendMessage toolName toolInput sessionId env message0 in
  let st3 :=
    match message with
    | Some m =>
        set_recentMessages (ringPush MAX_MESSAGES (recentMessages st2) m) st2
    | None => st2
    end in
  let record :=
    {| EventRecord.id := recordId env;
       EventRecord.agentId := sessionId;
       EventRecord.event := hookEvent;
       EventRecord.tool := toolName;
       EventRecord.file := filePathOf evt;
       EventRecord.status := Agent.status agent2;
       EventRecord.activity := truthy (Agent.activity agent2);
       EventRecord.timestamp := now env;
       EventRecord.tokens := estimateTokens evt toolInput |} in
  let st4 :=
    set_recentEvents (ringPush MAX_EVENTS (recentEvents st3) record) st3 in
  let st5 := set_knownAgents (<[sessionId := agent2]> (knownAgents st4)) st4 in
  let st6 := broadcast (Push.event record agent2) st5 in
  match message with
  | Some m => broadcast (Push.message m) st6
  | None => st6
  end.

(** ** The watcher of the teams directory

    The function that [watchAgentTeams] hands to [setTimeout], once the
    200 ms of the debounce have passed for [filename].  What the three
    reads of the team's files return comes as [config] ([None]: no
    readable [config.json]), [inboxes] and [tasks]; [ids] gives the
    identifier drawn for the message made of the [i]-th new inbox entry. *)

Definition isAt (c : N) : bool := (c =? 64)%N.

(** [path.basename(file, ".json")] for a [file] without separator. *)
Definition basenameJson (file : jsstring) : jsstring :=
  let ext := js ".json" in
  if startsWith (rev ext) (rev file)
  then take (length file - length ext) file else file.

(** One turn of the loop over [config.members]. *)
Definition registerMember (team : jsstring) (now : Z) (st : State)
    (member : Member.t) : State :=
  let agentId :=
    default (render (Member.name member) ++ js "@" ++ team)
      (truthy (Member.agentId member)) in
  let extra :=
    {| hintLabel := Some (default agentId (truthy (Member.name member)));
       hintRole :=
         Some (if equalsLit (Member.agentType member) "team-lead"
               then js "lead" else js "worker");
       hintCwd := truthy (Member.cwd member) |} in
  let '(st1, agent) := getOrCreateAgent agentId extra now st in
  let agent1 :=
    Agent.set_agentType (Member.agentType member)
      (Agent.set_teamMemberName
         (Some (default (default [] (head (splitBy isAt agentId)))
                  (truthy (Member.name member))))
         (Agent.set_teamAgentId (Some agentId)
            (Agent.set_teamName (Some team) agent))) in
  let agent2 :=
    match truthy (Member.color member) with
    | Some c => Agent.set_color c agent1
    | None => agent1
    end in
  let agent3 :=
    match truthy (Member.prompt member) with
    | Some p => Agent.set_spawnPrompt (Some p) agent2
    | None => agent2
    end in
  let agent4 :=
    match truthy (Member.name member) with
    | Some n =>
        if startsWith (js "Agent ") (Agent.label agent3)
           || negb (bool_decide (is_Some (truthy (Agent._taskLabel agent3))))
        then Agent.set_label n agent3 else agent3
    | None => agent3
    end in
  set_knownAgents (<[agentId := agent4]> (knownAgents st1)) st1.

(** The loop over [newMessages] that draws the message edges of the
    graph: an entry with a sender becomes a message of [recentMessages]. *)
Fixpoint materialize (team agentName : jsstring) (now : Z)
    (ids : nat -> jsstring) (i : nat) (newMessages : list InboxMsg.t)
    (st : State) : State :=
  match newMessages with
  | [] => st
  | msg :: rest =>
      let st1 :=
        match truthy (InboxMsg.from msg) with
        | Some sender =>
            let fromId := sender ++ js "@" ++ team in
            let toId := agentName ++ js "@" ++ team in
            let has := fun k => bool_decide (is_Some (knownAgents st !! k)) in
            let visualMsg :=
              {| Message.id := ids i;
                 Message.from := if has fromId then fromId else sender;
                 Message.to := if has toId then toId else agentName;
                 Message.text := take 100 (InboxMsg.text msg);
                 Message.timestamp := now |} in
            broadcast (Push.message visualMsg)
              (set_recentMessages
                 (ringPush MAX_MESSAGES (recentMessages st) visualMsg) st)
        | None => st
        end in
      materialize team agentName now ids (S i) rest st1
  end.

(** [messages.slice(prevMessages.length)] *)
Definition newInboxMessages (prevMessages messages : list InboxMsg.t)
    : list InboxMsg.t :=
  drop (length prevMessages) messages.

Definition onTeamsChange (filename : jsstring) (config : option TeamConfig)
    (inboxes : gmap jsstring (list InboxMsg.t)) (tasks : gmap jsstring jsstring)
    (now : Z) (ids : nat -> jsstring) (st : State) : State :=
  let parts := splitBy isSlash (normalizeSeparators filename) in
  match truthy (parts !! 0), config with
  | Some team, Some cfg =>
      let prevTeam := teamsState st !! team in
      let st1 :=
        set_teamsState
          (<[team := Team.mk cfg inboxes tasks]> (teamsState st)) st in
      let st2 :=
        fold_left (registerMember team now) (default [] (members cfg)) st1 in
      if equalsLit (parts !! 1) "config.json" then
        broadcast (Push.team_update team cfg) st2
      else if equalsLit (parts !! 1) "inboxes" then
        match truthy (parts !! 2) with
        | Some file =>
            let agentName := basenameJson file in
            let messages := default [] (inboxes !! agentName) in
            let prevMessages :=
              default []
                (prevTeam ≫= fun t => Team.inboxes t !! agentName) in
            let newMessages := newInboxMessages prevMessages messages in
            if 0 <? length newMessages then
              materialize team agentName now ids 0 newMessages
                (broadcast
                   (Push.inbox_update team agentName newMessages
                      (length messages)) st2)
            else st2
        | None => st2
        end
      else st2
  | _, _ => st
  end.

(** ** The watcher of the events file

    The listener that [watchEventsFile] gives to [fs.watch], with the end
    of the read stream it opens.  [file] is the content of the events file
    as the listener finds it, the same for [fs.statSync] and for the
    stream ([None]: [statSync] throws); [parse] stands for [JSON.parse]
    and the reading of the properties of its result ([None]: the line is
    refused; [JSON.parse] throws on it, or yields [null], on which
    [processEvent] throws at once), [envs i] is what the handler of the
    [i]-th line reads from outside.

    The listener is taken here as one step, on well-typed events and on
    a file that does not change while it is read.  Its two steps, on any
    file and on events as they come, are [onEventsFileNotify] and
    [onEventsFileEnd], below. *)

Inductive WatchEvent := change | rename.

Definition isNewline (b : Byte.byte) : bool := Byte.eqb b Byte.x0a.

(** [buffer.split("\n").filter(Boolean)] *)
Definition linesOf (buffer : list Byte.byte) : list (list Byte.byte) :=
  filter (fun l => l ≠ []) (splitBy isNewline buffer).

Section EventsFile.

Variable parse : list Byte.byte -> option Evt.t.
Variable envs : nat -> Env.

(** The loop over [lines], the [i]-th line first. *)
Fixpoint ingest (i : nat) (lines : list (list Byte.byte)) (st : State)
    : State :=
  match lines with
  | [] => st
  | line :: rest =>
      ingest (S i) rest
        (match parse line with
         | Some evt => processEvent evt (envs i) st
         | None => st
         end)
  end.

Definition onEventsFileChange (eventType : WatchEvent)
    (file : option (list Byte.byte)) (st : State) : State :=
  match eventType, file with
  | change, Some content =>
      let size := length content in
      if size <=? eventsFileSize st then set_eventsFileSize size st
      else
        let buffer := drop (eventsFileSize st) content in
        ingest 0 (linesOf buffer) (set_eventsFileSize size st)
  | _, _ => st
  end.

(** The events that the loop processes: those of the lines that [parse]
    accepts, each with what its handler reads from outside. *)
Fixpoint accepted (i : nat) (lines : list (list Byte.byte))
    : list (Evt.t * Env) :=
  match lines with
  | [] => []
  | line :: rest =>
      match parse line with
      | Some evt => (evt, envs i) :: accepted (S i) rest
      | None => accepted (S i) rest
      end
  end.

End EventsFile.

(** [processEvent] on one event after another. *)
Definition processAll (events : list (Evt.t * Env)) (st : State) : State :=
  fold_left (fun st e => processEvent e.1 e.2 st) events st.

(** An alternative of a pattern that is not empty and holds no newline:
    all of [patterns] are so, and no match of theirs can span two paths of
    the joined history. *)
Definition plain (alt : jsstring) : bool :=
  match alt with
  | [] => false
  | _ :: _ => forallb (fun c => negb (c =? 10)%N) alt
  end.

(** ** The state before and after an event *)

(** The record of a session before an event: [getOrCreateAgent] makes one
    with status ["idle"] and no hold stamp when there is none. *)
Definition statusBefore (st : State) (sid : jsstring) : Status :=
  match knownAgents st !! sid with
  | Some a => Agent.status a
  | None => idle
  end.

Definition holdStampBefore (st : State) (sid : jsstring) : option Z :=
  knownAgents st !! sid ≫= Agent._statusSetAt.

(** The record that [processEvent] leaves for the agent of the event. *)
Definition agentAfter (evt : Evt.t) (env : Env) (st : State) : Agent.t :=
  let sid := sessionIdOf evt in
  let '(st0, agent0) := getOrCreateAgent sid (hintsOf evt) (now env) st in
  let agent1 := updateAgent evt (now env) agent0 in
  let queue :=
    (delegateTask (hookEventOf evt) (toolNameOf evt) (toolInputOf evt) sid
       agent1 env (pendingTasks st0)).1 in
  (adoptPending (hookEventOf evt) sid (now env) agent1
     (set_pendingTasks queue st0)).2.

(** The event kinds and the tool names that the status block tells apart,
    each under its two spellings. *)
Definition preToolKinds : list jsstring :=
  map js ["pre_tool"; "PreToolUse"]%string.
Definition postToolKinds : list jsstring :=
  map js ["post_tool"; "PostToolUse"]%string.
Definition doneKinds : list jsstring :=
  map js ["stop"; "Stop"; "subagent_stop"; "SubagentStop"; "task_done";
          "TaskCompleted"]%string.
Definition startKinds : list jsstring :=
  map js ["session_start"; "SessionStart"]%string.

Definition readTools : list jsstring :=
  map js ["Read"; "Grep"; "Glob"; "ListDir"]%string.
Definition writeTools : list jsstring := map js ["Write"; "Edit"]%string.
Definition delegateTools : list jsstring :=
  map js ["Task"; "SendMessage"]%string.

(** The states the server goes through: it starts, and then runs one
    handler after another, each to its end.  [processEvent] is a step of
    its own: the transcript watcher and the demo mode call it too. *)
Inductive reachable : State -> Prop :=
| reach_start size : reachable (initialState size)
| reach_event evt env st :
    reachable st -> reachable (processEvent evt env st)
| reach_events_file parse envs eventType file st :
    reachable st ->
    reachable (onEventsFileChange parse envs eventType file st)
| reach_teams filename config inboxes tasks now ids st :
    reachable st ->
    reachable (onTeamsChange filename config inboxes tasks now ids st).

(** Both ring buffers within their capacity. *)
Definition bounded (st : State) : Prop :=
  length (recentEvents st) <= MAX_EVENTS
  /\ length (recentMessages st) <= MAX_MESSAGES.

Definition tokensBefore (st : State) (sid : jsstring) : Z :=
  match knownAgents st !! sid with
  | Some a => Agent.tokens a
  | None => 0%Z
  end.

Definition toolCallsBefore (st : State) (sid : jsstring) : nat :=
  match knownAgents st !! sid with
  | Some a => Agent.toolCalls a
  | None => 0
  end.

(** The inbox updates among the broadcasts made. *)
Definition isInboxUpdate (b : Push.t) : bool :=
  match b with
  | Push.inbox_update _ _ _ _ => true
  | _ => false
  end.

Definition inboxUpdates (l : list Push.t) : list Push.t :=
  List.filter isInboxUpdate l.

(** ** The statements of the specification that the code does not meet *)

(** Cutting [s] after [n] units cuts a word when the units on both sides
    of the cut exist and neither is white space. *)
Definition insideWord (s : jsstring) (n : nat) : bool :=
  match n with
  | 0 => false
  | S m =>
      match s !! m, s !! n with
      | Some a, Some b => negb (isWhiteSpace a) && negb (isWhiteSpace b)
      | _, _ => false
      end
  end.

(** "For every longer first clause it returns that clause truncated [...]
    with an ellipsis appended, and the returned text never splits a word." *)
Definition neverSplitsWord : Prop :=
  forall text : jsstring,
    32 < length (firstClause text) ->
    exists n, summarizeTask text = take n (firstClause text) ++ ellipsis
              /\ insideWord (firstClause text) n = false.

(** "For every already-known id it overwrites the label only if the
    current label is still the placeholder", the placeholder being
    ["Agent "] followed by the first 8 characters of the id. *)
Definition overwritesOnlyPlaceholder : Prop :=
  forall (sid : jsstring) (extra : Hints) (now : Z) (st : State)
         (existing : Agent.t),
    knownAgents st !! sid = Some existing ->
    Agent.label (getOrCreateAgent sid extra now st).2 <> Agent.label existing ->
    Agent.label existing = placeholderLabel (take 8 sid).

(** "The inferred category is applied as the agent's label only when the
    agent's label is still a placeholder and the agent has no task-derived
    label": whenever the tracking of a file path changes the label. *)
Definition inferredOnlyOverPlaceholder : Prop :=
  forall (f : jsstring) (a : Agent.t),
    Agent.label (trackFile (Some f) a) <> Agent.label a ->
    Agent.label a = placeholderLabel (take 8 (Agent.id a))
    /\ truthy (Agent._taskLabel a) = None.

(** ** Further statements about the registry and the handlers *)

(** [member.agentId || `${member.name}@${teamName}`], the key under which
    the teams watcher registers a member. *)
Definition memberAgentId (team : jsstring) (member : Member.t) : jsstring :=
  default (render (Member.name member) ++ js "@" ++ team)
    (truthy (Member.agentId member)).

(** The registry is consistent: every record sits under its own id and
    carries the first 8 units of it as its short id, and [colorIndex]
    counts the records. *)
Definition registryOk (st : State) : Prop :=
  colorIndex st = size (knownAgents st)
  /\ forall k a, knownAgents st !! k = Some a ->
       Agent.id a = k /\ Agent.shortId a = take 8 k.

(** ** What one event leaves behind *)

(** The description of the task an event delegates: the event is a
    pre-tool event of the tool [Task] and its input describes a task. *)
Definition taskDescOf (evt : Evt.t) : option jsstring :=
  if equalsLit (toolNameOf evt) "Task" && isPreTool (hookEventOf evt) then
    firstTruthy [ToolInput.description (toolInputOf evt);
                 ToolInput.prompt (toolInputOf evt);
                 ToolInput.task (toolInputOf evt);
                 ToolInput.message (toolInputOf evt);
                 ToolInput.content (toolInputOf evt)]
  else None.

(** The entry that a delegation queues, for an agent working in [cwd]. *)
Definition pendingOf (evt : Evt.t) (env : Env) (cwd : option jsstring)
    (taskDesc : jsstring) : PendingTask.t :=
  {| PendingTask.from := sessionIdOf evt;
     PendingTask.label := summarizeTask taskDesc;
     PendingTask.fullDesc := take 200 taskDesc;
     PendingTask.cwd := cwd;
     PendingTask.timestamp := now env |}.

(** The message that a delegation addresses to ["subagent"]. *)
Definition delegationMessage (evt : Evt.t) (env : Env) (taskDesc : jsstring)
    : Message.t :=
  {| Message.id := messageId env;
     Message.from := sessionIdOf evt;
     Message.to := js "subagent";
     Message.text := summarizeTask taskDesc;
     Message.timestamp := now env |}.

(** The message of an event, if it makes one. *)
Definition messageOf (evt : Evt.t) (env : Env) : option Message.t :=
  sendMessage (toolNameOf evt) (toolInputOf evt) (sessionIdOf evt) env
    (delegationMessage evt env <$> taskDescOf evt).

(** The queue once the event has queued what it delegates. *)
Definition queuedBy (evt : Evt.t) (env : Env) (st : State)
    : list PendingTask.t :=
  match taskDescOf evt with
  | Some taskDesc =>
      pendingTasks st
      ++ [pendingOf evt env
            (match knownAgents st !! sessionIdOf evt with
             | Some a => Agent.cwd a
             | None => truthy (hintCwd (hintsOf evt))
             end) taskDesc]
  | None => pendingTasks st
  end.

(** The entry of the queue that a session start adopts, with its
    position. *)
Definition adoptedBy (evt : Evt.t) (env : Env) (st : State)
    : option (nat * PendingTask.t) :=
  if isSessionStart (hookEventOf evt) && (0 <? length (queuedBy evt env st))
  then findPending (now env) (sessionIdOf evt) (queuedBy evt env st) 0
  else None.

(** The record of the event, from the record of its agent at the end. *)
Definition recordOf (evt : Evt.t) (env : Env) (after : Agent.t)
    : EventRecord.t :=
  {| EventRecord.id := recordId env;
     EventRecord.agentId := sessionIdOf evt;
     EventRecord.event := hookEventOf evt;
     EventRecord.tool := toolNameOf evt;
     EventRecord.file := filePathOf evt;
     EventRecord.status := Agent.status after;
     EventRecord.activity := truthy (Agent.activity after);
     EventRecord.timestamp := now env;
     EventRecord.tokens := estimateTokens evt (toolInputOf evt) |}.

(** ** What the buffers, the queue and the registry refer to *)

(** An agent of the registry was announced when an [agent_join] with its
    id is among the broadcasts. *)
Definition announced (st : State) (k : jsstring) : Prop :=
  exists a, Push.agent_join a ∈ sent st /\ Agent.id a = k.

(** Every event record and every pending task names an agent of the
    registry, and every agent of the registry was announced. *)
Definition wellReferenced (st : State) : Prop :=
  (forall r, r ∈ recentEvents st ->
     is_Some (knownAgents st !! EventRecord.agentId r))
  /\ (forall p, p ∈ pendingTasks st ->
        is_Some (knownAgents st !! PendingTask.from p))
  /\ (forall k, is_Some (knownAgents st !! k) -> announced st k).

(** A file history holds at most 30 paths, none with a backslash; and so
    does the history of every agent. *)
Definition historyOk (paths : option (list jsstring)) : Prop :=
  length (default [] paths) <= 30
  /\ forall path, path ∈ default [] paths -> 92%N ∉ path.

Definition historiesOk (st : State) : Prop :=
  forall k a, knownAgents st !! k = Some a -> historyOk (Agent._filePaths a).

(** ** The inbox files of a team

    What [readJsonSafe] makes of an inbox file: nothing ([null]: the file
    is missing, empty, no JSON, or holds a falsy value), an array of
    messages, or another value, of which the handlers read the property
    [messages] (an array of messages when truthy). *)
Inductive InboxData :=
| noData
| messageArray (messages : list InboxMsg.t)
| messageObject (messages : option (list InboxMsg.t)).

(** The directories [inboxes] of the teams, by team name: the files of
    each, by file name. *)
Abbreviation Disk := (gmap jsstring (gmap jsstring InboxData)).

(** [s.endsWith(suffix)] *)
Definition endsWith (suffix s : jsstring) : bool :=
  startsWith (rev suffix) (rev s).

(** A name without a path separator: joined to a directory, it names an
    entry of that directory. *)
Definition isFileName (s : jsstring) : bool :=
  forallb (fun c => negb (isSlash c) && negb (c =? 92)%N) s.

(** [Array.isArray(data) ? data : (data.messages || [])], under [if (data)]. *)
Definition inboxMessages (data : InboxData) : option (list InboxMsg.t) :=
  match data with
  | noData => None
  | messageArray messages => Some messages
  | messageObject messages => Some (default [] messages)
  end.

(** One turn of the loop of [readTeamInboxes] over the [.json] files. *)
Definition readInboxFile (inboxes : gmap jsstring (list InboxMsg.t))
    (entry : jsstring * InboxData) : gmap jsstring (list InboxMsg.t) :=
  if endsWith (js ".json") entry.1 then
    match inboxMessages entry.2 with
    | Some messages => <[basenameJson entry.1 := messages]> inboxes
    | None => inboxes
    end
  else inboxes.

(** [readTeamInboxes(teamName)]: the files of the directory are visited in
    the order in which the directory lists them. *)
Definition readTeamInboxes (disk : Disk) (teamName : jsstring)
    : gmap jsstring (list InboxMsg.t) :=
  match disk !! teamName with
  | None => ∅
  | Some files => fold_left readInboxFile (map_to_list files) ∅
  end.

(** [writeInboxMessage(teamName, targetAgent, fromName, messageText)] for a
    [targetAgent] that is a file name, when the calls of the file system
    succeed; [iso] is [new Date().toISOString()].  Returns the disk after
    the rename and the message written. *)
Definition writeInboxMessage (teamName targetAgent fromName messageText
    iso : jsstring) (disk : Disk) : Disk * option InboxMsg.t :=
  let files := default ∅ (disk !! teamName) in
  let inboxFile := targetAgent ++ js ".json" in
  let messages :=
    match files !! inboxFile with
    | Some (messageArray existing) => existing
    | Some (messageObject (Some existing)) => existing
    | _ => []
    end in
  let msg :=
    {| InboxMsg.from := Some fromName;
       InboxMsg.text := messageText;
       InboxMsg.timestamp := Some iso;
       InboxMsg.read := false |} in
  (<[teamName := <[inboxFile := messageArray (messages ++ [msg])]> files]> disk,
   Some msg).

(** The branch [send_inbox_message] of the handler of the messages from the
    UI. *)
Definition onSendInboxMessage (teamName targetAgent fromName text
    : option jsstring) (iso : jsstring) (disk : Disk)
    : Disk * option InboxMsg.t :=
  match truthy teamName, truthy targetAgent, truthy text with
  | Some team, Some target, Some messageText =>
      writeInboxMessage team target
        (default (js "observer") (truthy fromName)) messageText iso disk
  | _, _, _ => (disk, None)
  end.

(** ** The read of the teams directory at the start

    A directory of the teams directory as [readAllTeams] finds it: its
    name and what the three reads of its files return. *)
Module TeamDir.
Record t := mk {
  name : jsstring;
  config : option TeamConfig;
  inboxes : gmap jsstring (list InboxMsg.t);
  tasks : gmap jsstring jsstring
}.
End TeamDir.

(** One turn of the loop of [readAllTeams] over the directories. *)
Definition readTeam (now : Z) (st : State) (dir : TeamDir.t) : State :=
  match TeamDir.config dir with
  | None => st
  | Some cfg =>
      let teamName := TeamDir.name dir in
      fold_left (registerMember teamName now) (default [] (members cfg))
        (set_teamsState
           (<[teamName := Team.mk cfg (TeamDir.inboxes dir) (TeamDir.tasks dir)]>
              (teamsState st)) st)
  end.

(** [readAllTeams()], the directories in the order [readdirSync] lists
    them. *)
Definition readAllTeams (dirs : list TeamDir.t) (now : Z) (st : State)
    : State :=
  fold_left (readTeam now) dirs st.

(** ** The watcher of the transcripts

    A line of a transcript, as [JSON.parse] returns it: the properties the
    listener reads.  [content] is [None] when [entry.message?.content] is
    missing or falsy, and otherwise the array it holds, or the one value
    it holds taken as an array of one. *)
Module Block.
Record t := mk {
  type : option jsstring;
  name : option jsstring;
  input : option ToolInput.t
}.
End Block.

Module Entry.
Record t := mk {
  type : option jsstring;
  session_id : option jsstring;
  cwd : option jsstring;
  content : option (list Block.t)
}.
End Entry.

(** [path.basename(fullPath, ext)] for a path below a directory: the last
    segment, without [ext] at its end unless it is [ext] itself. *)
Definition basenameOf (ext fullPath : jsstring) : jsstring :=
  let segment := default [] (last (splitBy isSlash fullPath)) in
  if endsWith ext segment && negb (segment === ext)
  then take (length segment - length ext) segment else segment.

(** The event that the listener makes of a [tool_use] block. *)
Definition transcriptEvent (fullPath : jsstring) (entry : Entry.t)
    (block : Block.t) : Evt.t :=
  {| Evt.session_id :=
       Some (default (basenameOf (js ".jsonl") fullPath)
               (truthy (Entry.session_id entry)));
     Evt.sessionId := None;
     Evt.hook_event_name := Some (js "PostToolUse");
     Evt.event := None;
     Evt.type := None;
     Evt.tool_name := Block.name block;
     Evt.tool := None;
     Evt.tool_input := Some (default ToolInput.empty (Block.input block));
     Evt.cwd := Entry.cwd entry;
     Evt.working_directory := None;
     Evt.model := None;
     Evt.source := None;
     Evt.tool_response := None;
     Evt.tokens := None |}.

Section Transcripts.

(** [parse] stands for [JSON.parse] and the reading of the properties
    ([None]: the line is passed over); [envs i j] is what the handler of
    the [j]-th block of the [i]-th line reads from outside;
    [projectsDir] is [PROJECTS_DIR]. *)
Variable parse : list Byte.byte -> option Entry.t.
Variable envs : nat -> nat -> Env.
Variable projectsDir : jsstring.

(** The loop over the blocks of a line, the [j]-th block first. *)
Fixpoint replayBlocks (fullPath : jsstring) (entry : Entry.t) (i j : nat)
    (blocks : list Block.t) (st : State) : State :=
  match blocks with
  | [] => st
  | block :: rest =>
      replayBlocks fullPath entry i (S j) rest
        (if equalsLit (Block.type block) "tool_use"
         then processEvent (transcriptEvent fullPath entry block) (envs i j) st
         else st)
  end.

(** The loop over the lines, the [i]-th line first. *)
Fixpoint replayLines (fullPath : jsstring) (i : nat)
    (lines : list (list Byte.byte)) (st : State) : State :=
  match lines with
  | [] => st
  | line :: rest =>
      replayLines fullPath (S i) rest
        (match parse line with
         | Some entry =>
             if equalsLit (Entry.type entry) "assistant" then
               match Entry.content entry with
               | Some blocks => replayBlocks fullPath entry i 0 blocks st
               | None => st
               end
             else st
         | None => st
         end)
  end.

(** The listener that [watchTranscripts] gives to [fs.watch], with the end
    of the read stream it opens, taken as one step on a file that does not
    change while it is read (its two steps are [onTranscriptNotify] and
    [onTranscriptEnd], below).  [file] is the content of the file named
    ([None]: [statSync] throws); [fileSizes] is the map of the sizes
    seen.  [filename] is a path below [projectsDir] that [path.join] has
    nothing to normalise in. *)
Definition onTranscriptChange (filename : option jsstring)
    (file : option (list Byte.byte)) (fileSizes : gmap jsstring nat)
    (st : State) : gmap jsstring nat * State :=
  match truthy filename with
  | Some name =>
      if endsWith (js ".jsonl") name then
        let fullPath := projectsDir ++ js "/" ++ name in
        match file with
        | Some content =>
            let size := length content in
            let prevSize :=
              match fileSizes !! fullPath with
              | Some (S n) => S n
              | _ => size
              end in
            if size <=? prevSize then (<[fullPath := size]> fileSizes, st)
            else
              (<[fullPath := size]> fileSizes,
               replayLines fullPath 0 (linesOf (drop prevSize content)) st)
        | None => (fileSizes, st)
        end
      else (fileSizes, st)
  | None => (fileSizes, st)
  end.

End Transcripts.

(** The statuses after are those before, but for agents that are now
    thinking; an agent that was not there counts as idle. *)
Definition calm (st st' : State) : Prop :=
  forall k, statusBefore st' k = thinking
            \/ statusBefore st' k = statusBefore st k.

(** ** A client that connects

    The object a client is sent when it connects ([serverCwd] apart). *)
Module Snapshot.
Record t := mk {
  agents : gmap jsstring Agent.t;
  recentEvents : list EventRecord.t;
  recentMessages : list Message.t;
  teams : gmap jsstring Team.t
}.
End Snapshot.

Definition snapshotOf (st : State) : Snapshot.t :=
  {| Snapshot.agents := knownAgents st;
     Snapshot.recentEvents := lastN 80 (recentEvents st);
     Snapshot.recentMessages := lastN 30 (recentMessages st);
     Snapshot.teams := teamsState st |}.

(** The states the server goes through from the state [st0] on. *)
Inductive reaches (st0 : State) : State -> Prop :=
| reaches_here : reaches st0 st0
| reaches_event evt env st :
    reaches st0 st -> reaches st0 (processEvent evt env st)
| reaches_events_file parse envs eventType file st :
    reaches st0 st ->
    reaches st0 (onEventsFileChange parse envs eventType file st)
| reaches_teams filename config inboxes tasks now ids st :
    reaches st0 st ->
    reaches st0 (onTeamsChange filename config inboxes tasks now ids st).

(** Every agent of [st] is in the snapshot made at [st0] or was announced
    by one of the broadcasts [later]. *)
Definition allAnnounced (st0 st : State) (later : list Push.t) : Prop :=
  forall k, is_Some (knownAgents st !! k) ->
    is_Some (Snapshot.agents (snapshotOf st0) !! k)
    \/ exists a, Push.agent_join a ∈ later /\ Agent.id a = k.

(** An agent that carries the name of a team carries its own key as team
    id, and the server holds a snapshot of that team. *)
Definition teamsOk (st : State) : Prop :=
  forall k a team,
    knownAgents st !! k = Some a -> Agent.teamName a = Some team ->
    team <> [] /\ Agent.teamAgentId a = Some k
    /\ is_Some (Agent.teamMemberName a)
    /\ is_Some (teamsState st !! team).

(** ** The context of an agent

    What the branch [get_agent_context] of the handler of the messages
    from the UI sends back, apart from the tasks (the server keeps a task
    as the text of its file) and the description of the team. *)
Module TeamInfo.
Record t := mk {
  name : jsstring;
  memberCount : nat;
  members : list Member.t
}.
End TeamInfo.

Module Context.
Record t := mk {
  agentId : jsstring;
  agent : option Agent.t;
  inbox : list InboxMsg.t;
  teamInfo : option TeamInfo.t;
  spawnPrompt : option jsstring
}.
End Context.

(** [{ name: m.name, agentId: m.agentId, agentType: m.agentType, color: m.color }] *)
Definition memberSummary (m : Member.t) : Member.t :=
  Member.mk (Member.name m) (Member.agentId m) (Member.agentType m)
    (Member.color m) None None.

(** [a || b || c] on the results of [Map.prototype.get] for arrays: the
    first that is there. *)
Fixpoint firstSome {A} (l : list (option A)) : option A :=
  match l with
  | [] => None
  | Some x :: _ => Some x
  | None :: r => firstSome r
  end.

Definition agentContext (agentId : jsstring) (st : State) : Context.t :=
  let agent := knownAgents st !! agentId in
  let bare := Context.mk agentId agent [] None None in
  match agent with
  | Some a =>
      match truthy (Agent.teamName a) with
      | Some teamName =>
          match teamsState st !! teamName with
          | Some team =>
              let memberName :=
                default (default [] (head (splitBy isAt agentId)))
                  (firstTruthy [Agent.teamMemberName a;
                                Some (Agent.label a)]) in
              let inbox :=
                default []
                  (firstSome [Team.inboxes team !! memberName;
                              Team.inboxes team !! Agent.label a;
                              Team.inboxes team !! agentId]) in
              let all := default [] (members (Team.config team)) in
              Context.mk agentId agent (lastN 50 inbox)
                (Some {| TeamInfo.name := teamName;
                         TeamInfo.memberCount := length all;
                         TeamInfo.members := map memberSummary all |})
                (truthy (Agent.spawnPrompt a))
          | None => bare
          end
      | None => bare
      end
  | None => bare
  end.

(** ** The hook dispatcher

    The record that [scripts/log-event.js] appends to the events file, as
    the server reads it back: [hookData] is what the hook wrote to the
    standard input ([None]: no JSON, and the dispatcher goes on with an
    empty object), [argument] is [process.argv[2]] and [envSession] the
    variable [CLAUDE_SESSION_ID]. *)
Definition logRecord (hookData : option Evt.t)
    (argument envSession : option jsstring) : Evt.t :=
  let data := default Evt.empty hookData in
  let eventType := default (js "unknown") (truthy argument) in
  {| Evt.session_id :=
       Some (default (js "unknown")
               (firstTruthy [Evt.session_id data; envSession]));
     Evt.sessionId := Evt.sessionId data;
     Evt.hook_event_name := Evt.hook_event_name data;
     Evt.event := Some eventType;
     Evt.type := Evt.type data;
     Evt.tool_name := Evt.tool_name data;
     Evt.tool := Evt.tool data;
     Evt.tool_input := Evt.tool_input data;
     Evt.cwd := Evt.cwd data;
     Evt.working_directory := Evt.working_directory data;
     Evt.model := Evt.model data;
     Evt.source := Evt.source data;
     Evt.tool_response := Evt.tool_response data;
     Evt.tokens := Evt.tokens data |}.

(** ** Events as they come

    A line of the log is any JSON value, and [processEvent] checks no
    type.  The properties on which it calls a method of strings, of which
    it takes the length, or which it puts in a message, are taken here as
    they come: [text] for a string, [other] for a truthy value that is no
    string (a number, [true], an array, an object), [missing] for a
    property that is absent or holds [null], [false] or [0].  The
    remaining properties keep the types of [Evt.t]: the handler compares
    them and stores them, and throws on none of them. *)
Inductive Value :=
| missing
| text (s : jsstring)
| other.

(** [evt.tokens]: absent or falsy, an integer, or any other truthy value
    (a fraction, a string, ...). *)
Inductive Count :=
| noCount
| count (z : Z)
| otherCount.

Module RawInput.
Record t := mk {
  file_path : Value;
  command : Value;
  path : Value;
  content : Value;
  description : Value;
  prompt : Value;
  task : Value;
  message : Value;
  to : Value
}.
Definition empty : t :=
  mk missing missing missing missing missing missing missing missing missing.
End RawInput.

Module RawResponse.
Record t := mk {
  file_content : Value;
  stdout : Value;
  filenames : option jsstring
}.
End RawResponse.

Module RawEvt.
Record t := mk {
  session_id : Value;
  sessionId : Value;
  hook_event_name : option jsstring;
  event : option jsstring;
  type : option jsstring;
  tool_name : option jsstring;
  tool : option jsstring;
  tool_input : option RawInput.t;
  cwd : option jsstring;
  working_directory : option jsstring;
  model : Value;
  source : option jsstring;
  tool_response : option RawResponse.t;
  tokens : Count
}.
Definition empty : t :=
  mk missing missing None None None None None None None None missing None
    None noCount.
End RawEvt.

Definition isOther (v : Value) : bool :=
  match v with other => true | _ => false end.

(** The string a value is, if it is one. *)
Definition textOf (v : Value) : option jsstring :=
  match v with text s => Some s | _ => None end.

(** [a || b || ...]: the first truthy value. *)
Fixpoint firstValue (l : list Value) : Value :=
  match l with
  | [] => missing
  | v :: r =>
      match v with
      | other => other
      | text (c :: s) => text (c :: s)
      | _ => firstValue r
      end
  end.

(** The event as [Evt.t] shows it: what the handler reads where every
    property it meets is a string. *)
Definition viewInput (i : RawInput.t) : ToolInput.t :=
  {| ToolInput.file_path := textOf (RawInput.file_path i);
     ToolInput.command := textOf (RawInput.command i);
     ToolInput.path := textOf (RawInput.path i);
     ToolInput.content := textOf (RawInput.content i);
     ToolInput.description := textOf (RawInput.description i);
     ToolInput.prompt := textOf (RawInput.prompt i);
     ToolInput.task := textOf (RawInput.task i);
     ToolInput.message := textOf (RawInput.message i);
     ToolInput.to := textOf (RawInput.to i) |}.

Definition viewResponse (r : RawResponse.t) : ToolResponse.t :=
  {| ToolResponse.file_content := textOf (RawResponse.file_content r);
     ToolResponse.stdout := textOf (RawResponse.stdout r);
     ToolResponse.filenames := RawResponse.filenames r |}.

Definition viewEvt (raw : RawEvt.t) : Evt.t :=
  {| Evt.session_id := textOf (RawEvt.session_id raw);
     Evt.sessionId := textOf (RawEvt.sessionId raw);
     Evt.hook_event_name := RawEvt.hook_event_name raw;
     Evt.event := RawEvt.event raw;
     Evt.type := RawEvt.type raw;
     Evt.tool_name := RawEvt.tool_name raw;
     Evt.tool := RawEvt.tool raw;
     Evt.tool_input := viewInput <$> RawEvt.tool_input raw;
     Evt.cwd := RawEvt.cwd raw;
     Evt.working_directory := RawEvt.working_directory raw;
     Evt.model := textOf (RawEvt.model raw);
     Evt.source := RawEvt.source raw;
     Evt.tool_response := viewResponse <$> RawEvt.tool_response raw;
     Evt.tokens :=
       match RawEvt.tokens raw with count z => Some z | _ => None end |}.

(** A well-typed event, as it comes. *)
Definition valueOf (o : option jsstring) : Value :=
  match o with Some s => text s | None => missing end.

Definition rawInput (i : ToolInput.t) : RawInput.t :=
  {| RawInput.file_path := valueOf (ToolInput.file_path i);
     RawInput.command := valueOf (ToolInput.command i);
     RawInput.path := valueOf (ToolInput.path i);
     RawInput.content := valueOf (ToolInput.content i);
     RawInput.description := valueOf (ToolInput.description i);
     RawInput.prompt := valueOf (ToolInput.prompt i);
     RawInput.task := valueOf (ToolInput.task i);
     RawInput.message := valueOf (ToolInput.message i);
     RawInput.to := valueOf (ToolInput.to i) |}.

Definition rawResponse (r : ToolResponse.t) : RawResponse.t :=
  {| RawResponse.file_content := valueOf (ToolResponse.file_content r);
     RawResponse.stdout := valueOf (ToolResponse.stdout r);
     RawResponse.filenames := ToolResponse.filenames r |}.

Definition rawEvt (evt : Evt.t) : RawEvt.t :=
  {| RawEvt.session_id := valueOf (Evt.session_id evt);
     RawEvt.sessionId := valueOf (Evt.sessionId evt);
     RawEvt.hook_event_name := Evt.hook_event_name evt;
     RawEvt.event := Evt.event evt;
     RawEvt.type := Evt.type evt;
     RawEvt.tool_name := Evt.tool_name evt;
     RawEvt.tool := Evt.tool evt;
     RawEvt.tool_input := rawInput <$> Evt.tool_input evt;
     RawEvt.cwd := Evt.cwd evt;
     RawEvt.working_directory := Evt.working_directory evt;
     RawEvt.model := valueOf (Evt.model evt);
     RawEvt.source := Evt.source evt;
     RawEvt.tool_response := rawResponse <$> Evt.tool_response evt;
     RawEvt.tokens :=
       match Evt.tokens evt with Some z => count z | None => noCount end |}.

(** How the handling of an event ends: at the end of [processEvent]; at
    a [TypeError] thrown on the way, which the [catch] of the caller
    swallows, what was done up to there staying done; or in a state that
    the records of this model do not hold (a value that is no string was
    stored, or a sum of tokens is no exact integer). *)
Inductive Outcome :=
| finished (st : State)
| abandoned (st : State)
| unmodelled.

(** Integers up to [2 ^ 53] in magnitude are numbers of JavaScript, and a
    sum of two of them that stays within that bound is exact. *)
Definition SAFE : Z := 2 ^ 53.

Definition exactSum (a b : Z) : bool :=
  ((Z.abs a <=? SAFE) && (Z.abs b <=? SAFE) && (Z.abs (a + b) <=? SAFE))%Z.

(** The estimate of the tokens of an event, from the lengths of the
    response and of the input: [None] when a length is taken of a value
    that is no string. *)
Definition estimateOf (raw : RawEvt.t) : option Z :=
  let fromResponse :=
    match RawEvt.tool_response raw with
    | Some resp =>
        match firstValue [RawResponse.file_content resp] with
        | other => None
        | text c => Some (quarter c)
        | missing =>
            match firstValue [RawResponse.stdout resp] with
            | other => None
            | text o => Some (quarter o)
            | missing =>
                match RawResponse.filenames resp with
                | Some names => Some (quarter names)
                | None => Some 0%Z
                end
            end
        end
    | None => Some 0%Z
    end in
  let fromInput :=
    match firstValue
            [RawInput.content (default RawInput.empty (RawEvt.tool_input raw))]
    with
    | other => None
    | text c => Some (quarter c)
    | missing => Some 0%Z
    end in
  match fromResponse, fromInput with
  | Some a, Some b => Some (a + b)%Z
  | _, _ => None
  end.

(** [estimatedTokens] at [agent.tokens += estimatedTokens]: the count of
    the event when it has a truthy one, the estimate otherwise. *)
Definition amountOf (raw : RawEvt.t) : option Z :=
  match RawEvt.tokens raw with
  | otherCount => None
  | count z => if (z =? 0)%Z then estimateOf raw else Some z
  | noCount => estimateOf raw
  end.

(** The message of a [SendMessage] holds a value that is no string: its
    recipient, or its text when it has a recipient. *)
Definition unreadable (to body : Value) : bool :=
  match to with
  | other => true
  | text _ => isOther body
  | missing => false
  end.

(** [processEvent] on an event as it comes.  The statements that throw on
    a value that is no string are, in the order of the source: the
    [replace] on [evt.model] and the [substring] on the session id, in the
    arguments of [getOrCreateAgent] and in its creation branch, before
    anything is done; the [replace] on the file path in the activity
    line, once the status is set; the [replace] on the file path in the
    file tracking, once that path is stored as [lastFile]; and the
    [replace] of [summarizeTask] on the description of a task, once the
    record of the agent is updated. *)
Definition processRaw (raw : RawEvt.t) (env : Env) (st : State) : Outcome :=
  let evt := viewEvt raw in
  let hookEvent := hookEventOf evt in
  let toolName := toolNameOf evt in
  let input := default RawInput.empty (RawEvt.tool_input raw) in
  let sessionId :=
    firstValue [RawEvt.session_id raw; RawEvt.sessionId raw] in
  let filePath :=
    firstValue [RawInput.file_path input; RawInput.command input;
                RawInput.path input] in
  let taskDesc :=
    firstValue [RawInput.description input; RawInput.prompt input;
                RawInput.task input; RawInput.message input;
                RawInput.content input] in
  if isOther (firstValue [RawEvt.model raw]) || isOther sessionId
  then abandoned st
  else
    let sid := sessionIdOf evt in
    let '(st0, agent0) := getOrCreateAgent sid (hintsOf evt) (now env) st in
    let store (a : Agent.t) :=
      set_knownAgents (<[sid := a]> (knownAgents st0)) st0 in
    let agent1 := resolveStatus hookEvent toolName (now env) agent0 in
    if isOther filePath then
      if bool_decide (is_Some toolName) && isPreTool hookEvent
      then abandoned (store agent1)
      else unmodelled
    else
      match amountOf raw with
      | Some amount =>
          if exactSum (Agent.tokens agent0) amount then
            if equalsLit toolName "Task" && isPreTool hookEvent
               && isOther taskDesc
            then abandoned (store (updateAgent evt (now env) agent0))
            else if equalsLit toolName "SendMessage"
                    && unreadable
                         (firstValue [RawInput.to input])
                         (firstValue [RawInput.message input;
                                      RawInput.content input])
            then unmodelled
            else finished (processEvent evt env st)
          else unmodelled
      | None => unmodelled
      end.


(** A change of every state an outcome holds. *)
Definition mapOutcome (f : State -> State) (o : Outcome) : Outcome :=
  match o with
  | finished st => finished (f st)
  | abandoned st => abandoned (f st)
  | unmodelled => unmodelled
  end.



(** The records that a run of events pushes, one after another. *)
Fixpoint recordsOf (events : list (Evt.t * Env)) (st : State)
    : list EventRecord.t :=
  match events with
  | [] => []
  | e :: rest =>
      recordOf e.1 e.2 (agentAfter e.1 e.2 st)
      :: recordsOf rest (processEvent e.1 e.2 st)
  end.

(** The messages as an event finds them when it pushes its own: those
    there were, one of them readdressed when the event adopts a task. *)
Definition messagesKept (evt : Evt.t) (env : Env) (st : State)
    : list Message.t :=
  match adoptedBy evt env st with
  | Some (_, pending) =>
      retarget pending (sessionIdOf evt) (recentMessages st)
  | None => recentMessages st
  end.

(** ** The listener of the events file, step by step

    The listener does its work in two steps, between which the server may
    do anything else: at a notification it takes the size of the file
    and, when the file has grown, opens a read of it from the stored
    offset; at the end of that read it stores the size taken at the
    notification and goes through the lines read.  The read is opened
    with a start and no end: it delivers the file from that start to its
    end, as the file is while it is read. *)

(** A read that was opened: where it starts, and the size taken at the
    notification. *)
Record Reading := { start : nat; statSize : nat }.

(** The listener up to [createReadStream]; [size] is what [statSync]
    finds ([None]: it throws). *)
Definition onEventsFileNotify (eventType : WatchEvent) (size : option nat)
    (st : State) : State * option Reading :=
  match eventType, size with
  | change, Some size =>
      if size <=? eventsFileSize st then (set_eventsFileSize size st, None)
      else (st, Some {| start := eventsFileSize st; statSize := size |})
  | _, _ => (st, None)
  end.

(** What the read delivers, [content] being the file while it is read. *)
Definition bytesRead (r : Reading) (content : list Byte.byte)
    : list Byte.byte :=
  drop (start r) content.


Section EventsFileSteps.

(** [parse] stands for [JSON.parse] and the reading of the properties of
    its result ([None]: [JSON.parse] throws on the line, or yields
    [null]). *)
Variable parse : list Byte.byte -> option RawEvt.t.
Variable envs : nat -> Env.

(** The loop over [lines], the [i]-th line first: the [catch] of a line
    takes what [JSON.parse] and [processEvent] throw, and the loop goes
    on.  There is no result when an event ends in a state that is not
    modelled. *)
Fixpoint ingestRaw (i : nat) (lines : list (list Byte.byte)) (st : State)
    : option State :=
  match lines with
  | [] => Some st
  | line :: rest =>
      match parse line with
      | Some raw =>
          match processRaw raw (envs i) st with
          | finished st' => ingestRaw (S i) rest st'
          | abandoned st' => ingestRaw (S i) rest st'
          | unmodelled => None
          end
      | None => ingestRaw (S i) rest st
      end
  end.

(** The function given to [stream.on("end", ...)]. *)
Definition onEventsFileEnd (r : Reading) (content : list Byte.byte)
    (st : State) : option State :=
  ingestRaw 0 (linesOf (bytesRead r content))
    (set_eventsFileSize (statSize r) st).

(** A notification whose read ends before the server does anything else,
    on a file that is [content] from the notification to the end of the
    read. *)
Definition tailOnce (content : list Byte.byte) (st : State) : option State :=
  match onEventsFileNotify change (Some (length content)) st with
  | (st1, Some r) => onEventsFileEnd r content st1
  | (st1, None) => Some st1
  end.

End EventsFileSteps.

(** The states the server goes through when events come as they come: an
    event is handled to its end or abandoned, and the listener of the
    events file stores an offset, between the other steps. *)
Inductive runs : State -> Prop :=
| runs_start size : runs (initialState size)
| runs_event evt env st :
    runs st -> runs (processEvent evt env st)
| runs_raw raw env st st' :
    runs st ->
    processRaw raw env st = finished st'
    \/ processRaw raw env st = abandoned st' ->
    runs st'
| runs_offset size st :
    runs st -> runs (set_eventsFileSize size st)
| runs_teams filename config inboxes tasks now ids st :
    runs st ->
    runs (onTeamsChange filename config inboxes tasks now ids st).

(** ** The listener of the transcripts, step by step

    A line of a transcript as it comes: a block of [content] is [None]
    when it is [null]. *)
Module RawBlock.
Record t := mk {
  type : option jsstring;
  name : option jsstring;
  input : option RawInput.t
}.
End RawBlock.

Module RawEntry.
Record t := mk {
  type : option jsstring;
  session_id : Value;
  cwd : option jsstring;
  content : option (list (option RawBlock.t))
}.
End RawEntry.

(** The event that the listener makes of a [tool_use] block. *)
Definition rawTranscriptEvent (fullPath : jsstring) (entry : RawEntry.t)
    (block : RawBlock.t) : RawEvt.t :=
  {| RawEvt.session_id :=
       match firstValue [RawEntry.session_id entry] with
       | missing => text (basenameOf (js ".jsonl") fullPath)
       | v => v
       end;
     RawEvt.sessionId := missing;
     RawEvt.hook_event_name := Some (js "PostToolUse");
     RawEvt.event := None;
     RawEvt.type := None;
     RawEvt.tool_name := RawBlock.name block;
     RawEvt.tool := None;
     RawEvt.tool_input :=
       Some (default RawInput.empty (RawBlock.input block));
     RawEvt.cwd := RawEntry.cwd entry;
     RawEvt.working_directory := None;
     RawEvt.model := missing;
     RawEvt.source := None;
     RawEvt.tool_response := None;
     RawEvt.tokens := noCount |}.

Section TranscriptSteps.

Variable parse : list Byte.byte -> option RawEntry.t.
Variable envs : nat -> nat -> Env.
Variable projectsDir : jsstring.

(** The loop over the blocks of a line, the [j]-th block first.  What a
    block throws ends the line: the [catch] is around the whole loop. *)
Fixpoint replayBlocksRaw (fullPath : jsstring) (entry : RawEntry.t)
    (i j : nat) (blocks : list (option RawBlock.t)) (st : State)
    : option State :=
  match blocks with
  | [] => Some st
  | None :: _ => Some st
  | Some block :: rest =>
      if equalsLit (RawBlock.type block) "tool_use" then
        match processRaw (rawTranscriptEvent fullPath entry block)
                (envs i j) st with
        | finished st' => replayBlocksRaw fullPath entry i (S j) rest st'
        | abandoned st' => Some st'
        | unmodelled => None
        end
      else replayBlocksRaw fullPath entry i (S j) rest st
  end.

(** The loop over the lines, the [i]-th line first. *)
Fixpoint replayLinesRaw (fullPath : jsstring) (i : nat)
    (lines : list (list Byte.byte)) (st : State) : option State :=
  match lines with
  | [] => Some st
  | line :: rest =>
      match
        match parse line with
        | Some entry =>
            if equalsLit (RawEntry.type entry) "assistant" then
              match RawEntry.content entry with
              | Some blocks => replayBlocksRaw fullPath entry i 0 blocks st
              | None => Some st
              end
            else Some st
        | None => Some st
        end
      with
      | Some st' => replayLinesRaw fullPath (S i) rest st'
      | None => None
      end
  end.

(** The listener up to [createReadStream]: the sizes seen after it, and
    the read it opens, with the path of the file read. *)
Definition onTranscriptNotify (filename : option jsstring)
    (size : option nat) (fileSizes : gmap jsstring nat)
    : gmap jsstring nat * option (jsstring * Reading) :=
  match truthy filename with
  | Some name =>
      if endsWith (js ".jsonl") name then
        let fullPath := projectsDir ++ js "/" ++ name in
        match size with
        | Some size =>
            let prevSize :=
              match fileSizes !! fullPath with
              | Some (S n) => S n
              | _ => size
              end in
            if size <=? prevSize then (<[fullPath := size]> fileSizes, None)
            else
              (fileSizes,
               Some (fullPath, {| start := prevSize; statSize := size |}))
        | None => (fileSizes, None)
        end
      else (fileSizes, None)
  | None => (fileSizes, None)
  end.

(** The function given to [stream.on("end", ...)]. *)
Definition onTranscriptEnd (fullPath : jsstring) (r : Reading)
    (content : list Byte.byte) (fileSizes : gmap jsstring nat) (st : State)
    : gmap jsstring nat * option State :=
  (<[fullPath := statSize r]> fileSizes,
   replayLinesRaw fullPath 0 (linesOf (bytesRead r content)) st).

End TranscriptSteps.

(** * Properties *)

(** Membership in a list of literals, one literal at a time. *)
Ltac literals H :=
  cbn [map preToolKinds postToolKinds doneKinds startKinds readTools
         writeTools delegateTools app] in H;
  repeat (apply elem_of_cons in H as [->|H]);
  [..|by apply elem_of_nil in H].

(** Case analysis on what the goal matches on. *)
Ltac cases :=
  repeat match goal with
  | |- context [match ?x with _ => _ end] => destruct x
  end; try done.


(** ** Strings *)

Lemma lastIndexFrom_spec (c : N) (s : jsstring) (i acc : Z) :
  let r := lastIndexFrom c s i acc in
  (r = acc /\ forall k, s !! k <> Some c)
  \/ ((i <= r < i + Z.of_nat (length s))%Z
      /\ s !! Z.to_nat (r - i) = Some c
      /\ forall k, (r - i < Z.of_nat k)%Z -> s !! k <> Some c).
Proof.
  revert i acc. induction s as [|d s IH]; intros i acc; simpl.
  - left. split; [reflexivity|]. intros k. by rewrite lookup_nil.
  - destruct (IH (i + 1)%Z (if (d =? c)%N then i else acc))
      as [[Hr Hno]|(Hr & Hat & Hno)].
    + destruct (N.eqb_spec d c) as [->|Hdc].
      * right. rewrite Hr. split; [lia|]. split.
        -- by replace (i - i)%Z with 0%Z by lia.
        -- intros [|k] Hk; [lia|]. simpl. apply Hno.
      * left. split; [exact Hr|]. intros [|k]; simpl; [congruence|apply Hno].
    + right. split; [lia|]. split.
      * replace (Z.to_nat (lastIndexFrom c s (i + 1) _ - i))
          with (S (Z.to_nat (lastIndexFrom c s (i + 1)
                               (if (d =? c)%N then i else acc) - (i + 1))))
          by lia.
        exact Hat.
      * intros [|k] Hk; [lia|]. simpl. apply Hno. lia.
Qed.

Lemma lastIndexOf_spec (c : N) (s : jsstring) :
  (lastIndexOf c s = (-1)%Z /\ forall k, s !! k <> Some c)
  \/ ((0 <= lastIndexOf c s < Z.of_nat (length s))%Z
      /\ s !! Z.to_nat (lastIndexOf c s) = Some c
      /\ forall k, (lastIndexOf c s < Z.of_nat k)%Z -> s !! k <> Some c).
Proof.
  unfold lastIndexOf.
  destruct (lastIndexFrom_spec c s 0 (-1)) as [H|(H1 & H2 & H3)]; [by left|].
  right. rewrite Z.sub_0_r in H2. split; [lia|]. split; [exact H2|].
  intros k Hk. apply H3. lia.
Qed.

(** ** [summarizeTask] *)

Lemma dropWhile_subseteq {A} (p : A -> bool) (l : list A) :
  dropWhile p l ⊆ l.
Proof.
  induction l as [|x l IH]; simpl; [done|].
  destruct (p x); [|done]. intros y Hy. apply list_elem_of_further.
  by apply IH.
Qed.

Lemma trim_subseteq (s : jsstring) : trim s ⊆ s.
Proof.
  unfold trim. intros c Hc.
  apply list_elem_of_In, in_rev, list_elem_of_In in Hc.
  apply dropWhile_subseteq in Hc.
  apply list_elem_of_In, in_rev, list_elem_of_In in Hc.
  by apply dropWhile_subseteq in Hc.
Qed.

Lemma takeUntil_none {A} (p : A -> bool) (l : list A) (x : A) :
  x ∈ takeUntil p l -> p x = false.
Proof.
  induction l as [|y l IH]; simpl; [by intros ?%elem_of_nil|].
  destruct (p y) eqn:E; [by intros ?%elem_of_nil|].
  intros [->|H]%elem_of_cons; [done|by apply IH].
Qed.

(** The first clause holds none of the terminators ['.'], ['!'], ['?']. *)
Lemma firstClause_no_terminator (text : jsstring) (c : N) :
  c ∈ firstClause text -> isTerminator c = false.
Proof.
  unfold firstClause. intros H%trim_subseteq. by apply takeUntil_none in H.
Qed.

(** C3, first half: a first clause of at most 32 units is returned as it
    is. *)
Lemma summarizeTask_short (text : jsstring) :
  length (firstClause text) <= 32 -> summarizeTask text = firstClause text.
Proof.
  intros H. unfold summarizeTask. simpl.
  destruct (Nat.leb_spec (length (firstClause text)) 32); [reflexivity|lia].
Qed.

(** C3 (amended): what [summarizeTask] returns.  A first clause of at most
    32 units comes back verbatim.  A longer one comes back cut, with the
    ellipsis appended: cut before the last space among its first 40 units
    when that space lies beyond index 15, so that the cut falls on a word
    boundary; and cut to its first 40 units, wherever that falls, when no
    space lies at the indices 16 to 39. *)
Theorem summarizeTask_spec (text : jsstring) :
  let first := firstClause text in
  (length first <= 32 -> summarizeTask text = first)
  /\ (32 < length first ->
      (exists i, 15 < i < 40
         /\ first !! i = Some SPACE
         /\ (forall j, i < j < 40 -> first !! j <> Some SPACE)
         /\ summarizeTask text = take i first ++ ellipsis
         /\ insideWord first i = false)
      \/ ((forall j, 15 < j < 40 -> first !! j <> Some SPACE)
          /\ summarizeTask text = take 40 first ++ ellipsis)).
Proof.
  intros first. split; [apply summarizeTask_short|].
  intros Hlong. unfold summarizeTask. fold first.
  destruct (Nat.leb_spec (length first) 32) as [|_]; [lia|]. simpl.
  assert (Hlen : length (take 40 first) <= 40) by (rewrite length_take; lia).
  destruct (lastIndexOf_spec SPACE (take 40 first))
    as [[Hm Hno]|(Hr & Hat & Hno)].
  - right. rewrite Hm. simpl. split; [|reflexivity].
    intros j Hj Hsp. apply (Hno j). rewrite lookup_take_lt; [exact Hsp|lia].
  - destruct (Z.ltb_spec 15 (lastIndexOf SPACE (take 40 first))) as [Hgt|Hle].
    + left. set (i := Z.to_nat (lastIndexOf SPACE (take 40 first))) in *.
      assert (Hi : 15 < i < 40) by lia.
      exists i. split; [exact Hi|].
      assert (Hsp : first !! i = Some SPACE).
      { rewrite lookup_take_lt in Hat; [exact Hat|lia]. }
      split; [exact Hsp|]. split.
      * intros j Hj Hs. apply (Hno j); [lia|].
        rewrite lookup_take_lt; [exact Hs|lia].
      * split.
        -- rewrite take_take. by replace (i `min` 40) with i by lia.
        -- unfold insideWord. destruct i as [|m]; [reflexivity|].
           rewrite Hsp. destruct (first !! m); [|reflexivity].
           change (isWhiteSpace SPACE) with true. apply andb_false_r.
    + right. split; [|reflexivity].
      intros j Hj Hs. apply (Hno j); [lia|].
      rewrite lookup_take_lt; [exact Hs|lia].
Qed.

(** C3, as the specification words it, fails: a first clause of 41 letters
    without a space is cut after its 40th letter, inside the word. *)
Lemma summarizeTask_splits_word :
  let text := replicate 41 97%N in
  firstClause text = text
  /\ summarizeTask text = replicate 40 97%N ++ ellipsis
  /\ insideWord text 40 = true
  /\ ~ neverSplitsWord.
Proof.
  split; [reflexivity|]. split; [reflexivity|]. split; [reflexivity|].
  intros H. destruct (H (replicate 41 97%N)) as (n & Hn & Hw).
  { vm_compute. lia. }
  change (firstClause (replicate 41 97%N)) with (replicate 41 97%N) in *.
  change (summarizeTask (replicate 41 97%N))
    with (replicate 40 97%N ++ ellipsis) in Hn.
  apply app_inv_tail in Hn.
  assert (Hl : length (take n (replicate 41 97%N)) = 40)
    by (rewrite <- Hn; reflexivity).
  rewrite length_take, length_replicate in Hl.
  assert (n = 40) as -> by lia.
  vm_compute in Hw. discriminate.
Qed.

(** ** Operators *)

Lemma streq_true (a b : jsstring) : (a === b) = true <-> a = b.
Proof. unfold streq. apply bool_decide_eq_true. Qed.

(** ** The hold timer *)

Lemma applyHints_status (extra : Hints) (a : Agent.t) :
  Agent.status (applyHints extra a) = Agent.status a
  /\ Agent._statusSetAt (applyHints extra a) = Agent._statusSetAt a.
Proof.
  unfold applyHints.
  destruct (truthy (hintLabel extra)), (truthy (hintRole extra));
    repeat (match goal with |- context [if ?b then _ else _] =>
              destruct b end); done.
Qed.

Lemma trackFile_status (f : option jsstring) (a : Agent.t) :
  Agent.status (trackFile f a) = Agent.status a
  /\ Agent._statusSetAt (trackFile f a) = Agent._statusSetAt a.
Proof.
  unfold trackFile. destruct f as [f|]; [|done].
  destruct (truthy _); [done|].
  destruct (inferRoleFromFiles _); [|done].
  destruct (startsWith _ _); done.
Qed.

Lemma describeActivity_status (h : jsstring) (t f : option jsstring)
    (a : Agent.t) :
  Agent.status (describeActivity h t f a) = Agent.status a
  /\ Agent._statusSetAt (describeActivity h t f a) = Agent._statusSetAt a.
Proof.
  unfold describeActivity. destruct t; [|done]. destruct (isPreTool h); done.
Qed.

Lemma updateAgent_status (evt : Evt.t) (now : Z) (a : Agent.t) :
  let r := resolveStatus (hookEventOf evt) (toolNameOf evt) now a in
  Agent.status (updateAgent evt now a) = Agent.status r
  /\ Agent._statusSetAt (updateAgent evt now a) = Agent._statusSetAt r.
Proof.
  intros r. unfold updateAgent. fold r. simpl.
  destruct (trackFile_status (filePathOf evt)
              (touch (toolNameOf evt) (filePathOf evt) now
                 (describeActivity (hookEventOf evt) (toolNameOf evt)
                    (filePathOf evt) r))) as [-> ->].
  simpl. apply describeActivity_status.
Qed.

Lemma adoptPending_status (h sid : jsstring) (now : Z) (a : Agent.t)
    (st : State) :
  Agent.status (adoptPending h sid now a st).2 = Agent.status a
  /\ Agent._statusSetAt (adoptPending h sid now a st).2
     = Agent._statusSetAt a.
Proof.
  unfold adoptPending. destruct (_ && _); [|done].
  destruct (findPending _ _ _ _) as [[idx p]|]; done.
Qed.

Lemma getOrCreateAgent_status (sid : jsstring) (extra : Hints) (now : Z)
    (st : State) :
  Agent.status (getOrCreateAgent sid extra now st).2 = statusBefore st sid
  /\ Agent._statusSetAt (getOrCreateAgent sid extra now st).2
     = holdStampBefore st sid.
Proof.
  unfold getOrCreateAgent, statusBefore, holdStampBefore.
  destruct (knownAgents st !! sid) as [a|]; simpl; [|done].
  apply applyHints_status.
Qed.

Lemma processEvent_agent (evt : Evt.t) (env : Env) (st : State) :
  knownAgents (processEvent evt env st) !! sessionIdOf evt
  = Some (agentAfter evt env st).
Proof.
  unfold processEvent, agentAfter.
  destruct (getOrCreateAgent _ _ _ _) as [st0 agent0].
  destruct (delegateTask _ _ _ _ _ _ _) as [queue message0]. simpl.
  destruct (adoptPending _ _ _ _ _) as [st2 agent2]. simpl.
  destruct (sendMessage _ _ _ _ _); simpl; apply lookup_insert_eq.
Qed.

Lemma agentAfter_status (evt : Evt.t) (env : Env) (st : State) :
  let sid := sessionIdOf evt in
  let agent0 := (getOrCreateAgent sid (hintsOf evt) (now env) st).2 in
  let r := resolveStatus (hookEventOf evt) (toolNameOf evt) (now env) agent0 in
  Agent.status (agentAfter evt env st) = Agent.status r
  /\ Agent._statusSetAt (agentAfter evt env st) = Agent._statusSetAt r.
Proof.
  intros sid agent0 r. unfold agentAfter. fold sid. subst r agent0.
  destruct (getOrCreateAgent _ _ _ _) as [st0 agent0]. simpl.
  destruct (adoptPending_status (hookEventOf evt) sid (now env)
              (updateAgent evt (now env) agent0)
              (set_pendingTasks
                 (delegateTask (hookEventOf evt) (toolNameOf evt)
                    (toolInputOf evt) sid (updateAgent evt (now env) agent0)
                    env (pendingTasks st0)).1 st0)) as [-> ->].
  apply updateAgent_status.
Qed.

Lemma resolveStatus_pre (h : jsstring) (t : option jsstring) (now : Z)
    (a : Agent.t) :
  h ∈ preToolKinds ->
  resolveStatus h t now a
  = Agent.set_status (activeStatus t) (Agent.set__statusSetAt (Some now) a).
Proof. intros H. literals H; reflexivity. Qed.

Lemma resolveStatus_post (h : jsstring) (t : option jsstring) (now : Z)
    (a : Agent.t) :
  h ∈ postToolKinds ->
  resolveStatus h t now a
  = if (STATUS_HOLD_MS <=? now - default 0 (Agent._statusSetAt a))%Z
    then Agent.set_status thinking a else a.
Proof. intros H. literals H; reflexivity. Qed.

Lemma resolveStatus_done (h : jsstring) (t : option jsstring) (now : Z)
    (a : Agent.t) :
  h ∈ doneKinds -> resolveStatus h t now a = Agent.set_status done a.
Proof. intros H. literals H; reflexivity. Qed.

Lemma resolveStatus_start (h : jsstring) (t : option jsstring) (now : Z)
    (a : Agent.t) :
  h ∈ startKinds -> resolveStatus h t now a = Agent.set_status starting a.
Proof. intros H. literals H; reflexivity. Qed.

Lemma resolveStatus_other (h : jsstring) (t : option jsstring) (now : Z)
    (a : Agent.t) :
  h ∉ preToolKinds ++ postToolKinds ++ doneKinds ++ startKinds ->
  resolveStatus h t now a = a.
Proof.
  intros H. unfold resolveStatus, isPreTool, isPostTool, isStop,
    isSessionStart, isSubagentStop, isTaskDone.
  repeat match goal with
  | |- context [h === ?l] =>
      let E := fresh in
      destruct (h === l) eqn:E;
      [apply streq_true in E; exfalso; apply H; rewrite E;
       cbn [map preToolKinds postToolKinds doneKinds startKinds app];
       repeat first [apply list_elem_of_here | apply list_elem_of_further]
      |]
  end.
  reflexivity.
Qed.

Lemma activeStatus_spec (t : option jsstring) :
  (forall n, t = Some n -> n ∈ readTools -> activeStatus t = reading)
  /\ (forall n, t = Some n -> n ∈ writeTools -> activeStatus t = writing)
  /\ (forall n, t = Some n -> n ∈ delegateTools ->
        activeStatus t = delegating)
  /\ ((forall n, t = Some n ->
         n ∉ readTools ++ writeTools ++ delegateTools) ->
        activeStatus t = tool_call).
Proof.
  repeat split.
  - intros n -> H. literals H; reflexivity.
  - intros n -> H. literals H; reflexivity.
  - intros n -> H. literals H; reflexivity.
  - intros H. destruct t as [n|]; [|reflexivity].
    specialize (H n eq_refl). unfold activeStatus, equalsLit.
    repeat match goal with
    | |- context [n === ?l] =>
        let E := fresh in
        destruct (n === l) eqn:E;
        [try (solve [apply streq_true in E; exfalso; apply H; rewrite E;
           cbn [map readTools writeTools delegateTools app];
           repeat first [apply list_elem_of_here
                        | apply list_elem_of_further]])
        |]
    end; reflexivity.
Qed.

(** C1: the status state machine.  After any event the agent of the event
    has a record, in which: a pre-tool event has set the status that the
    tool name alone decides (reading for Read, Grep, Glob and ListDir,
    writing for Write and Edit, delegating for Task and SendMessage,
    tool_call for anything else) and has stamped [_statusSetAt] with the
    current time; a post-tool event has set "thinking" if at least 3000 ms
    have passed since the stamp (since 0 when there is none), and has left
    the status as it was otherwise; stop, subagent-stop and task-done have
    set "done"; session-start has set "starting"; any other kind has left
    the status as it was, "idle" for an agent never seen. *)
Theorem status_machine (evt : Evt.t) (env : Env) (st : State) :
  let sid := sessionIdOf evt in
  let kind := hookEventOf evt in
  let tool := toolNameOf evt in
  let after := agentAfter evt env st in
  knownAgents (processEvent evt env st) !! sid = Some after
  /\ (kind ∈ preToolKinds ->
      Agent.status after = activeStatus tool
      /\ Agent._statusSetAt after = Some (now env))
  /\ (kind ∈ postToolKinds ->
      Agent.status after
      = (if (3000 <=? now env - default 0 (holdStampBefore st sid))%Z
         then thinking else statusBefore st sid)
      /\ Agent._statusSetAt after = holdStampBefore st sid)
  /\ (kind ∈ doneKinds -> Agent.status after = done)
  /\ (kind ∈ startKinds -> Agent.status after = starting)
  /\ (kind ∉ preToolKinds ++ postToolKinds ++ doneKinds ++ startKinds ->
      Agent.status after = statusBefore st sid
      /\ Agent._statusSetAt after = holdStampBefore st sid)
  /\ (forall n, tool = Some n -> n ∈ readTools -> activeStatus tool = reading)
  /\ (forall n, tool = Some n -> n ∈ writeTools ->
        activeStatus tool = writing)
  /\ (forall n, tool = Some n -> n ∈ delegateTools ->
        activeStatus tool = delegating)
  /\ ((forall n, tool = Some n ->
         n ∉ readTools ++ writeTools ++ delegateTools) ->
        activeStatus tool = tool_call).
Proof.
  intros sid kind tool after.
  destruct (agentAfter_status evt env st) as [Hs Ht].
  destruct (getOrCreateAgent_status sid (hintsOf evt) (now env) st)
    as [Hs0 Ht0].
  fold sid kind tool after in Hs, Ht.
  split; [apply processEvent_agent|].
  split; [intros H; rewrite Hs, Ht, (resolveStatus_pre _ _ _ _ H); done|].
  split.
  { intros H. rewrite Hs, Ht, (resolveStatus_post _ _ _ _ H), Ht0.
    unfold STATUS_HOLD_MS. destruct (3000 <=? _)%Z; simpl; by rewrite ?Hs0. }
  split; [intros H; by rewrite Hs, (resolveStatus_done _ _ _ _ H)|].
  split; [intros H; by rewrite Hs, (resolveStatus_start _ _ _ _ H)|].
  split; [intros H; by rewrite Hs, Ht, (resolveStatus_other _ _ _ _ H)|].
  apply activeStatus_spec.
Qed.

(** The hold of an active status, on two events of one session: after a
    pre-tool event at time [t0] and a post-tool event at time [t1], the
    status is the one that the tool of the pre-tool event gave as long as
    [t1 - t0] is under 3000 ms, and "thinking" from there on. *)
Lemma hold_window (pre post : Evt.t) (env0 env1 : Env) (st : State) :
  sessionIdOf post = sessionIdOf pre ->
  hookEventOf pre ∈ preToolKinds ->
  hookEventOf post ∈ postToolKinds ->
  let st1 := processEvent pre env0 st in
  Agent.status (agentAfter post env1 st1)
  = if (3000 <=? now env1 - now env0)%Z then thinking
    else activeStatus (toolNameOf pre).
Proof.
  intros Hsid Hpre Hpost st1.
  destruct (agentAfter_status post env1 st1) as [-> _].
  rewrite (resolveStatus_post _ _ _ _ Hpost).
  destruct (getOrCreateAgent_status (sessionIdOf post) (hintsOf post)
              (now env1) st1) as [Hs Ht].
  rewrite Ht. unfold holdStampBefore, statusBefore in *.
  rewrite Hsid in *. unfold st1 in *. rewrite processEvent_agent in *.
  destruct (agentAfter_status pre env0 st) as [Hs0 Ht0].
  rewrite (resolveStatus_pre _ _ _ _ Hpre) in Hs0, Ht0.
  cbn [mbind option_bind]. rewrite Ht0. cbn [default].
  unfold STATUS_HOLD_MS. destruct (3000 <=? _)%Z; [reflexivity|].
  by rewrite Hs, Hs0.
Qed.

(** ** Ring buffers *)

Section RingPush.
Context {A : Type}.
Implicit Types (buf l : list A) (x : A) (cap : nat).

Lemma ringPush_room cap buf x :
  length buf < cap -> ringPush cap buf x = buf ++ [x].
Proof.
  intros H. unfold ringPush. rewrite length_app. simpl.
  destruct (Nat.ltb_spec cap (length buf + 1)); [lia|reflexivity].
Qed.

Lemma ringPush_full cap buf x :
  length buf = cap -> ringPush cap buf x = drop 1 (buf ++ [x]).
Proof.
  intros H. unfold ringPush. rewrite length_app. simpl.
  destruct (Nat.ltb_spec cap (length buf + 1)); [reflexivity|lia].
Qed.

Lemma ringPush_length cap buf x :
  length buf <= cap -> length (ringPush cap buf x) <= cap.
Proof.
  intros H. unfold ringPush.
  destruct (Nat.ltb_spec cap (length (buf ++ [x]))) as [Hlt|Hle];
    [|exact Hle].
  rewrite length_drop, length_app. simpl. lia.
Qed.

(** Pushing the elements of [l] one after another leaves the last [cap]
    of them, in the order they came. *)
Lemma ringPush_all cap l buf :
  length buf <= cap ->
  fold_left (ringPush cap) l buf = lastN cap (buf ++ l).
Proof.
  revert buf. induction l as [|x l IH]; intros buf Hb; simpl.
  - rewrite app_nil_r. unfold lastN.
    by replace (length buf - cap) with 0 by lia.
  - rewrite IH by by apply ringPush_length.
    destruct (decide (length buf < cap)) as [Hlt|Hge].
    + rewrite ringPush_room by done. by rewrite <- app_assoc.
    + rewrite ringPush_full by lia. unfold lastN.
      rewrite (cons_middle x buf l), app_assoc.
      set (b := buf ++ [x]).
      assert (Hlen : length b = S cap)
        by (unfold b; rewrite length_app; simpl; lia).
      rewrite !length_app, length_drop, Hlen.
      replace (S cap - 1 + length l - cap) with (length l) by lia.
      replace (S cap + length l - cap) with (1 + length l) by lia.
      rewrite <- (drop_drop (b ++ l)).
      f_equal. rewrite drop_app_le by lia. reflexivity.
Qed.

End RingPush.

Lemma retarget_length (p : PendingTask.t) (sid : jsstring)
    (msgs : list Message.t) :
  length (retarget p sid msgs) = length msgs.
Proof.
  induction msgs as [|m r IH]; simpl; [reflexivity|].
  destruct (_ && _); simpl; by rewrite ?IH.
Qed.

(** What [getOrCreateAgent] leaves alone. *)
Lemma getOrCreateAgent_frame (sid : jsstring) (extra : Hints) (now : Z)
    (st : State) :
  let st' := (getOrCreateAgent sid extra now st).1 in
  recentEvents st' = recentEvents st
  /\ recentMessages st' = recentMessages st
  /\ pendingTasks st' = pendingTasks st
  /\ teamsState st' = teamsState st
  /\ eventsFileSize st' = eventsFileSize st.
Proof.
  unfold getOrCreateAgent. by destruct (knownAgents st !! sid).
Qed.

Lemma adoptPending_bounded (h sid : jsstring) (now : Z) (a : Agent.t)
    (st : State) :
  let st' := (adoptPending h sid now a st).1 in
  recentEvents st' = recentEvents st
  /\ length (recentMessages st') = length (recentMessages st).
Proof.
  unfold adoptPending. destruct (_ && _); [|done].
  destruct (findPending _ _ _ _) as [[idx p]|]; [|done].
  simpl. by rewrite retarget_length.
Qed.

Lemma processEvent_bounded (evt : Evt.t) (env : Env) (st : State) :
  bounded st -> bounded (processEvent evt env st).
Proof.
  intros [He Hm]. unfold processEvent.
  pose proof (getOrCreateAgent_frame (sessionIdOf evt) (hintsOf evt)
                (now env) st) as (Fe & Fm & _).
  destruct (getOrCreateAgent _ _ _ _) as [st0 agent0]. simpl in Fe, Fm.
  destruct (delegateTask _ _ _ _ _ _ _) as [queue message0].
  pose proof (adoptPending_bounded (hookEventOf evt) (sessionIdOf evt)
                (now env) (updateAgent evt (now env) agent0)
                (set_pendingTasks queue st0)) as [Ge Gm].
  destruct (adoptPending _ _ _ _ _) as [st2 agent2]. simpl in Ge, Gm.
  rewrite Fe in Ge. rewrite Fm in Gm.
  destruct (sendMessage _ _ _ _ _) as [m|]; split; simpl;
    try (apply ringPush_length; rewrite ?Ge, ?Gm; assumption).
  by rewrite Gm.
Qed.

Lemma registerMember_frame (team : jsstring) (now : Z) (st : State)
    (member : Member.t) :
  let st' := registerMember team now st member in
  recentEvents st' = recentEvents st
  /\ recentMessages st' = recentMessages st
  /\ pendingTasks st' = pendingTasks st
  /\ teamsState st' = teamsState st
  /\ eventsFileSize st' = eventsFileSize st.
Proof.
  unfold registerMember.
  match goal with
  | |- context [getOrCreateAgent ?i ?e ?n ?s] =>
      pose proof (getOrCreateAgent_frame i e n s) as F;
      destruct (getOrCreateAgent i e n s) as [st1 agent]
  end.
  exact F.
Qed.

Lemma registerMembers_frame (team : jsstring) (now : Z)
    (l : list Member.t) (st : State) :
  let st' := fold_left (registerMember team now) l st in
  recentEvents st' = recentEvents st
  /\ recentMessages st' = recentMessages st
  /\ pendingTasks st' = pendingTasks st
  /\ teamsState st' = teamsState st
  /\ eventsFileSize st' = eventsFileSize st.
Proof.
  revert st. induction l as [|m l IH]; intros st; simpl; [done|].
  destruct (IH (registerMember team now st m)) as (-> & -> & -> & -> & ->).
  apply registerMember_frame.
Qed.

Lemma materialize_bounded (team agentName : jsstring) (now : Z)
    (ids : nat -> jsstring) (i : nat) (l : list InboxMsg.t) (st : State) :
  bounded st -> bounded (materialize team agentName now ids i l st).
Proof.
  revert i st. induction l as [|msg l IH]; intros i st Hb; simpl; [done|].
  apply IH. destruct (truthy (InboxMsg.from msg)); [|done].
  destruct Hb as [He Hm]. split; simpl; [done|by apply ringPush_length].
Qed.

Lemma onTeamsChange_bounded filename config inboxes tasks now ids
    (st : State) :
  bounded st ->
  bounded (onTeamsChange filename config inboxes tasks now ids st).
Proof.
  intros Hb. unfold onTeamsChange.
  destruct (truthy _) as [team|]; [|done]. destruct config as [cfg|]; [|done].
  match goal with
  | |- context [fold_left ?f ?l ?s] =>
      pose proof (registerMembers_frame team now l s) as (Fe & Fm & _);
      set (st2 := fold_left f l s) in *
  end.
  simpl in Fe, Fm.
  assert (H2 : bounded st2) by (unfold bounded; by rewrite Fe, Fm).
  destruct (equalsLit _ "config.json"); [done|].
  destruct (equalsLit _ "inboxes"); [|done].
  destruct (truthy _); [|done]. destruct (0 <? _); [|done].
  by apply materialize_bounded.
Qed.

Lemma ingest_bounded parse envs (i : nat) (lines : list (list Byte.byte))
    (st : State) :
  bounded st -> bounded (ingest parse envs i lines st).
Proof.
  revert i st. induction lines as [|l lines IH]; intros i st Hb; simpl;
    [done|].
  apply IH. destruct (parse l); [by apply processEvent_bounded|done].
Qed.

Lemma onEventsFileChange_bounded parse envs eventType file (st : State) :
  bounded st -> bounded (onEventsFileChange parse envs eventType file st).
Proof.
  intros Hb. unfold onEventsFileChange.
  destruct eventType, file as [content|]; try done.
  destruct (_ <=? _); [done|]. by apply ingest_bounded.
Qed.

(** ** The agent registry *)

Lemma set_label_same (a : Agent.t) : Agent.set_label (Agent.label a) a = a.
Proof. by destruct a. Qed.

Lemma set_role_same (a : Agent.t) : Agent.set_role (Agent.role a) a = a.
Proof. by destruct a. Qed.

(** C5 (amended): [getOrCreateAgent].  For an id not seen before it stores
    one new record (label from the hints or the placeholder ["Agent "] and
    the first 8 characters of the id, role from the hints or "worker",
    colour the palette entry at [colorIndex] modulo the 20 colours, status
    "idle"), moves [colorIndex] on by one and broadcasts one [agent_join].
    For a known id it broadcasts nothing and leaves [colorIndex]; the
    record changes in its label and role at most: the hinted label
    replaces a label that starts with ["Agent "], whether that label is
    the placeholder or not, and the hinted role replaces the role "worker".
    In both cases the record returned is the one stored, and no other
    record changes. *)
Theorem getOrCreateAgent_spec (sid : jsstring) (extra : Hints) (now : Z)
    (st : State) :
  let st' := (getOrCreateAgent sid extra now st).1 in
  let a := (getOrCreateAgent sid extra now st).2 in
  knownAgents st' = <[sid := a]> (knownAgents st)
  /\ (knownAgents st !! sid = None ->
      Agent.id a = sid
      /\ Agent.label a
         = default (placeholderLabel (take 8 sid)) (truthy (hintLabel extra))
      /\ Agent.role a = default (js "worker") (truthy (hintRole extra))
      /\ PALETTE !! (colorIndex st mod 20) = Some (Agent.color a)
      /\ Agent.status a = idle
      /\ colorIndex st' = S (colorIndex st)
      /\ sent st' = sent st ++ [Push.agent_join a])
  /\ (forall existing, knownAgents st !! sid = Some existing ->
      a = Agent.set_role
            (match truthy (hintRole extra) with
             | Some r => if Agent.role existing === js "worker" then r
                         else Agent.role existing
             | None => Agent.role existing
             end)
            (Agent.set_label
               (match truthy (hintLabel extra) with
                | Some l => if startsWith (js "Agent ") (Agent.label existing)
                            then l else Agent.label existing
                | None => Agent.label existing
                end)
               existing)
      /\ colorIndex st' = colorIndex st
      /\ sent st' = sent st).
Proof.
  intros st' a. subst st' a. unfold getOrCreateAgent.
  destruct (knownAgents st !! sid) as [existing|] eqn:Hk; cbn [fst snd].
  - split; [reflexivity|]. split; [discriminate|].
    intros ? [= <-]. split; [|done].
    unfold applyHints.
    destruct (truthy (hintLabel extra)) as [l|],
             (truthy (hintRole extra)) as [r|];
      try destruct (startsWith _ _);
      cbn [Agent.role Agent.set_label];
      try destruct (_ === _);
      by rewrite ?set_label_same, ?set_role_same.
  - split; [reflexivity|]. split; [|discriminate].
    intros _. repeat split. cbn [Agent.color newAgent].
    change (length PALETTE) with 20.
    assert (Hlt : colorIndex st mod 20 < 20)
      by (apply Nat.mod_upper_bound; discriminate).
    rewrite nth_lookup.
    destruct (PALETTE !! (colorIndex st mod 20)) eqn:E; [reflexivity|].
    apply lookup_ge_None in E. change (length PALETTE) with 20 in E. lia.
Qed.

(** C5, as the specification words it, fails: a label that came with the
    hints and happens to start with ["Agent "] is not the placeholder, and
    the next hinted label replaces it all the same. *)
Lemma getOrCreateAgent_overwrites_hinted_label :
  let sid := js "s1" in
  let hint l := {| hintLabel := Some l; hintRole := None;
                   hintCwd := None |} in
  let st1 :=
    (getOrCreateAgent sid (hint (js "Agent Smith")) 0 (initialState 0)).1 in
  Agent.label <$> knownAgents st1 !! sid = Some (js "Agent Smith")
  /\ placeholderLabel (take 8 sid) = js "Agent s1"
  /\ Agent.label (getOrCreateAgent sid (hint (js "Bob")) 1 st1).2 = js "Bob"
  /\ ~ overwritesOnlyPlaceholder.
Proof.
  intros sid hint st1.
  split; [by vm_compute|]. split; [by vm_compute|]. split; [by vm_compute|].
  intros H.
  destruct (knownAgents st1 !! sid) as [existing|] eqn:Hk;
    [|by vm_compute in Hk].
  specialize (H sid (hint (js "Bob")) 1%Z st1 existing Hk).
  assert (He : existing
               = newAgent sid (hint (js "Agent Smith")) (js "#ff6b35") 0)
    by (vm_compute in Hk; by injection Hk as <-).
  subst existing.
  assert (Hne : Agent.label (getOrCreateAgent sid (hint (js "Bob")) 1 st1).2
                <> Agent.label
                     (newAgent sid (hint (js "Agent Smith")) (js "#ff6b35") 0))
    by (by vm_compute).
  apply H in Hne. by vm_compute in Hne.
Qed.

(** ** Role inference *)

(** The loop over the patterns ends on the first pattern of the highest
    count, unless no count exceeds the one it started with. *)
Lemma fold_scoreStep (joined : jsstring) (ps : list Pattern)
    (b : option jsstring) (c : nat) :
  let score := matchCount joined in
  let r := fold_left (scoreStep joined) ps (b, c) in
  (r = (b, c) /\ forall q, q ∈ ps -> score q <= c)
  \/ (exists i p, ps !! i = Some p
        /\ r = (Some (label p), score p)
        /\ c < score p
        /\ (forall q, q ∈ ps -> score q <= score p)
        /\ (forall j q, j < i -> ps !! j = Some q -> score q < score p)).
Proof.
  intros score. revert b c. induction ps as [|p ps IH]; intros b c; simpl.
  - left. split; [reflexivity|]. intros q Hq. by apply elem_of_nil in Hq.
  - assert (Hstep : scoreStep joined (b, c) p
                    = if c <? score p then (Some (label p), score p)
                      else (b, c)) by reflexivity.
    rewrite Hstep. clear Hstep.
    destruct (Nat.ltb_spec c (score p)) as [Hlt|Hge].
    + right.
      destruct (IH (Some (label p)) (score p))
        as [[Hr Hall]|(i & p' & Hi & Hr & Hlt' & Hall & Hbefore)].
      * exists 0, p. split_and!; try done.
        -- intros q [->|Hq]%elem_of_cons; [lia|by apply Hall].
        -- intros j q Hj. lia.
      * exists (S i), p'. split_and!; try done; try lia.
        -- intros q [->|Hq]%elem_of_cons; [lia|by apply Hall].
        -- intros [|j] q Hj Hq; simpl in Hq.
           ++ injection Hq as <-. lia.
           ++ apply (Hbefore j); [lia|done].
    + destruct (IH b c)
        as [[Hr Hall]|(i & p' & Hi & Hr & Hlt' & Hall & Hbefore)].
      * left. split; [done|].
        intros q [->|Hq]%elem_of_cons; [lia|by apply Hall].
      * right. exists (S i), p'. split_and!; try done.
        -- intros q [->|Hq]%elem_of_cons; [lia|by apply Hall].
        -- intros [|j] q Hj Hq; simpl in Hq.
           ++ injection Hq as <-. lia.
           ++ apply (Hbefore j); [lia|done].
Qed.

Lemma inferRoleFromFiles_spec (paths : list jsstring) :
  let score := matchCount (toLowerCase (join [10%N] paths)) in
  (inferRoleFromFiles paths = None
   /\ forall q, q ∈ patterns -> score q < 2)
  \/ (exists i p, patterns !! i = Some p
        /\ inferRoleFromFiles paths = Some (label p)
        /\ 2 <= score p
        /\ (forall q, q ∈ patterns -> score q <= score p)
        /\ (forall j q, j < i -> patterns !! j = Some q ->
              score q < score p)).
Proof.
  cbv zeta. unfold inferRoleFromFiles.
  destruct (fold_scoreStep (toLowerCase (join [10%N] paths)) patterns None 0)
    as [[-> Hall]|(i & p & Hi & -> & Hlt & Hall & Hbefore)].
  - left. split; [reflexivity|]. intros q Hq. specialize (Hall q Hq). lia.
  - set (score := matchCount (toLowerCase (join [10%N] paths))) in *.
    cbn [fst snd]. destruct (Nat.leb_spec 2 (score p)) as [H2|H2].
    + right. exists i, p. by split_and!.
    + left. split; [reflexivity|]. intros q Hq. specialize (Hall q Hq). lia.
Qed.

Lemma startsWith_length (a s : jsstring) :
  startsWith a s = true -> length a <= length s.
Proof.
  revert s. induction a as [|x a IH]; intros [|y s]; simpl; try done; [lia|].
  intros [_ H]%andb_true_iff. apply IH in H. lia.
Qed.

Lemma startsWith_before_newline (a u t : jsstring) :
  forallb (fun c => negb (c =? 10)%N) a = true ->
  startsWith a (u ++ 10%N :: t) = startsWith a u.
Proof.
  revert u. induction a as [|x a IH]; intros u Ha; [by destruct u|].
  simpl in Ha. apply andb_true_iff in Ha as [Hx Ha].
  destruct u as [|y u]; simpl.
  - apply negb_true_iff in Hx. by rewrite Hx.
  - by rewrite IH.
Qed.

Lemma matchAt_before_newline (alts : list jsstring) (u t : jsstring) :
  forallb plain alts = true ->
  matchAt alts (u ++ 10%N :: t) = matchAt alts u.
Proof.
  induction alts as [|a alts IH]; [done|]. simpl.
  intros [Ha Halts]%andb_true_iff.
  rewrite startsWith_before_newline, IH; [done|done|].
  by destruct a.
Qed.

Lemma matchAt_length (alts : list jsstring) (s : jsstring) (n : nat) :
  forallb plain alts = true ->
  matchAt alts s = Some n -> 1 <= n <= length s.
Proof.
  induction alts as [|a alts IH]; [done|]. simpl.
  intros [Ha Halts]%andb_true_iff.
  destruct (startsWith a s) eqn:E; [|by apply IH].
  intros [= <-]. apply startsWith_length in E.
  destruct a; [done|]. simpl in *. lia.
Qed.

(** A newline in the text ends every match: the count of a text is the
    sum of the counts on both sides of the newline. *)
Lemma countMatches_newline (alts : list jsstring) (k : nat) (u t : jsstring) :
  forallb plain alts = true ->
  k <= length u ->
  countMatches alts k (u ++ 10%N :: t)
  = countMatches alts k u + countMatches alts 0 t.
Proof.
  intros Halts. revert k. induction u as [|c u IH]; intros k Hk.
  - simpl in Hk. assert (k = 0) as -> by lia.
    cbn [app countMatches].
    pose proof (matchAt_before_newline alts [] t Halts) as H.
    cbn [app] in H. rewrite H.
    destruct (matchAt alts []) as [n|] eqn:E; [|reflexivity].
    apply matchAt_length in E; [|done]. simpl in E. lia.
  - cbn [app countMatches]. destruct k as [|k].
    + change (c :: u ++ 10%N :: t) with ((c :: u) ++ 10%N :: t).
      rewrite matchAt_before_newline by done.
      destruct (matchAt alts (c :: u)) as [n|] eqn:E.
      * apply matchAt_length in E; [|done]. simpl in E.
        rewrite IH by lia. reflexivity.
      * apply IH. lia.
    + apply IH. simpl in Hk. lia.
Qed.

Lemma countMatches_join (alts : list jsstring) (paths : list jsstring) :
  forallb plain alts = true ->
  countMatches alts 0 (join [10%N] paths)
  = sum_list (map (countMatches alts 0) paths).
Proof.
  intros Halts. induction paths as [|s r IH]; [reflexivity|].
  destruct r as [|s' r]; [simpl; lia|].
  change (join [10%N] (s :: s' :: r)) with (s ++ 10%N :: join [10%N] (s' :: r)).
  rewrite countMatches_newline by (done || lia).
  rewrite IH. reflexivity.
Qed.

Lemma toLowerCase_join (paths : list jsstring) :
  toLowerCase (join [10%N] paths) = join [10%N] (map toLowerCase paths).
Proof.
  induction paths as [|s r IH]; [reflexivity|].
  destruct r as [|s' r]; [reflexivity|].
  change (join [10%N] (s :: s' :: r)) with (s ++ 10%N :: join [10%N] (s' :: r)).
  unfold toLowerCase in *. rewrite flat_map_app. cbn [flat_map].
  change (lowerUnit 10%N) with [10%N]. rewrite IH. reflexivity.
Qed.

Lemma patterns_plain (p : Pattern) :
  p ∈ patterns -> forallb plain (re p) = true.
Proof.
  assert (H : forallb (fun p => forallb plain (re p)) patterns = true)
    by (by vm_compute).
  rewrite forallb_forall in H. intros Hp. apply H.
  by apply list_elem_of_In.
Qed.

(** The count of a pattern in the joined history is the sum of its counts
    in the paths, each in lower case. *)
Lemma matchCount_paths (paths : list jsstring) (p : Pattern) :
  p ∈ patterns ->
  matchCount (toLowerCase (join [10%N] paths)) p
  = sum_list (map (fun path => countMatches (re p) 0 (toLowerCase path))
                paths).
Proof.
  intros Hp. unfold matchCount.
  rewrite toLowerCase_join, countMatches_join by by apply patterns_plain.
  by rewrite map_map.
Qed.

Lemma lastN_length {A} (n : nat) (l : list A) :
  length (lastN n l) = n `min` length l.
Proof. unfold lastN. rewrite length_drop. lia. Qed.

(** C6 (amended): role inference.  [inferRoleFromFiles] returns the label
    of the pattern with the highest count of matches in the lower-cased
    history, the earliest such pattern of the list when several share that
    count, and nothing when that count is below 2; the count of a pattern
    is the sum of its counts in the paths.  Tracking a file path
    keeps at most the last 30 paths, separators normalised; the label it
    infers from them becomes the agent's label only when the agent has no
    task label and its label starts with ["Agent "], whether that label is
    the placeholder or not. *)
Theorem role_inference (paths : list jsstring) (f : jsstring) (a : Agent.t) :
  let score := matchCount (toLowerCase (join [10%N] paths)) in
  let pushed := default [] (Agent._filePaths a) ++ [normalizeSeparators f] in
  let history := if 30 <? length pushed then lastN 30 pushed else pushed in
  ((inferRoleFromFiles paths = None
    /\ forall q, q ∈ patterns -> score q < 2)
   \/ (exists i p, patterns !! i = Some p
         /\ inferRoleFromFiles paths = Some (label p)
         /\ 2 <= score p
         /\ (forall q, q ∈ patterns -> score q <= score p)
         /\ (forall j q, j < i -> patterns !! j = Some q ->
               score q < score p)))
  /\ (forall p, p ∈ patterns ->
        score p
        = sum_list (map (fun path => countMatches (re p) 0 (toLowerCase path))
                      paths))
  /\ Agent._filePaths (trackFile (Some f) a) = Some history
  /\ length history <= 30
  /\ Agent.label (trackFile (Some f) a)
     = match truthy (Agent._taskLabel a), inferRoleFromFiles history with
       | None, Some inferred =>
           if startsWith (js "Agent ") (Agent.label a) then inferred
           else Agent.label a
       | _, _ => Agent.label a
       end.
Proof.
  intros score pushed history.
  split; [apply inferRoleFromFiles_spec|].
  split; [intros p Hp; by apply matchCount_paths|].
  unfold trackFile. fold pushed. fold history.
  cbn [Agent._taskLabel Agent.set__filePaths Agent.label].
  split; [|split].
  - destruct (truthy (Agent._taskLabel a)); [done|].
    destruct (inferRoleFromFiles history); [|done].
    by destruct (startsWith _ _).
  - unfold history. destruct (Nat.ltb_spec 30 (length pushed)); [|done].
    rewrite lastN_length. lia.
  - destruct (truthy (Agent._taskLabel a)); [done|].
    destruct (inferRoleFromFiles history); [|done].
    by destruct (startsWith _ _).
Qed.

(** The two cases the specification gives: three paths that match the
    pattern of tests and one that matches the pattern of configuration
    files make "Tests"; a single match makes nothing. *)
Example inferRole_tests :
  inferRoleFromFiles
    (map js ["src/a.test.js"; "src/b.test.js"; "lib/c_test.py";
             "vite.config.ts"]%string)
  = Some (js "Tests").
Proof. by vm_compute. Qed.

Example inferRole_below_threshold :
  inferRoleFromFiles [js "src/a.test.js"] = None.
Proof. by vm_compute. Qed.

(** C6, as the specification words it, fails: a team member called
    "Agent Smith" is registered under that label, which is no placeholder;
    two reads of test files later the label is "Tests". *)
Lemma inferred_role_overrides_member_label :
  let sid := js "s1" in
  let smith :=
    Member.mk (Some (js "Agent Smith")) (Some sid) None None None None in
  let read f :=
    Evt.mk (Some sid) None None (Some (js "pre_tool")) None
      (Some (js "Read")) None
      (Some (ToolInput.mk (Some f) None None None None None None None None))
      None None None None None None in
  let env t := {| now := t; messageId := js "m"; recordId := js "r" |} in
  let st1 :=
    onTeamsChange (js "team/config.json")
      (Some {| members := Some [smith] |}) ∅ ∅ 0 (fun _ => [])
      (initialState 0) in
  let st2 := processEvent (read (js "src/a.test.js")) (env 1%Z) st1 in
  let st3 := processEvent (read (js "src/b.test.js")) (env 2%Z) st2 in
  Agent.label <$> knownAgents st2 !! sid = Some (js "Agent Smith")
  /\ Agent._taskLabel <$> knownAgents st2 !! sid = Some None
  /\ Agent.label <$> knownAgents st3 !! sid = Some (js "Tests")
  /\ ~ inferredOnlyOverPlaceholder.
Proof.
  intros sid smith read env st1 st2 st3.
  split; [by vm_compute|]. split; [by vm_compute|]. split; [by vm_compute|].
  intros H.
  destruct (knownAgents st2 !! sid) as [a|] eqn:Hk; [|by vm_compute in Hk].
  vm_compute in Hk. injection Hk as Ha.
  destruct (H (js "src/b.test.js") a) as [Hl _]; subst a.
  - by vm_compute.
  - by vm_compute in Hl.
Qed.

(** ** Counters *)

Lemma applyHints_counters (extra : Hints) (a : Agent.t) :
  Agent.tokens (applyHints extra a) = Agent.tokens a
  /\ Agent.toolCalls (applyHints extra a) = Agent.toolCalls a.
Proof. unfold applyHints. cases. Qed.






Lemma getOrCreateAgent_counters (sid : jsstring) (extra : Hints) (now : Z)
    (st : State) :
  Agent.tokens (getOrCreateAgent sid extra now st).2 = tokensBefore st sid
  /\ Agent.toolCalls (getOrCreateAgent sid extra now st).2
     = toolCallsBefore st sid.
Proof.
  unfold getOrCreateAgent, tokensBefore, toolCallsBefore.
  destruct (knownAgents st !! sid) as [a|]; cbn [snd]; [|done].
  apply applyHints_counters.
Qed.


Lemma quarter_nonneg (s : jsstring) : (0 <= quarter s)%Z.
Proof. unfold quarter. lia. Qed.

(** The estimate made from the lengths, when the event brings no count of
    its own. *)
Lemma estimateTokens_nonneg (evt : Evt.t) (input : ToolInput.t) :
  (forall t, Evt.tokens evt = Some t -> (0 <= t)%Z) ->
  (0 <= estimateTokens evt input)%Z.
Proof.
  intros H. unfold estimateTokens.
  assert (Hsum : (0 <= match Evt.tool_response evt with
                       | Some resp =>
                           match truthy (ToolResponse.file_content resp) with
                           | Some c => quarter c
                           | None =>
                               match truthy (ToolResponse.stdout resp) with
                               | Some o => quarter o
                               | None =>
                                   match ToolResponse.filenames resp with
                                   | Some names => quarter names
                                   | None => 0
                                   end
                               end
                           end
                       | None => 0
                       end
                       + match truthy (ToolInput.content input) with
                         | Some c => quarter c
                         | None => 0
                         end)%Z).
  { apply Z.add_nonneg_nonneg; cases; apply quarter_nonneg. }
  destruct (Evt.tokens evt) as [t|]; [|exact Hsum].
  destruct (t =? 0)%Z; [exact Hsum|]. by apply H.
Qed.

Lemma processEvent_others (evt : Evt.t) (env : Env) (st : State)
    (other : jsstring) :
  other <> sessionIdOf evt ->
  knownAgents (processEvent evt env st) !! other = knownAgents st !! other.
Proof.
  intros Hne. unfold processEvent.
  assert (H0 : knownAgents
                 (getOrCreateAgent (sessionIdOf evt) (hintsOf evt) (now env)
                    st).1 !! other = knownAgents st !! other).
  { unfold getOrCreateAgent.
    destruct (knownAgents st !! sessionIdOf evt); cbn [fst];
      simpl; by rewrite lookup_insert_ne. }
  destruct (getOrCreateAgent _ _ _ _) as [st0 agent0]. cbn [fst] in H0.
  destruct (delegateTask _ _ _ _ _ _ _) as [queue message0].
  assert (H2 : forall a,
             knownAgents
               (adoptPending (hookEventOf evt) (sessionIdOf evt) (now env) a
                  (set_pendingTasks queue st0)).1 = knownAgents st0).
  { intros a. unfold adoptPending. destruct (_ && _); [|done].
    by destruct (findPending _ _ _ _) as [[idx p]|]. }
  specialize (H2 (updateAgent evt (now env) agent0)).
  destruct (adoptPending _ _ _ _ _) as [st2 agent2]. cbn [fst] in H2.
  destruct (sendMessage _ _ _ _ _); simpl;
    by rewrite lookup_insert_ne, H2.
Qed.

(** ** Events without a session *)

Lemma adoptPending_registry (h sid : jsstring) (now : Z) (a : Agent.t)
    (st : State) :
  knownAgents (adoptPending h sid now a st).1 = knownAgents st
  /\ colorIndex (adoptPending h sid now a st).1 = colorIndex st.
Proof.
  unfold adoptPending. destruct (_ && _); [|done].
  by destruct (findPending _ _ _ _) as [[idx p]|].
Qed.

(** The registry after an event: the record of the event's agent, and the
    records there were. *)
Lemma processEvent_knownAgents (evt : Evt.t) (env : Env) (st : State) :
  knownAgents (processEvent evt env st)
  = <[sessionIdOf evt := agentAfter evt env st]> (knownAgents st).
Proof.
  unfold processEvent, agentAfter.
  assert (H0 : knownAgents
                 (getOrCreateAgent (sessionIdOf evt) (hintsOf evt) (now env)
                    st).1
               = <[sessionIdOf evt :=
                     (getOrCreateAgent (sessionIdOf evt) (hintsOf evt)
                        (now env) st).2]> (knownAgents st)).
  { unfold getOrCreateAgent. by destruct (knownAgents st !! sessionIdOf evt). }
  destruct (getOrCreateAgent _ _ _ _) as [st0 agent0]. cbn [fst snd] in H0.
  destruct (delegateTask _ _ _ _ _ _ _) as [queue message0]. cbn [fst].
  match goal with
  | |- context [adoptPending ?h ?i ?n ?a ?s] =>
      destruct (adoptPending_registry h i n a s) as [H2 _];
      destruct (adoptPending h i n a s) as [st2 agent2]
  end.
  cbn [fst snd] in *. simpl in H2.
  destruct (sendMessage _ _ _ _ _); simpl;
    by rewrite H2, H0, insert_insert_eq.
Qed.

Lemma processEvent_colorIndex (evt : Evt.t) (env : Env) (st : State) :
  colorIndex (processEvent evt env st)
  = match knownAgents st !! sessionIdOf evt with
    | Some _ => colorIndex st
    | None => S (colorIndex st)
    end.
Proof.
  unfold processEvent.
  assert (H0 : colorIndex
                 (getOrCreateAgent (sessionIdOf evt) (hintsOf evt) (now env)
                    st).1
               = match knownAgents st !! sessionIdOf evt with
                 | Some _ => colorIndex st
                 | None => S (colorIndex st)
                 end).
  { unfold getOrCreateAgent. by destruct (knownAgents st !! sessionIdOf evt). }
  destruct (getOrCreateAgent _ _ _ _) as [st0 agent0]. cbn [fst] in H0.
  destruct (delegateTask _ _ _ _ _ _ _) as [queue message0].
  match goal with
  | |- context [adoptPending ?h ?i ?n ?a ?s] =>
      destruct (adoptPending_registry h i n a s) as [_ H2];
      destruct (adoptPending h i n a s) as [st2 agent2]
  end.
  cbn [fst] in H2. simpl in H2.
  destruct (sendMessage _ _ _ _ _); simpl; by rewrite H2.
Qed.

Lemma applyHints_identity (extra : Hints) (a : Agent.t) :
  Agent.id (applyHints extra a) = Agent.id a
  /\ Agent.firstSeen (applyHints extra a) = Agent.firstSeen a
  /\ Agent.color (applyHints extra a) = Agent.color a.
Proof. unfold applyHints. cases. Qed.

Lemma updateAgent_identity (evt : Evt.t) (now : Z) (a : Agent.t) :
  Agent.id (updateAgent evt now a) = Agent.id a
  /\ Agent.firstSeen (updateAgent evt now a) = Agent.firstSeen a
  /\ Agent.color (updateAgent evt now a) = Agent.color a.
Proof.
  unfold updateAgent, trackFile, touch, describeActivity, resolveStatus.
  cases.
Qed.

Lemma adoptPending_identity (h sid : jsstring) (now : Z) (a : Agent.t)
    (st : State) :
  Agent.id (adoptPending h sid now a st).2 = Agent.id a
  /\ Agent.firstSeen (adoptPending h sid now a st).2 = Agent.firstSeen a
  /\ Agent.color (adoptPending h sid now a st).2 = Agent.color a.
Proof.
  unfold adoptPending. destruct (_ && _); [|done].
  by destruct (findPending _ _ _ _) as [[idx p]|].
Qed.

Lemma agentAfter_identity (evt : Evt.t) (env : Env) (st : State) :
  let agent0 :=
    (getOrCreateAgent (sessionIdOf evt) (hintsOf evt) (now env) st).2 in
  Agent.id (agentAfter evt env st) = Agent.id agent0
  /\ Agent.firstSeen (agentAfter evt env st) = Agent.firstSeen agent0
  /\ Agent.color (agentAfter evt env st) = Agent.color agent0.
Proof.
  intros agent0. subst agent0. unfold agentAfter.
  destruct (getOrCreateAgent _ _ _ _) as [st0 agent0]. cbn [snd].
  match goal with
  | |- context [adoptPending ?h ?i ?n ?a ?s] =>
      destruct (adoptPending_identity h i n a s) as (-> & -> & ->)
  end.
  apply updateAgent_identity.
Qed.


Lemma getOrCreateAgent_known (sid : jsstring) (extra : Hints) (now : Z)
    (st : State) (existing : Agent.t) :
  knownAgents st !! sid = Some existing ->
  (getOrCreateAgent sid extra now st).2 = applyHints extra existing.
Proof. intros H. unfold getOrCreateAgent. by rewrite H. Qed.


(** ** Inbox diffing *)

Lemma inboxUpdates_app (l1 l2 : list Push.t) :
  inboxUpdates (l1 ++ l2) = inboxUpdates l1 ++ inboxUpdates l2.
Proof. apply List.filter_app. Qed.

Lemma getOrCreateAgent_inboxUpdates (sid : jsstring) (extra : Hints)
    (now : Z) (st : State) :
  inboxUpdates (sent (getOrCreateAgent sid extra now st).1)
  = inboxUpdates (sent st).
Proof.
  unfold getOrCreateAgent. destruct (knownAgents st !! sid); [done|].
  cbn [fst]. simpl. rewrite inboxUpdates_app. simpl. apply app_nil_r.
Qed.

Lemma registerMember_inboxUpdates (team : jsstring) (now : Z) (st : State)
    (member : Member.t) :
  inboxUpdates (sent (registerMember team now st member))
  = inboxUpdates (sent st).
Proof.
  unfold registerMember.
  match goal with
  | |- context [getOrCreateAgent ?i ?e ?n ?s] =>
      pose proof (getOrCreateAgent_inboxUpdates i e n s) as F;
      destruct (getOrCreateAgent i e n s) as [st1 agent]
  end.
  exact F.
Qed.

Lemma registerMembers_inboxUpdates (team : jsstring) (now : Z)
    (l : list Member.t) (st : State) :
  inboxUpdates (sent (fold_left (registerMember team now) l st))
  = inboxUpdates (sent st).
Proof.
  revert st. induction l as [|m l IH]; intros st; simpl; [done|].
  rewrite IH. apply registerMember_inboxUpdates.
Qed.

Lemma materialize_inboxUpdates (team agentName : jsstring) (now : Z)
    (ids : nat -> jsstring) (i : nat) (l : list InboxMsg.t) (st : State) :
  inboxUpdates (sent (materialize team agentName now ids i l st))
  = inboxUpdates (sent st).
Proof.
  revert i st. induction l as [|msg l IH]; intros i st; simpl; [done|].
  rewrite IH. destruct (truthy (InboxMsg.from msg)); [|done].
  simpl. rewrite inboxUpdates_app. simpl. apply app_nil_r.
Qed.

(** What the handler broadcasts about an inbox: one update that carries
    the entries beyond the length of the snapshot before, when there are
    any. *)
Lemma onTeamsChange_inbox (filename team file : jsstring) (cfg : TeamConfig)
    (inboxes : gmap jsstring (list InboxMsg.t)) (tasks : gmap jsstring jsstring)
    (now : Z) (ids : nat -> jsstring) (st : State) :
  let parts := splitBy isSlash (normalizeSeparators filename) in
  parts !! 0 = Some team -> team <> [] ->
  parts !! 1 = Some (js "inboxes") ->
  parts !! 2 = Some file -> file <> [] ->
  let agentName := basenameJson file in
  let messages := default [] (inboxes !! agentName) in
  let prevMessages :=
    default []
      (teamsState st !! team ≫= fun t => Team.inboxes t !! agentName) in
  let newMessages := newInboxMessages prevMessages messages in
  inboxUpdates
    (sent (onTeamsChange filename (Some cfg) inboxes tasks now ids st))
  = inboxUpdates (sent st)
    ++ match newMessages with
       | [] => []
       | _ :: _ =>
           [Push.inbox_update team agentName newMessages (length messages)]
       end.
Proof.
  intros parts H0 Ht H1 H2 Hf agentName messages prevMessages newMessages.
  unfold onTeamsChange. fold parts. rewrite H0, H1, H2.
  destruct team as [|c team]; [done|]. destruct file as [|d file]; [done|].
  cbn [truthy]. fold agentName messages prevMessages newMessages.
  change (equalsLit (Some (js "inboxes")) "config.json") with false.
  change (equalsLit (Some (js "inboxes")) "inboxes") with true.
  cbn iota.
  match goal with
  | |- context [fold_left ?f ?l ?s] =>
      pose proof (registerMembers_inboxUpdates (c :: team) now l s) as F;
      set (st2 := fold_left f l s) in *
  end.
  simpl in F.
  destruct newMessages as [|m l] eqn:E; cbn [length Nat.ltb Nat.leb].
  - rewrite F. by rewrite app_nil_r.
  - rewrite materialize_inboxUpdates. simpl.
    rewrite inboxUpdates_app, F. reflexivity.
Qed.

(** C7: inbox diffing.  When the file of a member's inbox has changed and
    the inbox read again is the snapshot before ([k] entries) followed by
    [n] appended entries, [n] at least 1, the handler broadcasts one inbox
    update, whose new messages are the [n] appended entries, those at the
    positions [k] to [k + n - 1] of the inbox; when the inbox read again
    is no longer than the snapshot before, it broadcasts no inbox update. *)
Theorem inbox_diff (filename team file : jsstring) (cfg : TeamConfig)
    (inboxes : gmap jsstring (list InboxMsg.t)) (tasks : gmap jsstring jsstring)
    (now : Z) (ids : nat -> jsstring) (st : State)
    (prev messages : list InboxMsg.t) :
  let parts := splitBy isSlash (normalizeSeparators filename) in
  let agentName := basenameJson file in
  let st' := onTeamsChange filename (Some cfg) inboxes tasks now ids st in
  parts !! 0 = Some team -> team <> [] ->
  parts !! 1 = Some (js "inboxes") ->
  parts !! 2 = Some file -> file <> [] ->
  default [] (teamsState st !! team ≫= fun t => Team.inboxes t !! agentName)
  = prev ->
  default [] (inboxes !! agentName) = messages ->
  (forall appended,
      messages = prev ++ appended -> appended <> [] ->
      inboxUpdates (sent st')
      = inboxUpdates (sent st)
        ++ [Push.inbox_update team agentName appended
              (length prev + length appended)]
      /\ forall i, appended !! i = messages !! (length prev + i))
  /\ (length messages <= length prev ->
      inboxUpdates (sent st') = inboxUpdates (sent st)).
Proof.
  intros parts agentName st' H0 Ht H1 H2 Hf Hprev Hmsgs.
  pose proof (onTeamsChange_inbox filename team file cfg inboxes tasks now
                ids st H0 Ht H1 H2 Hf) as H.
  cbn zeta in H. fold agentName st' in H. rewrite Hprev, Hmsgs in H.
  unfold newInboxMessages in H. split.
  - intros appended -> Hne. rewrite drop_app_length in H.
    destruct appended as [|m l]; [done|]. split.
    + rewrite H, length_app. reflexivity.
    + intros i. by rewrite lookup_app_r, Nat.add_comm, Nat.add_sub by lia.
  - intros Hle. rewrite drop_ge in H by exact Hle.
    by rewrite app_nil_r in H.
Qed.

Lemma inbox_diff_witness :
  let m t := InboxMsg.mk (Some (js "alice")) t None false in
  let m1 := m (js "one") in
  let appended := [m (js "two"); m (js "three"); m (js "four")] in
  let cfg := {| members := None |} in
  let st :=
    set_teamsState
      {[ js "t" := Team.mk cfg {[ js "bob" := [m1] ]} ∅ ]} (initialState 0) in
  let st' :=
    onTeamsChange (js "t/inboxes/bob.json") (Some cfg)
      {[ js "bob" := m1 :: appended ]} ∅ 0 (fun _ => []) st in
  splitBy isSlash (normalizeSeparators (js "t/inboxes/bob.json"))
  = [js "t"; js "inboxes"; js "bob.json"]
  /\ basenameJson (js "bob.json") = js "bob"
  /\ inboxUpdates (sent st')
     = [Push.inbox_update (js "t") (js "bob") appended 4].
Proof.
  intros m m1 appended cfg st st'.
  split; [by vm_compute|]. split; [by vm_compute|].
  refine (proj1 (proj1 (inbox_diff (js "t/inboxes/bob.json") (js "t")
                   (js "bob.json") cfg {[ js "bob" := m1 :: appended ]} ∅ 0
                   (fun _ => []) st [m1] (m1 :: appended)
                   _ _ _ _ _ _ _) appended _ _)).
  all: by vm_compute.
Defined.

(** ** Tailing the events file *)

Lemma splitBy_nonempty {A} (isSep : A -> bool) (s : list A) :
  splitBy isSep s <> [].
Proof.
  destruct s as [|c s]; cbn [splitBy]; [done|].
  destruct (isSep c); [done|]. by destruct (splitBy isSep s).
Qed.





Lemma ingest_accepted parse envs (i : nat) (lines : list (list Byte.byte))
    (st : State) :
  ingest parse envs i lines st = processAll (accepted parse envs i lines) st.
Proof.
  revert i st. induction lines as [|line rest IH]; intros i st;
    [reflexivity|].
  cbn [ingest accepted]. rewrite IH. by destruct (parse line).
Qed.

Lemma processEvent_eventsFileSize (evt : Evt.t) (env : Env) (st : State) :
  eventsFileSize (processEvent evt env st) = eventsFileSize st.
Proof.
  unfold processEvent.
  pose proof (getOrCreateAgent_frame (sessionIdOf evt) (hintsOf evt)
                (now env) st) as (_ & _ & _ & _ & F).
  destruct (getOrCreateAgent _ _ _ _) as [st0 agent0]. cbn [fst] in F.
  destruct (delegateTask _ _ _ _ _ _ _) as [queue message0].
  assert (H2 : forall a,
             eventsFileSize
               (adoptPending (hookEventOf evt) (sessionIdOf evt) (now env) a
                  (set_pendingTasks queue st0)).1 = eventsFileSize st0).
  { intros a. unfold adoptPending. destruct (_ && _); [|done].
    by destruct (findPending _ _ _ _) as [[idx p]|]. }
  specialize (H2 (updateAgent evt (now env) agent0)).
  destruct (adoptPending _ _ _ _ _) as [st2 agent2]. cbn [fst] in H2.
  destruct (sendMessage _ _ _ _ _); simpl; by rewrite H2, F.
Qed.

Lemma processAll_eventsFileSize (events : list (Evt.t * Env)) (st : State) :
  eventsFileSize (processAll events st) = eventsFileSize st.
Proof.
  revert st. induction events as [|e events IH]; intros st; [reflexivity|].
  unfold processAll in *. simpl. rewrite IH.
  apply processEvent_eventsFileSize.
Qed.

(** ** The task matcher *)

(** [find] returns the first entry of the queue that qualifies: the one
    that has waited longest. *)
Lemma findPending_first (now : Z) (sid : jsstring)
    (queue : list PendingTask.t) (k idx : nat) (p : PendingTask.t) :
  findPending now sid queue k = Some (idx, p) ->
  exists i, idx = k + i
    /\ queue !! i = Some p
    /\ matchable now sid p = true
    /\ forall j q, j < i -> queue !! j = Some q ->
         matchable now sid q = false.
Proof.
  revert k. induction queue as [|t r IH]; intros k; simpl; [done|].
  destruct (matchable now sid t) eqn:Ht.
  - intros [= <- <-]. exists 0. split_and!; [lia|done|done|]. intros; lia.
  - intros H. destruct (IH _ H) as (i & -> & Hi & Hm & Hb).
    exists (S i). split_and!; [lia|done|done|].
    intros [|j] q Hj Hq; simpl in Hq; [by injection Hq as <-|].
    apply (Hb j); [lia|done].
Qed.

Lemma findPending_none (now : Z) (sid : jsstring)
    (queue : list PendingTask.t) (k : nat) :
  findPending now sid queue k = None <->
  forall q, q ∈ queue -> matchable now sid q = false.
Proof.
  revert k. induction queue as [|t r IH]; intros k; simpl.
  - split; [|done]. intros _ q Hq. by apply elem_of_nil in Hq.
  - destruct (matchable now sid t) eqn:Ht.
    + split; [done|]. intros H. rewrite H in Ht; [done|apply list_elem_of_here].
    + rewrite IH. split.
      * intros H q [->|Hq]%elem_of_cons; [done|by apply H].
      * intros H q Hq. apply H. by apply list_elem_of_further.
Qed.

(** What a session start does with the queue: nothing when no entry
    qualifies; otherwise the first entry that qualifies names the agent,
    leaves the queue, has its message readdressed, and [agent_join] is
    broadcast once more. *)
Lemma adoptPending_spec (h sid : jsstring) (now : Z) (a : Agent.t)
    (st : State) :
  isSessionStart h = true ->
  ((forall q, q ∈ pendingTasks st -> matchable now sid q = false)
   /\ adoptPending h sid now a st = (st, a))
  \/ (exists i p,
        pendingTasks st !! i = Some p
        /\ matchable now sid p = true
        /\ (forall j q, j < i -> pendingTasks st !! j = Some q ->
              matchable now sid q = false)
        /\ let a' := Agent.set_label (PendingTask.label p)
                       (Agent.set__taskLabel (Some (PendingTask.label p)) a) in
           adoptPending h sid now a st
           = (broadcast (Push.agent_join a')
                (set_pendingTasks (removeAt i (pendingTasks st))
                   (set_recentMessages
                      (retarget p sid (recentMessages st)) st)),
              a')).
Proof.
  intros Hh. unfold adoptPending. rewrite Hh. cbn [andb].
  destruct (findPending now sid (pendingTasks st) 0) as [[idx p]|] eqn:E.
  - apply findPending_first in E as (i & -> & Hi & Hm & Hb). right.
    exists i, p. split_and!; try done.
    destruct (pendingTasks st); [done|]. reflexivity.
  - left. split; [exact (proj1 (findPending_none _ _ _ _) E)|].
    by destruct (0 <? _).
Qed.

(** The defect behind C2: with two tasks delegated by the same agent one
    second apart, the session that starts one second later is given the
    older one, "Write the parser", and the newer one, "Write the tests",
    stays in the queue, although it is the most recent entry that
    qualifies. *)
Theorem task_matcher_takes_oldest :
  let delegate desc :=
    Evt.mk (Some (js "A")) None None (Some (js "pre_tool")) None
      (Some (js "Task")) None
      (Some (ToolInput.mk None None None None (Some desc) None None None
               None))
      None None None None None None in
  let start :=
    Evt.mk (Some (js "B")) None None (Some (js "session_start")) None None
      None None None None None None None None in
  let env t := {| now := t; messageId := js "m"; recordId := js "r" |} in
  let st1 := processEvent (delegate (js "Write the parser")) (env 1000%Z)
               (initialState 0) in
  let st2 := processEvent (delegate (js "Write the tests")) (env 2000%Z) st1 in
  let st3 := processEvent start (env 3000%Z) st2 in
  map (fun t => (PendingTask.label t, PendingTask.timestamp t))
    (pendingTasks st2)
  = [(js "Write the parser", 1000%Z); (js "Write the tests", 2000%Z)]
  /\ Agent.label <$> knownAgents st3 !! js "B" = Some (js "Write the parser")
  /\ map (fun m => (Message.to m, Message.text m)) (recentMessages st3)
     = [(js "B", js "Write the parser"); (js "subagent", js "Write the tests")]
  /\ map PendingTask.label (pendingTasks st3) = [js "Write the tests"].
Proof. by vm_compute. Qed.

(** * Further properties of the handlers *)

(** ** Invariants of the registry *)

Lemma updateAgent_shortId (evt : Evt.t) (now : Z) (a : Agent.t) :
  Agent.shortId (updateAgent evt now a) = Agent.shortId a
  /\ Agent.cwd (updateAgent evt now a) = Agent.cwd a.
Proof.
  unfold updateAgent, trackFile, touch, describeActivity, resolveStatus.
  cases.
Qed.

Lemma adoptPending_shortId (h sid : jsstring) (now : Z) (a : Agent.t)
    (st : State) :
  Agent.shortId (adoptPending h sid now a st).2 = Agent.shortId a.
Proof.
  unfold adoptPending. destruct (_ && _); [|done].
  by destruct (findPending _ _ _ _) as [[idx p]|].
Qed.

Lemma applyHints_shortId (extra : Hints) (a : Agent.t) :
  Agent.shortId (applyHints extra a) = Agent.shortId a.
Proof. unfold applyHints. cases. Qed.

(** What [getOrCreateAgent] does to the registry, in one statement. *)
Lemma getOrCreateAgent_registry (sid : jsstring) (extra : Hints) (now : Z)
    (st : State) :
  let r := getOrCreateAgent sid extra now st in
  knownAgents r.1 = <[sid := r.2]> (knownAgents st)
  /\ match knownAgents st !! sid with
     | Some existing =>
         colorIndex r.1 = colorIndex st /\ r.2 = applyHints extra existing
     | None =>
         colorIndex r.1 = S (colorIndex st)
         /\ Agent.id r.2 = sid /\ Agent.shortId r.2 = take 8 sid
     end.
Proof.
  unfold getOrCreateAgent. by destruct (knownAgents st !! sid).
Qed.

(** Storing under [sid] a record with the id and short id of [sid], the
    colour index moving on exactly when the key is new, keeps the registry
    consistent. *)
Lemma registryOk_insert (st st' : State) (sid : jsstring) (a : Agent.t) :
  registryOk st ->
  knownAgents st' = <[sid := a]> (knownAgents st) ->
  colorIndex st' = match knownAgents st !! sid with
                   | Some _ => colorIndex st
                   | None => S (colorIndex st)
                   end ->
  Agent.id a = sid -> Agent.shortId a = take 8 sid ->
  registryOk st'.
Proof.
  intros [Hc Hk] Hm Hci Hid Hsh. split.
  - rewrite Hci, Hm. destruct (knownAgents st !! sid) as [b|] eqn:E.
    + rewrite Hc. symmetry. by eapply map_size_insert_Some.
    + rewrite Hc. symmetry. by apply map_size_insert_None.
  - intros k b. rewrite Hm, lookup_insert.
    case_decide as Hkk; [intros [= <-]; by subst|apply Hk].
Qed.

Lemma getOrCreateAgent_registryOk (sid : jsstring) (extra : Hints) (now : Z)
    (st : State) :
  registryOk st ->
  let r := getOrCreateAgent sid extra now st in
  registryOk r.1 /\ Agent.id r.2 = sid /\ Agent.shortId r.2 = take 8 sid.
Proof.
  intros Hok r.
  destruct (getOrCreateAgent_registry sid extra now st) as [Hm Hrest].
  fold r in Hm, Hrest.
  assert (Hids : Agent.id r.2 = sid /\ Agent.shortId r.2 = take 8 sid).
  { destruct (knownAgents st !! sid) as [existing|] eqn:E.
    - destruct Hrest as [_ ->].
      destruct (applyHints_identity extra existing) as (-> & _).
      rewrite applyHints_shortId. by apply Hok.
    - by destruct Hrest as (_ & ? & ?). }
  split; [|exact Hids]. destruct Hids as [Hid Hsh].
  apply (registryOk_insert st r.1 sid r.2 Hok Hm); [|done|done].
  destruct (knownAgents st !! sid); by destruct Hrest.
Qed.

Lemma processEvent_registryOk (evt : Evt.t) (env : Env) (st : State) :
  registryOk st -> registryOk (processEvent evt env st).
Proof.
  intros Hok.
  destruct (getOrCreateAgent_registryOk (sessionIdOf evt) (hintsOf evt)
              (now env) st Hok) as (_ & Hid & Hsh).
  apply (registryOk_insert st _ (sessionIdOf evt) (agentAfter evt env st) Hok).
  - apply processEvent_knownAgents.
  - apply processEvent_colorIndex.
  - destruct (agentAfter_identity evt env st) as (-> & _). exact Hid.
  - unfold agentAfter.
    destruct (getOrCreateAgent _ _ _ _) as [st0 agent0]. cbn [snd] in *.
    rewrite adoptPending_shortId.
    by destruct (updateAgent_shortId evt (now env) agent0) as [-> _].
Qed.

Lemma registerMember_step (team : jsstring) (now : Z) (st : State)
    (member : Member.t) :
  let i := memberAgentId team member in
  let r := getOrCreateAgent i
             {| hintLabel := Some (default i (truthy (Member.name member)));
                hintRole :=
                  Some (if equalsLit (Member.agentType member) "team-lead"
                        then js "lead" else js "worker");
                hintCwd := truthy (Member.cwd member) |} now st in
  exists a,
    registerMember team now st member
    = set_knownAgents (<[i := a]> (knownAgents r.1)) r.1
    /\ Agent.id a = Agent.id r.2
    /\ Agent.shortId a = Agent.shortId r.2
    /\ Agent.teamName a = Some team
    /\ Agent.teamAgentId a = Some i
    /\ Agent.agentType a = Member.agentType member
    /\ Agent.teamMemberName a
       = Some (default (default [] (head (splitBy isAt i)))
                 (truthy (Member.name member)))
    /\ Agent._taskLabel a = Agent._taskLabel r.2
    /\ Agent._filePaths a = Agent._filePaths r.2
    /\ Agent.tokens a = Agent.tokens r.2
    /\ Agent.toolCalls a = Agent.toolCalls r.2
    /\ Agent.status a = Agent.status r.2
    /\ Agent.label a
       = match truthy (Member.name member) with
         | Some n =>
             if startsWith (js "Agent ") (Agent.label r.2)
                || negb (bool_decide
                           (is_Some (truthy (Agent._taskLabel r.2))))
             then n else Agent.label r.2
         | None => Agent.label r.2
         end.
Proof.
  intros i r. unfold registerMember. fold (memberAgentId team member).
  fold i. fold r. destruct r as [st1 agent]. cbn [fst snd].
  eexists. split; [reflexivity|].
  destruct (truthy (Member.color member)), (truthy (Member.prompt member)),
    (truthy (Member.name member));
    cbn [Agent.label Agent.set_color Agent.set_spawnPrompt
           Agent.set_agentType Agent.set_teamMemberName
           Agent.set_teamAgentId Agent.set_teamName Agent._taskLabel];
    try destruct (_ || _); by split_and!.
Qed.

Lemma registerMember_registryOk (team : jsstring) (now : Z) (st : State)
    (member : Member.t) :
  registryOk st -> registryOk (registerMember team now st member).
Proof.
  intros Hok.
  destruct (registerMember_step team now st member)
    as (a & -> & Hid & Hsh & _).
  match goal with
  | |- context [getOrCreateAgent ?i ?e ?n ?s] =>
      destruct (getOrCreateAgent_registryOk i e n s Hok) as (Hok1 & Hi & Hs);
      destruct (getOrCreateAgent_registry i e n s) as [Hm _];
      set (r := getOrCreateAgent i e n s) in *
  end.
  eapply (registryOk_insert r.1 _ _ a Hok1); [reflexivity| |congruence..].
  cbn [colorIndex set_knownAgents]. rewrite Hm, lookup_insert_eq.
  reflexivity.
Qed.

Lemma materialize_registry (team agentName : jsstring) (now : Z)
    (ids : nat -> jsstring) (i : nat) (l : list InboxMsg.t) (st : State) :
  let st' := materialize team agentName now ids i l st in
  knownAgents st' = knownAgents st /\ colorIndex st' = colorIndex st
  /\ teamsState st' = teamsState st /\ pendingTasks st' = pendingTasks st
  /\ recentEvents st' = recentEvents st
  /\ eventsFileSize st' = eventsFileSize st.
Proof.
  revert i st. induction l as [|msg l IH]; intros i st; simpl; [done|].
  match goal with
  | |- context [materialize _ _ _ _ (S i) l ?s] =>
      destruct (IH (S i) s) as (-> & -> & -> & -> & -> & ->)
  end.
  by destruct (truthy (InboxMsg.from msg)).
Qed.

(** The induction over the states the server reaches, for a property of
    the registry alone. *)
Lemma reachable_registry_ind (P : State -> Prop) :
  (forall st st', knownAgents st = knownAgents st' ->
                  colorIndex st = colorIndex st' -> P st -> P st') ->
  (forall size, P (initialState size)) ->
  (forall evt env st, P st -> P (processEvent evt env st)) ->
  (forall team now st member, P st -> P (registerMember team now st member)) ->
  forall st, reachable st -> P st.
Proof.
  intros Hframe Hinit Hevt Hmem st Hr. induction Hr as
    [size|evt env st _ IH|parse envs ty file st _ IH
    |filename config inboxes tasks now ids st _ IH].
  - apply Hinit.
  - by apply Hevt.
  - unfold onEventsFileChange. destruct ty, file as [content|]; try done.
    assert (Hing : forall i lines s, P s -> P (ingest parse envs i lines s)).
    { intros i lines. revert i. induction lines as [|l lines IHl];
        intros i s Hs; simpl; [done|].
      apply IHl. destruct (parse l); [by apply Hevt|done]. }
    destruct (_ <=? _); [by eapply Hframe; [| |exact IH]|].
    apply Hing. by eapply Hframe; [| |exact IH].
  - unfold onTeamsChange.
    destruct (truthy _) as [team|]; [|done].
    destruct config as [cfg|]; [|done].
    assert (Hfold : forall l s, P s ->
                      P (fold_left (registerMember team now) l s)).
    { induction l as [|m l IHl]; intros s Hs; simpl; [done|].
      apply IHl. by apply Hmem. }
    match goal with
    | |- context [fold_left ?f ?l ?s] =>
        assert (H2 : P (fold_left f l s))
          by (apply Hfold; by eapply Hframe; [| |exact IH]);
        set (st2 := fold_left f l s) in *
    end.
    destruct (equalsLit _ "config.json");
      [by eapply Hframe; [| |exact H2]|].
    destruct (equalsLit _ "inboxes"); [|done].
    destruct (truthy _); [|done]. destruct (0 <? _); [|done].
    match goal with
    | |- P (materialize ?t ?a ?n ?d ?i ?l ?s) =>
        destruct (materialize_registry t a n d i l s) as (Hk & Hc & _)
    end.
    eapply Hframe; [symmetry; exact Hk|symmetry; exact Hc|].
    by eapply Hframe; [| |exact H2].
Qed.

(** X1: in every state the server reaches, each record of the registry is
    stored under its own id and carries the first 8 units of that id as
    its short id, and [colorIndex] is the number of records: an agent is
    created once per key and never removed. *)
Theorem registry_consistent (st : State) :
  reachable st ->
  colorIndex st = size (knownAgents st)
  /\ forall k a, knownAgents st !! k = Some a ->
       Agent.id a = k /\ Agent.shortId a = take 8 k.
Proof.
  revert st. apply (reachable_registry_ind registryOk).
  - intros st st' Hk Hc [H1 H2]. split; [by rewrite <- Hc, <- Hk|].
    intros k a. rewrite <- Hk. apply H2.
  - intros size. split; [reflexivity|]. intros k a H.
    cbn [initialState knownAgents] in H. by rewrite lookup_empty in H.
  - intros evt env st. apply processEvent_registryOk.
  - intros team now st member. apply registerMember_registryOk.
Qed.

Lemma registry_consistent_witness :
  let st :=
    processEvent Evt.empty {| now := 0; messageId := []; recordId := [] |}
      (initialState 0) in
  reachable st /\ colorIndex st = 1 /\ size (knownAgents st) = 1.
Proof.
  intros st.
  assert (Hr : reachable st) by (apply reach_event, reach_start).
  split; [exact Hr|].
  destruct (registry_consistent st Hr) as [Hc _].
  split; [by vm_compute|]. rewrite <- Hc. by vm_compute.
Defined.

(** ** The teams watcher and the registry *)

Lemma applyHints_taskLabel (extra : Hints) (a : Agent.t) :
  Agent._taskLabel (applyHints extra a) = Agent._taskLabel a
  /\ Agent._filePaths (applyHints extra a) = Agent._filePaths a.
Proof. unfold applyHints. cases. Qed.

Lemma registerMember_knownAgents (team : jsstring) (now : Z) (st : State)
    (member : Member.t) :
  let i := memberAgentId team member in
  exists a,
    knownAgents (registerMember team now st member)
    = <[i := a]> (knownAgents st)
    /\ Agent.teamName a = Some team
    /\ Agent.teamAgentId a = Some i.
Proof.
  intros i.
  destruct (registerMember_step team now st member)
    as (a & -> & _ & _ & Ht & Hi & _).
  exists a. split; [|done].
  match goal with
  | |- context [getOrCreateAgent ?i ?e ?n ?s] =>
      destruct (getOrCreateAgent_registry i e n s) as [Hm _]
  end.
  cbn [knownAgents set_knownAgents]. rewrite Hm. apply insert_insert_eq.
Qed.

(** After the loop over the members, each of them is a known agent that
    carries the name of the team and its own id as team id; the agents
    there were are still there. *)
Lemma registerMembers_tagged (team : jsstring) (now : Z)
    (l : list Member.t) (st : State) :
  let tagged s i :=
    exists a, knownAgents s !! i = Some a
      /\ Agent.teamName a = Some team /\ Agent.teamAgentId a = Some i in
  let st' := fold_left (registerMember team now) l st in
  dom (knownAgents st) ⊆ dom (knownAgents st')
  /\ (forall i, tagged st i -> tagged st' i)
  /\ (forall m, m ∈ l -> tagged st' (memberAgentId team m)).
Proof.
  intros tagged. revert st. induction l as [|m l IH]; intros st; simpl.
  - split; [done|]. split; [done|]. intros m' H. by apply elem_of_nil in H.
  - destruct (registerMember_knownAgents team now st m)
      as (a & Hk & Ht & Hi).
    set (st1 := registerMember team now st m) in *.
    destruct (IH st1) as (Hd & Hkeep & Hall).
    assert (Hstep : forall i, tagged st i -> tagged st1 i).
    { intros i (b & Hb & Hbt & Hbi). unfold tagged. rewrite Hk.
      destruct (decide (memberAgentId team m = i)) as [<-|Hne].
      - exists a. by rewrite lookup_insert_eq.
      - exists b. by rewrite lookup_insert_ne. }
    split; [|split].
    + etrans; [|exact Hd]. rewrite Hk, dom_insert_L.
      apply union_subseteq_r.
    + intros i Hi'. by apply Hkeep, Hstep.
    + intros m' [->|Hm']%elem_of_cons; [|by apply Hall].
      apply Hkeep. exists a. by rewrite Hk, lookup_insert_eq.
Qed.

(** X2: a re-read of a team whose [config.json] is readable replaces the
    snapshot of that team with what was read and leaves the other teams
    alone; afterwards every member of the configuration is a known agent
    that carries the team's name and its own id as team id, and no agent
    known before is gone. *)
Theorem team_reread (filename team : jsstring) (cfg : TeamConfig)
    (inboxes : gmap jsstring (list InboxMsg.t)) (tasks : gmap jsstring jsstring)
    (now : Z) (ids : nat -> jsstring) (st : State) :
  truthy (splitBy isSlash (normalizeSeparators filename) !! 0) = Some team ->
  let st' := onTeamsChange filename (Some cfg) inboxes tasks now ids st in
  teamsState st' = <[team := Team.mk cfg inboxes tasks]> (teamsState st)
  /\ dom (knownAgents st) ⊆ dom (knownAgents st')
  /\ forall m, m ∈ default [] (members cfg) ->
       exists a, knownAgents st' !! memberAgentId team m = Some a
         /\ Agent.teamName a = Some team
         /\ Agent.teamAgentId a = Some (memberAgentId team m).
Proof.
  intros Hteam st'. unfold st', onTeamsChange. rewrite Hteam.
  match goal with
  | |- context [fold_left ?f ?l ?s] =>
      destruct (registerMembers_tagged team now l s) as (Hd & _ & Hall);
      destruct (registerMembers_frame team now l s) as (_ & _ & _ & Hts & _);
      set (st2 := fold_left f l s) in *
  end.
  cbn [knownAgents set_teamsState teamsState] in Hd, Hts.
  assert (Hgoal : forall s,
             knownAgents s = knownAgents st2 ->
             teamsState s = teamsState st2 ->
             teamsState s = <[team := Team.mk cfg inboxes tasks]> (teamsState st)
             /\ dom (knownAgents st) ⊆ dom (knownAgents s)
             /\ forall m, m ∈ default [] (members cfg) ->
                  exists a, knownAgents s !! memberAgentId team m = Some a
                    /\ Agent.teamName a = Some team
                    /\ Agent.teamAgentId a = Some (memberAgentId team m)).
  { intros s -> ->. split; [exact Hts|]. split; [exact Hd|exact Hall]. }
  destruct (equalsLit _ "config.json"); [by apply Hgoal|].
  destruct (equalsLit _ "inboxes"); [|by apply Hgoal].
  destruct (truthy (_ !! 2)); [|by apply Hgoal].
  destruct (0 <? _); [|by apply Hgoal].
  match goal with
  | |- context [materialize ?t ?a ?n ?d ?i ?l ?s] =>
      destruct (materialize_registry t a n d i l s) as (Hk & _ & Ht & _)
  end.
  by apply Hgoal.
Qed.

Lemma team_reread_witness :
  let ada := Member.mk (Some (js "ada")) None None None None None in
  let cfg := {| members := Some [ada] |} in
  let st' :=
    onTeamsChange (js "crew/config.json") (Some cfg) ∅ ∅ 0 (fun _ => [])
      (initialState 0) in
  truthy (splitBy isSlash (normalizeSeparators (js "crew/config.json")) !! 0)
  = Some (js "crew")
  /\ memberAgentId (js "crew") ada = js "ada@crew"
  /\ exists a, knownAgents st' !! js "ada@crew" = Some a
       /\ Agent.teamName a = Some (js "crew").
Proof.
  intros ada cfg st'.
  assert (H : truthy (splitBy isSlash
                        (normalizeSeparators (js "crew/config.json")) !! 0)
              = Some (js "crew")) by (by vm_compute).
  split; [exact H|]. split; [by vm_compute|].
  destruct (team_reread (js "crew/config.json") (js "crew") cfg ∅ ∅ 0
              (fun _ => []) (initialState 0) H) as (_ & _ & Hall).
  destruct (Hall ada) as (a & Ha & Ht & _); [apply list_elem_of_here|].
  exists a. split; [exact Ha|exact Ht].
Defined.

Lemma truthy_name (o : option jsstring) (s : jsstring) :
  truthy o = Some s -> o = Some s /\ s <> [].
Proof. destruct o as [[|c r]|]; simpl; intros H; by simplify_eq. Qed.

Lemma applyHints_label (extra : Hints) (a : Agent.t) :
  Agent.label (applyHints extra a)
  = match truthy (hintLabel extra) with
    | Some l => if startsWith (js "Agent ") (Agent.label a) then l
                else Agent.label a
    | None => Agent.label a
    end.
Proof.
  unfold applyHints.
  destruct (truthy (hintLabel extra)) as [l|],
           (truthy (hintRole extra)) as [r|];
    try destruct (startsWith _ _);
    cbn [Agent.role Agent.set_label];
    try destruct (_ === _); reflexivity.
Qed.

(** X3: what a team re-read does to the label of an agent it knows
    already, when the member has a name: the name becomes the label,
    unless the agent has a task label and its label does not start with
    ["Agent "], in which case the label stays.  A label that role
    inference or a model hint gave is replaced; the task label, the file
    history and the counters are never touched. *)
Theorem registerMember_label (team : jsstring) (now : Z) (st : State)
    (member : Member.t) (existing : Agent.t) (name : jsstring) :
  knownAgents st !! memberAgentId team member = Some existing ->
  truthy (Member.name member) = Some name ->
  exists a,
    knownAgents (registerMember team now st member)
      !! memberAgentId team member = Some a
    /\ Agent.label a
       = (if startsWith (js "Agent ") (Agent.label existing)
             || negb (bool_decide
                        (is_Some (truthy (Agent._taskLabel existing))))
          then name else Agent.label existing)
    /\ Agent._taskLabel a = Agent._taskLabel existing
    /\ Agent._filePaths a = Agent._filePaths existing
    /\ Agent.tokens a = Agent.tokens existing
    /\ Agent.toolCalls a = Agent.toolCalls existing
    /\ Agent.status a = Agent.status existing.
Proof.
  intros Hk Hn.
  destruct (registerMember_step team now st member)
    as (a & -> & _ & _ & _ & _ & _ & _ & Htl & Hfp & Htok & Htc & Hst & Hl).
  exists a. cbn [knownAgents set_knownAgents].
  split; [apply lookup_insert_eq|].
  match type of Hl with
  | context [getOrCreateAgent ?i ?e ?n ?s] =>
      rewrite (getOrCreateAgent_known i e n s existing Hk)
        in Htl, Hfp, Htok, Htc, Hst, Hl;
      destruct (applyHints_taskLabel e existing) as [Et Ef];
      destruct (applyHints_counters e existing) as [Etok Etc];
      destruct (applyHints_status e existing) as [Es _];
      assert (Hlabel : Agent.label (applyHints e existing)
                       = if startsWith (js "Agent ") (Agent.label existing)
                         then name else Agent.label existing);
      [|set (h := applyHints e existing) in *]
  end.
  { rewrite applyHints_label. cbn [hintLabel]. rewrite Hn.
    apply truthy_name in Hn as [_ Hne].
    by destruct name as [|c name]. }
  rewrite Htl, Hfp, Htok, Htc, Hst, Et, Ef, Etok, Etc, Es.
  split; [|done]. rewrite Hl, Hn, Et, Hlabel.
  destruct (startsWith (js "Agent ") (Agent.label existing)) eqn:E.
  - cbn [orb]. by destruct (startsWith _ name || _).
  - cbn [orb]. rewrite E. reflexivity.
Qed.

Lemma registerMember_label_witness :
  let ada := Member.mk (Some (js "ada")) None None None None None in
  let st :=
    (getOrCreateAgent (js "ada@crew")
       {| hintLabel := Some (js "Tests"); hintRole := None;
          hintCwd := None |} 0 (initialState 0)).1 in
  memberAgentId (js "crew") ada = js "ada@crew"
  /\ Agent.label <$> knownAgents st !! js "ada@crew" = Some (js "Tests")
  /\ exists a,
       knownAgents (registerMember (js "crew") 1 st ada) !! js "ada@crew"
       = Some a
       /\ Agent.label a = js "ada".
Proof.
  intros ada st. split; [by vm_compute|]. split; [by vm_compute|].
  destruct (knownAgents st !! memberAgentId (js "crew") ada)
    as [existing|] eqn:Hk; [|by vm_compute in Hk].
  destruct (registerMember_label (js "crew") 1 st ada existing (js "ada") Hk
              eq_refl) as (a & Ha & Hl & _).
  exists a. split; [exact Ha|]. rewrite Hl.
  vm_compute in Hk. injection Hk as <-. by vm_compute.
Defined.

(** ** Registering twice *)

Lemma applyHints_eq (extra : Hints) (a : Agent.t) :
  applyHints extra a
  = Agent.set_role
      (match truthy (hintRole extra) with
       | Some r => if Agent.role a === js "worker" then r else Agent.role a
       | None => Agent.role a
       end)
      (Agent.set_label
         (match truthy (hintLabel extra) with
          | Some l => if startsWith (js "Agent ") (Agent.label a) then l
                      else Agent.label a
          | None => Agent.label a
          end) a).
Proof.
  unfold applyHints.
  destruct (truthy (hintLabel extra)) as [l|],
           (truthy (hintRole extra)) as [r|];
    try destruct (startsWith _ _);
    cbn [Agent.role Agent.set_label];
    try destruct (_ === _);
    by rewrite ?set_label_same, ?set_role_same.
Qed.

Lemma applyHints_again (extra : Hints) (a : Agent.t) :
  applyHints extra (applyHints extra a) = applyHints extra a.
Proof.
  assert (HL : forall cur,
             match truthy (hintLabel extra) with
             | Some l =>
                 if startsWith (js "Agent ")
                      (match truthy (hintLabel extra) with
                       | Some l => if startsWith (js "Agent ") cur then l
                                   else cur
                       | None => cur
                       end)
                 then l
                 else match truthy (hintLabel extra) with
                      | Some l => if startsWith (js "Agent ") cur then l
                                  else cur
                      | None => cur
                      end
             | None => match truthy (hintLabel extra) with
                       | Some l => if startsWith (js "Agent ") cur then l
                                   else cur
                       | None => cur
                       end
             end
             = match truthy (hintLabel extra) with
               | Some l => if startsWith (js "Agent ") cur then l else cur
               | None => cur
               end).
  { intros cur. destruct (truthy (hintLabel extra)) as [l|]; [|done].
    destruct (startsWith (js "Agent ") cur) eqn:E;
      [by destruct (startsWith _ l)|by rewrite E]. }
  assert (HR : forall cur,
             match truthy (hintRole extra) with
             | Some r =>
                 if (match truthy (hintRole extra) with
                     | Some r => if cur === js "worker" then r else cur
                     | None => cur
                     end) === js "worker"
                 then r
                 else match truthy (hintRole extra) with
                      | Some r => if cur === js "worker" then r else cur
                      | None => cur
                      end
             | None => match truthy (hintRole extra) with
                       | Some r => if cur === js "worker" then r else cur
                       | None => cur
                       end
             end
             = match truthy (hintRole extra) with
               | Some r => if cur === js "worker" then r else cur
               | None => cur
               end).
  { intros cur. destruct (truthy (hintRole extra)) as [r|]; [|done].
    destruct (cur === js "worker") eqn:E;
      [by destruct (r === _)|by rewrite E]. }
  rewrite (applyHints_eq extra (applyHints extra a)).
  rewrite !(applyHints_eq extra a).
  cbn [Agent.role Agent.label Agent.set_label Agent.set_role].
  rewrite HL, HR. by destruct a.
Qed.

Lemma applyHints_newAgent (sid : jsstring) (extra : Hints) (color : jsstring)
    (now : Z) :
  applyHints extra (newAgent sid extra color now)
  = newAgent sid extra color now.
Proof.
  rewrite applyHints_eq. unfold newAgent.
  cbn [Agent.role Agent.label Agent.set_label Agent.set_role].
  destruct (truthy (hintLabel extra)) as [l|],
           (truthy (hintRole extra)) as [r|];
    cbn [default from_option id];
    try destruct (startsWith _ _); try destruct (_ === _); reflexivity.
Qed.

(** X4: registering an id a second time with the same hints changes
    nothing: the state and the record returned are those of the first
    call, and nothing is broadcast again. *)
Theorem getOrCreateAgent_again (sid : jsstring) (extra : Hints) (now now' : Z)
    (st : State) :
  let r := getOrCreateAgent sid extra now st in
  getOrCreateAgent sid extra now' r.1 = r.
Proof.
  intros r.
  assert (Hk : knownAgents r.1 !! sid = Some r.2).
  { destruct (getOrCreateAgent_registry sid extra now st) as [Hm _].
    fold r in Hm. rewrite Hm. apply lookup_insert_eq. }
  assert (Ha : applyHints extra r.2 = r.2).
  { unfold r, getOrCreateAgent.
    destruct (knownAgents st !! sid); cbn [snd];
      [apply applyHints_again|apply applyHints_newAgent]. }
  unfold getOrCreateAgent at 1. rewrite Hk, Ha.
  destruct r as [st1 a]. cbn [fst snd] in *. f_equal.
  destruct st1. unfold set_knownAgents.
  cbn [knownAgents colorIndex recentEvents recentMessages pendingTasks
         teamsState eventsFileSize sent] in *.
  f_equal. by apply insert_id.
Qed.

(** ** What one event leaves behind *)

Lemma delegateTask_eq (evt : Evt.t) (env : Env) (agent : Agent.t)
    (queue : list PendingTask.t) :
  delegateTask (hookEventOf evt) (toolNameOf evt) (toolInputOf evt)
    (sessionIdOf evt) agent env queue
  = match taskDescOf evt with
    | Some taskDesc =>
        (queue ++ [pendingOf evt env (Agent.cwd agent) taskDesc],
         Some (delegationMessage evt env taskDesc))
    | None => (queue, None)
    end.
Proof.
  unfold delegateTask, taskDescOf. destruct (_ && _); [|done].
  by destruct (firstTruthy _).
Qed.

Lemma applyHints_cwd (extra : Hints) (a : Agent.t) :
  Agent.cwd (applyHints extra a) = Agent.cwd a.
Proof. unfold applyHints. cases. Qed.

Lemma getOrCreateAgent_cwd (sid : jsstring) (extra : Hints) (now : Z)
    (st : State) :
  Agent.cwd (getOrCreateAgent sid extra now st).2
  = match knownAgents st !! sid with
    | Some a => Agent.cwd a
    | None => truthy (hintCwd extra)
    end.
Proof.
  unfold getOrCreateAgent. destruct (knownAgents st !! sid); cbn [snd];
    [apply applyHints_cwd|reflexivity].
Qed.

Lemma getOrCreateAgent_sent (sid : jsstring) (extra : Hints) (now : Z)
    (st : State) :
  let r := getOrCreateAgent sid extra now st in
  sent r.1 = sent st ++ match knownAgents st !! sid with
                        | Some _ => []
                        | None => [Push.agent_join r.2]
                        end.
Proof.
  unfold getOrCreateAgent. destruct (knownAgents st !! sid); cbn [fst snd];
    [by rewrite app_nil_r|reflexivity].
Qed.

(** Everything an event changes, field by field. *)
Lemma processEvent_fields (evt : Evt.t) (env : Env) (st : State) :
  let sid := sessionIdOf evt in
  let st' := processEvent evt env st in
  let after := agentAfter evt env st in
  let queue := queuedBy evt env st in
  let adopted := adoptedBy evt env st in
  let kept :=
    match adopted with
    | Some (_, p) => retarget p sid (recentMessages st)
    | None => recentMessages st
    end in
  pendingTasks st'
  = match adopted with
    | Some (idx, _) => removeAt idx queue
    | None => queue
    end
  /\ recentMessages st'
     = match messageOf evt env with
       | Some m => ringPush MAX_MESSAGES kept m
       | None => kept
       end
  /\ recentEvents st'
     = ringPush MAX_EVENTS (recentEvents st) (recordOf evt env after)
  /\ sent st'
     = sent st
       ++ match knownAgents st !! sid with
          | Some _ => []
          | None =>
              [Push.agent_join
                 (getOrCreateAgent sid (hintsOf evt) (now env) st).2]
          end
       ++ match adopted with
          | Some _ => [Push.agent_join after]
          | None => []
          end
       ++ [Push.event (recordOf evt env after) after]
       ++ match messageOf evt env with
          | Some m => [Push.message m]
          | None => []
          end
  /\ teamsState st' = teamsState st
  /\ eventsFileSize st' = eventsFileSize st
  /\ Agent.label after
     = match adopted with
       | Some (_, p) => PendingTask.label p
       | None =>
           Agent.label
             (updateAgent evt (now env)
                (getOrCreateAgent sid (hintsOf evt) (now env) st).2)
       end
  /\ Agent._taskLabel after
     = match adopted with
       | Some (_, p) => Some (PendingTask.label p)
       | None =>
           Agent._taskLabel
             (updateAgent evt (now env)
                (getOrCreateAgent sid (hintsOf evt) (now env) st).2)
       end.
Proof.
  intros sid st' after queue adopted kept.
  subst st' after queue adopted kept. unfold processEvent, agentAfter,
    adoptedBy, queuedBy, messageOf, recordOf.
  fold sid.
  pose proof (getOrCreateAgent_frame sid (hintsOf evt) (now env) st)
    as (Fe & Fm & Fp & Ft & Ff).
  pose proof (getOrCreateAgent_sent sid (hintsOf evt) (now env) st) as Fs.
  pose proof (getOrCreateAgent_cwd sid (hintsOf evt) (now env) st) as Fc.
  destruct (getOrCreateAgent sid (hintsOf evt) (now env) st)
    as [st0 agent0]. cbn [fst snd] in *.
  rewrite !delegateTask_eq.
  destruct (updateAgent_shortId evt (now env) agent0) as [_ ->].
  rewrite Fc, Fp.
  set (q := match taskDescOf evt with
            | Some taskDesc => pendingTasks st ++ [_]
            | None => pendingTasks st
            end).
  assert (Hq : (match taskDescOf evt with
                | Some taskDesc =>
                    (pendingTasks st
                     ++ [pendingOf evt env
                           (match knownAgents st !! sid with
                            | Some a => Agent.cwd a
                            | None => truthy (hintCwd (hintsOf evt))
                            end) taskDesc],
                     Some (delegationMessage evt env taskDesc))
                | None => (pendingTasks st, None)
                end)
               = (q, delegationMessage evt env <$> taskDescOf evt))
    by (unfold q; by destruct (taskDescOf evt)).
  rewrite Hq. cbn [fst snd]. clear Hq.
  unfold adoptPending.
  cbn [pendingTasks set_pendingTasks recentMessages].
  destruct (isSessionStart (hookEventOf evt) && (0 <? length q));
    [destruct (findPending (now env) sid q 0) as [[idx p]|]|];
    cbn [fst snd];
    destruct (sendMessage _ _ _ _ _) as [m|];
    cbn [pendingTasks recentMessages recentEvents sent teamsState
           eventsFileSize broadcast set_pendingTasks set_recentMessages
           set_recentEvents set_knownAgents Agent.label Agent._taskLabel
           Agent.set_label Agent.set__taskLabel];
    rewrite ?Fe, ?Fm, ?Ft, ?Ff, ?Fs;
    destruct (knownAgents st !! sid);
    rewrite <- ?app_assoc; cbn [app]; by split_and!.
Qed.

Lemma ringPush_last {A} (cap : nat) (buf : list A) (x : A) :
  0 < cap -> last (ringPush cap buf x) = Some x.
Proof.
  intros Hc. unfold ringPush.
  destruct (cap <? length (buf ++ [x])) eqn:E; [|apply last_snoc].
  destruct buf as [|b buf]; simpl in *.
  - apply Nat.ltb_lt in E. lia.
  - rewrite drop_0. apply last_snoc.
Qed.

(** X5: the broadcasts of one event, in their order: an [agent_join] if
    the agent is new, an [agent_join] if a session start adopted a pending
    task, then exactly one [event], then the [message] if the event made
    one.  The agent carried by the [event] broadcast is the record stored
    in the registry, and its event record is the newest of
    [recentEvents]. *)
Theorem event_broadcasts (evt : Evt.t) (env : Env) (st : State) :
  let sid := sessionIdOf evt in
  let st' := processEvent evt env st in
  let after := agentAfter evt env st in
  let record := recordOf evt env after in
  knownAgents st' !! sid = Some after
  /\ last (recentEvents st') = Some record
  /\ sent st'
     = sent st
       ++ match knownAgents st !! sid with
          | Some _ => []
          | None =>
              [Push.agent_join
                 (getOrCreateAgent sid (hintsOf evt) (now env) st).2]
          end
       ++ match adoptedBy evt env st with
          | Some _ => [Push.agent_join after]
          | None => []
          end
       ++ [Push.event record after]
       ++ match messageOf evt env with
          | Some m => [Push.message m]
          | None => []
          end.
Proof.
  intros sid st' after record.
  destruct (processEvent_fields evt env st) as (_ & _ & He & Hs & _).
  split; [apply processEvent_agent|]. split; [|exact Hs].
  unfold st'. rewrite He. apply ringPush_last. unfold MAX_EVENTS. lia.
Qed.

(** ** The queue of pending tasks *)

Lemma streq_false_iff (a b : jsstring) : (a === b) = false <-> a <> b.
Proof. unfold streq. apply bool_decide_eq_false. Qed.

Lemma sessionStart_not_preTool (h : jsstring) :
  isSessionStart h = true -> isPreTool h = false.
Proof.
  unfold isSessionStart, isPreTool.
  intros [H|H]%orb_true_iff; apply streq_true in H; by subst.
Qed.

Lemma taskDescOf_sessionStart (evt : Evt.t) :
  isSessionStart (hookEventOf evt) = true -> taskDescOf evt = None.
Proof.
  intros H%sessionStart_not_preTool. unfold taskDescOf.
  by rewrite H, andb_false_r.
Qed.

Lemma elem_of_removeAt {A} (l : list A) (idx : nat) (x y : A) :
  l !! idx = Some y -> x ∈ l -> x <> y -> x ∈ removeAt idx l.
Proof.
  intros Hy Hx Hne. unfold removeAt.
  apply list_elem_of_lookup in Hx as [j Hj].
  destruct (decide (j < idx)) as [Hlt|Hge].
  - apply elem_of_app. left. apply list_elem_of_lookup. exists j.
    by rewrite lookup_take_lt.
  - assert (j <> idx) by (intros ->; congruence).
    apply elem_of_app. right. apply list_elem_of_lookup.
    exists (j - S idx). rewrite lookup_drop.
    by replace (S idx + (j - S idx)) with j by lia.
Qed.

Lemma removeAt_length {A} (l : list A) (idx : nat) :
  length l <= S (length (removeAt idx l)).
Proof.
  unfold removeAt. rewrite length_app, length_take, length_drop. lia.
Qed.

(** X6: nothing expires in the queue of pending tasks.  An event that is
    no session start leaves the queue as it was, with the task it
    delegates added at the end; a session start removes one entry at
    most; and an entry that is 15 seconds old or more, or that the
    starting session queued itself, is never the one removed. *)
Theorem pending_queue (evt : Evt.t) (env : Env) (st : State) :
  let st' := processEvent evt env st in
  (isSessionStart (hookEventOf evt) = false ->
   pendingTasks st' = queuedBy evt env st
   /\ pendingTasks st `prefix_of` pendingTasks st')
  /\ (isSessionStart (hookEventOf evt) = true ->
      pendingTasks st' = pendingTasks st
      \/ exists idx, pendingTasks st' = removeAt idx (pendingTasks st))
  /\ length (pendingTasks st) <= S (length (pendingTasks st'))
  /\ (forall q, q ∈ pendingTasks st ->
        (15000 <= now env - PendingTask.timestamp q)%Z
        \/ PendingTask.from q = sessionIdOf evt ->
        q ∈ pendingTasks st').
Proof.
  intros st'.
  destruct (processEvent_fields evt env st) as (Hp & _).
  fold st' in Hp.
  assert (Hpre : pendingTasks st `prefix_of` queuedBy evt env st).
  { unfold queuedBy. destruct (taskDescOf evt); [by eexists|done]. }
  split; [|split; [|split]].
  - intros Hs. unfold adoptedBy in Hp. rewrite Hs in Hp. cbn [andb] in Hp.
    by rewrite Hp.
  - intros Hs.
    assert (Hq : queuedBy evt env st = pendingTasks st)
      by (unfold queuedBy; by rewrite (taskDescOf_sessionStart evt Hs)).
    rewrite Hq in Hp. destruct (adoptedBy evt env st) as [[idx p]|];
      [right; by exists idx|by left].
  - rewrite Hp. destruct (adoptedBy evt env st) as [[idx p]|].
    + etrans; [|apply removeAt_length]. by apply prefix_length.
    + etrans; [by apply prefix_length|lia].
  - intros q Hq Hold.
    assert (Hin : q ∈ queuedBy evt env st).
    { destruct Hpre as [k ->]. apply elem_of_app. by left. }
    rewrite Hp. unfold adoptedBy.
    destruct (_ && _); [|done].
    destruct (findPending _ _ _ _) as [[idx p]|] eqn:E; [|done].
    apply findPending_first in E as (i & -> & Hi & Hm & _).
    apply (elem_of_removeAt _ _ _ p Hi Hin). intros ->.
    unfold matchable in Hm. apply andb_true_iff in Hm as [Hage Hfrom].
    apply Z.ltb_lt in Hage. apply negb_true_iff, streq_false_iff in Hfrom.
    destruct Hold; [lia|done].
Qed.

(** ** Messages *)

(** X7: the message of an event.  An event that names the tool
    [SendMessage] with a recipient makes a message to that recipient,
    whatever the kind of the event (a send logged before and after the
    tool makes two), with the text ["message"] when the input has none;
    any other event makes the message of its delegation, if it delegates,
    and none otherwise.  A message made is the newest of
    [recentMessages] and the last broadcast; without one the buffer keeps
    its length, and its content unless a pending task was adopted. *)
Theorem message_emission (evt : Evt.t) (env : Env) (st : State) :
  let st' := processEvent evt env st in
  (forall target,
      equalsLit (toolNameOf evt) "SendMessage" = true ->
      truthy (ToolInput.to (toolInputOf evt)) = Some target ->
      messageOf evt env
      = Some {| Message.id := messageId env;
                Message.from := sessionIdOf evt;
                Message.to := target;
                Message.text :=
                  default (js "message")
                    (firstTruthy [ToolInput.message (toolInputOf evt);
                                  ToolInput.content (toolInputOf evt)]);
                Message.timestamp := now env |})
  /\ (equalsLit (toolNameOf evt) "SendMessage" = false
      \/ truthy (ToolInput.to (toolInputOf evt)) = None ->
      messageOf evt env = delegationMessage evt env <$> taskDescOf evt)
  /\ (forall m, messageOf evt env = Some m ->
        last (recentMessages st') = Some m
        /\ last (sent st') = Some (Push.message m))
  /\ (messageOf evt env = None ->
      length (recentMessages st') = length (recentMessages st)
      /\ (adoptedBy evt env st = None ->
          recentMessages st' = recentMessages st)).
Proof.
  intros st'.
  destruct (processEvent_fields evt env st) as (_ & Hm & _ & Hs & _).
  fold st' in Hm, Hs. split; [|split; [|split]].
  - intros target Ht Hto. unfold messageOf, sendMessage. by rewrite Ht, Hto.
  - intros H. unfold messageOf, sendMessage.
    destruct (equalsLit _ "SendMessage"); [|done].
    destruct H as [H|H]; [done|by rewrite H].
  - intros m Hmsg. rewrite Hmsg in Hm, Hs. split.
    + rewrite Hm. apply ringPush_last. unfold MAX_MESSAGES. lia.
    + rewrite Hs, !app_assoc. apply last_snoc.
  - intros Hnone. rewrite Hnone in Hm. rewrite Hm.
    destruct (adoptedBy evt env st) as [[idx p]|];
      [by rewrite retarget_length|done].
Qed.

(** ** Labels *)

Lemma updateAgent_label (evt : Evt.t) (now : Z) (a : Agent.t) :
  Agent._taskLabel (updateAgent evt now a) = Agent._taskLabel a
  /\ (startsWith (js "Agent ") (Agent.label a) = false ->
      Agent.label (updateAgent evt now a) = Agent.label a)
  /\ (forall l, truthy (Agent._taskLabel a) = Some l ->
      Agent.label (updateAgent evt now a) = Agent.label a).
Proof.
  unfold updateAgent. cbn [Agent._taskLabel Agent.label Agent.set_tokens].
  set (a3 := touch _ _ _ _).
  assert (H3 : Agent._taskLabel a3 = Agent._taskLabel a
               /\ Agent.label a3 = Agent.label a).
  { unfold a3, touch, describeActivity, resolveStatus. cases. }
  destruct H3 as [Ht Hl]. unfold trackFile.
  destruct (filePathOf evt) as [f|]; [|by rewrite Ht, Hl].
  cbn [Agent._taskLabel Agent.label Agent.set__filePaths].
  rewrite Ht, Hl. split; [|split].
  - destruct (truthy (Agent._taskLabel a)); [done|].
    destruct (inferRoleFromFiles _); [|done].
    by destruct (startsWith _ _).
  - intros Hsw. destruct (truthy (Agent._taskLabel a)); [by rewrite ?Hl|].
    destruct (inferRoleFromFiles _); [|by rewrite ?Hl].
    rewrite Hsw. by rewrite ?Hl.
  - intros l Hl'. rewrite Hl'. by rewrite ?Hl.
Qed.

(** X8: a label that does not start with ["Agent "] is stable.  For an
    agent known under such a label, an event changes the label only when
    it is a session start that adopts a pending task, and then to the
    label of that task; neither a model hint nor role inference touches
    it.  The task label changes on an adoption and never else. *)
Theorem label_stable (evt : Evt.t) (env : Env) (st : State)
    (existing : Agent.t) :
  knownAgents st !! sessionIdOf evt = Some existing ->
  startsWith (js "Agent ") (Agent.label existing) = false ->
  let after := agentAfter evt env st in
  Agent.label after
  = match adoptedBy evt env st with
    | Some (_, p) => PendingTask.label p
    | None => Agent.label existing
    end
  /\ Agent._taskLabel after
     = match adoptedBy evt env st with
       | Some (_, p) => Some (PendingTask.label p)
       | None => Agent._taskLabel existing
       end.
Proof.
  intros Hk Hsw after.
  destruct (processEvent_fields evt env st)
    as (_ & _ & _ & _ & _ & _ & Hl & Ht).
  fold after in Hl, Ht. rewrite Hl, Ht.
  rewrite (getOrCreateAgent_known _ _ _ _ _ Hk).
  destruct (updateAgent_label evt (now env) (applyHints (hintsOf evt) existing))
    as (Etl & El & _).
  destruct (applyHints_taskLabel (hintsOf evt) existing) as [Et _].
  assert (Hh : Agent.label (applyHints (hintsOf evt) existing)
               = Agent.label existing).
  { rewrite applyHints_label. rewrite Hsw. by destruct (truthy _). }
  rewrite Etl, Et, El, Hh by (by rewrite Hh).
  by destruct (adoptedBy evt env st) as [[idx p]|].
Qed.

Lemma label_stable_witness :
  let sid := js "s1" in
  let st :=
    (getOrCreateAgent sid
       {| hintLabel := Some (js "Refactor API"); hintRole := None;
          hintCwd := None |} 0 (initialState 0)).1 in
  let evt :=
    Evt.mk (Some sid) None None (Some (js "pre_tool")) None
      (Some (js "Read")) None
      (Some (ToolInput.mk (Some (js "a.test.js")) None None None None None
               None None None))
      None None (Some (js "claude-opus-4")) None None None in
  let env := {| now := 5; messageId := []; recordId := [] |} in
  Agent.label <$> knownAgents st !! sid = Some (js "Refactor API")
  /\ Agent.label (agentAfter evt env st) = js "Refactor API".
Proof.
  intros sid st evt env. split; [by vm_compute|].
  destruct (knownAgents st !! sessionIdOf evt) as [existing|] eqn:Hk;
    [|by vm_compute in Hk].
  assert (He : existing
               = newAgent sid
                   {| hintLabel := Some (js "Refactor API");
                      hintRole := None; hintCwd := None |}
                   (js "#ff6b35") 0)
    by (vm_compute in Hk; by injection Hk as <-).
  destruct (label_stable evt env st existing Hk) as [Hl _];
    [subst existing; by vm_compute|].
  rewrite Hl. subst existing. by vm_compute.
Defined.

(** ** A delegation and the session it starts *)

Lemma findPending_snoc (now : Z) (sid : jsstring) (l : list PendingTask.t)
    (e : PendingTask.t) (k : nat) :
  (forall q, q ∈ l -> matchable now sid q = false) ->
  matchable now sid e = true ->
  findPending now sid (l ++ [e]) k = Some (k + length l, e).
Proof.
  revert k. induction l as [|t l IH]; intros k Hl He; simpl.
  - rewrite He. f_equal. f_equal. lia.
  - rewrite (Hl t) by apply list_elem_of_here.
    rewrite IH; [f_equal; f_equal; lia| |done].
    intros q Hq. apply Hl. by apply list_elem_of_further.
Qed.

Lemma removeAt_snoc {A} (l : list A) (x : A) :
  removeAt (length l) (l ++ [x]) = l.
Proof.
  unfold removeAt. rewrite take_app_length.
  rewrite drop_ge by (rewrite length_app; simpl; lia). apply app_nil_r.
Qed.

Lemma retarget_snoc (p : PendingTask.t) (sid : jsstring)
    (l : list Message.t) (m : Message.t) :
  (forall x, x ∈ l -> Message.to x <> js "subagent") ->
  Message.from m = PendingTask.from p ->
  Message.to m = js "subagent" ->
  Message.text m = PendingTask.label p ->
  retarget p sid (l ++ [m]) = l ++ [Message.set_to sid m].
Proof.
  intros Hl Hf Ht Hx. induction l as [|y l IH]; simpl.
  - rewrite Hf, Ht, Hx. unfold streq. by rewrite !bool_decide_eq_true_2.
  - assert (Hy : (Message.to y === js "subagent") = false).
    { apply streq_false_iff, Hl, list_elem_of_here. }
    rewrite Hy, andb_false_r. cbn [andb]. f_equal. apply IH.
    intros x Hx'. apply Hl. by apply list_elem_of_further.
Qed.

Lemma ringPush_snoc {A} (cap : nat) (buf : list A) (x : A) :
  0 < cap ->
  exists kept, ringPush cap buf x = kept ++ [x] /\ kept ⊆ buf.
Proof.
  intros Hc. unfold ringPush.
  destruct (cap <? length (buf ++ [x])) eqn:E; [|by exists buf].
  apply Nat.ltb_lt in E. rewrite length_app in E. simpl in E.
  destruct buf as [|b buf]; [simpl in E; lia|].
  exists buf. split; [reflexivity|].
  intros y Hy. by apply list_elem_of_further.
Qed.

Lemma ringPush_keeps_last {A} (cap : nat) (kept : list A) (y x : A) :
  1 < cap -> y ∈ ringPush cap (kept ++ [y]) x.
Proof.
  intros Hc. unfold ringPush.
  destruct (cap <? length ((kept ++ [y]) ++ [x])) eqn:E.
  - apply Nat.ltb_lt in E. rewrite !length_app in E. simpl in E.
    destruct kept as [|k kept]; [simpl in E; lia|].
    change (y ∈ (kept ++ [y]) ++ [x]). apply elem_of_app. left.
    apply elem_of_app. right. apply list_elem_of_here.
  - apply elem_of_app. left. apply elem_of_app. right.
    apply list_elem_of_here.
Qed.

Lemma taskDescOf_Some (evt : Evt.t) (desc : jsstring) :
  taskDescOf evt = Some desc ->
  isSessionStart (hookEventOf evt) = false
  /\ messageOf evt = fun env => Some (delegationMessage evt env desc).
Proof.
  intros H. split.
  - destruct (isSessionStart (hookEventOf evt)) eqn:E; [|done].
    apply taskDescOf_sessionStart in E. congruence.
  - unfold messageOf, sendMessage. rewrite H.
    unfold taskDescOf in H.
    destruct (equalsLit (toolNameOf evt) "Task") eqn:Et; [|done].
    assert (Hs : equalsLit (toolNameOf evt) "SendMessage" = false).
    { unfold equalsLit in *. destruct (toolNameOf evt) as [t|]; [|done].
      apply streq_true in Et as ->. done. }
    by rewrite Hs.
Qed.

(** X9: a delegation and the session it starts.  An agent delegates a
    task, and the next event, less than 15 seconds later, is the start of
    another session; no older entry of the queue qualifies for that
    session and no older message waits for a recipient.  Then the new
    agent is labelled with the summary of the task description, which is
    marked as its task label, the queue is what it was before the
    delegation, and the message of the delegation is in the buffer,
    addressed to the new agent. *)
Theorem delegation_then_start (task start : Evt.t) (env1 env2 : Env)
    (st : State) (desc : jsstring) :
  taskDescOf task = Some desc ->
  isSessionStart (hookEventOf start) = true ->
  sessionIdOf start <> sessionIdOf task ->
  (now env2 - now env1 < 15000)%Z ->
  (forall q, q ∈ pendingTasks st ->
     matchable (now env2) (sessionIdOf start) q = false) ->
  (forall m, m ∈ recentMessages st -> Message.to m <> js "subagent") ->
  let st1 := processEvent task env1 st in
  let st2 := processEvent start env2 st1 in
  let new := agentAfter start env2 st1 in
  knownAgents st2 !! sessionIdOf start = Some new
  /\ Agent.label new = summarizeTask desc
  /\ Agent._taskLabel new = Some (summarizeTask desc)
  /\ pendingTasks st2 = pendingTasks st
  /\ Message.set_to (sessionIdOf start) (delegationMessage task env1 desc)
     ∈ recentMessages st2.
Proof.
  intros Hdesc Hstart Hne Hage Hold Hmsgs st1 st2 new.
  destruct (taskDescOf_Some task desc Hdesc) as [Hns Hmo].
  destruct (processEvent_fields task env1 st) as (Hp1 & Hm1 & _).
  fold st1 in Hp1, Hm1.
  assert (Ha1 : adoptedBy task env1 st = None)
    by (unfold adoptedBy; by rewrite Hns).
  rewrite Ha1 in Hp1, Hm1. rewrite Hmo in Hm1.
  unfold queuedBy in Hp1. rewrite Hdesc in Hp1.
  set (entry := pendingOf task env1 _ desc) in Hp1.
  set (m := delegationMessage task env1 desc) in *.
  destruct (processEvent_fields start env2 st1)
    as (Hp2 & Hm2 & _ & _ & _ & _ & Hl & Ht).
  fold st2 new in Hp2, Hm2, Hl, Ht.
  assert (Hq : queuedBy start env2 st1 = pendingTasks st ++ [entry])
    by (unfold queuedBy; by rewrite (taskDescOf_sessionStart start Hstart)).
  assert (Ha2 : adoptedBy start env2 st1
                = Some (length (pendingTasks st), entry)).
  { unfold adoptedBy. rewrite Hq, Hstart, length_app. simpl.
    replace (0 <? length (pendingTasks st) + 1) with true
      by (symmetry; apply Nat.ltb_lt; lia).
    cbn [andb]. rewrite findPending_snoc; [done|done|].
    unfold matchable, entry, pendingOf. cbn [PendingTask.timestamp
      PendingTask.from]. apply andb_true_iff. split.
    - apply Z.ltb_lt. lia.
    - apply negb_true_iff, streq_false_iff. congruence. }
  rewrite Ha2 in Hp2, Hm2, Hl, Ht. rewrite Hq in Hp2.
  split; [apply processEvent_agent|]. split; [exact Hl|].
  split; [exact Ht|]. split; [by rewrite Hp2, removeAt_snoc|].
  destruct (ringPush_snoc MAX_MESSAGES (recentMessages st) m)
    as (kept & Hk & Hsub); [unfold MAX_MESSAGES; lia|].
  rewrite Hm1, Hk in Hm2.
  rewrite retarget_snoc in Hm2; try reflexivity;
    [|intros x Hx; by apply Hmsgs, Hsub].
  rewrite Hm2. destruct (messageOf start env2) as [m2|].
  - apply ringPush_keeps_last. unfold MAX_MESSAGES. lia.
  - apply elem_of_app. right. apply list_elem_of_here.
Qed.

Lemma delegation_then_start_witness :
  let task :=
    Evt.mk (Some (js "s1")) None None (Some (js "pre_tool")) None
      (Some (js "Task")) None
      (Some (ToolInput.mk None None None None
               (Some (js "Refactor the API layer to use async handlers"))
               None None None None))
      None None None None None None in
  let start :=
    Evt.mk (Some (js "s2")) None None (Some (js "session_start")) None None
      None None None None None None None None in
  let env t := {| now := t; messageId := js "m"; recordId := js "r" |} in
  let st2 :=
    processEvent start (env 2000%Z)
      (processEvent task (env 1000%Z) (initialState 0)) in
  Agent.label (agentAfter start (env 2000%Z)
                 (processEvent task (env 1000%Z) (initialState 0)))
  = summarizeTask (js "Refactor the API layer to use async handlers")
  /\ pendingTasks st2 = []
  /\ map Message.to (recentMessages st2) = [js "s2"].
Proof.
  intros task start env st2.
  destruct (delegation_then_start task start (env 1000%Z) (env 2000%Z)
              (initialState 0)
              (js "Refactor the API layer to use async handlers"))
    as (_ & Hl & _ & Hp & _).
  - by vm_compute.
  - by vm_compute.
  - by vm_compute.
  - by vm_compute.
  - intros q Hq. by apply elem_of_nil in Hq.
  - intros m Hm. by apply elem_of_nil in Hm.
  - split; [exact Hl|]. split; [exact Hp|]. by vm_compute.
Defined.

(** ** Role inference and the order of the history *)

Lemma fold_scoreStep_ext (j1 j2 : jsstring) (ps : list Pattern)
    (acc : option jsstring * nat) :
  (forall p, p ∈ ps -> matchCount j1 p = matchCount j2 p) ->
  fold_left (scoreStep j1) ps acc = fold_left (scoreStep j2) ps acc.
Proof.
  revert acc. induction ps as [|p ps IH]; intros acc H; [reflexivity|].
  cbn [fold_left]. unfold scoreStep at 2 4.
  rewrite (H p) by apply list_elem_of_here.
  apply IH. intros q Hq. apply H. by apply list_elem_of_further.
Qed.

Lemma sum_list_Permutation (l1 l2 : list nat) :
  l1 ≡ₚ l2 -> sum_list l1 = sum_list l2.
Proof. induction 1; simpl; lia. Qed.

(** X10: role inference looks at the history as a collection of paths in
    lower case.  Two histories that hold the same paths up to their order
    and to the case of their letters get the same role; so the order in
    which an agent touched its files does not matter, and neither does a
    path given once in upper and once in lower case. *)
Theorem inferRole_order_and_case (paths paths' : list jsstring) :
  map toLowerCase paths ≡ₚ map toLowerCase paths' ->
  inferRoleFromFiles paths = inferRoleFromFiles paths'.
Proof.
  intros Hperm. unfold inferRoleFromFiles.
  rewrite (fold_scoreStep_ext (toLowerCase (join [10%N] paths))
             (toLowerCase (join [10%N] paths'))); [reflexivity|].
  intros p Hp. rewrite !matchCount_paths by done.
  rewrite <- !(map_map toLowerCase (countMatches (re p) 0)).
  apply sum_list_Permutation. by apply Permutation_map.
Qed.

Lemma inferRole_order_and_case_witness :
  inferRoleFromFiles (map js ["SRC/A.Test.js"; "lib/x.py"; "b_test.py"]%string)
  = inferRoleFromFiles
      (map js ["b_test.py"; "src/a.test.js"; "lib/x.py"]%string)
  /\ inferRoleFromFiles
       (map js ["b_test.py"; "src/a.test.js"; "lib/x.py"]%string)
     = Some (js "Tests").
Proof.
  split; [|by vm_compute].
  apply inferRole_order_and_case.
  change (map toLowerCase (map js ["SRC/A.Test.js"; "lib/x.py"; "b_test.py"]%string))
    with (map js ["src/a.test.js"; "lib/x.py"; "b_test.py"]%string).
  change (map toLowerCase (map js ["b_test.py"; "src/a.test.js"; "lib/x.py"]%string))
    with (map js ["b_test.py"; "src/a.test.js"; "lib/x.py"]%string).
  etrans; [apply Permutation_swap|]. simpl.
  etrans; [|apply perm_skip, Permutation_swap]. etrans; [|apply Permutation_swap].
  apply perm_skip. apply Permutation_swap.
Defined.

(** ** Tailing the events file in steps *)

Lemma splitBy_app_sep {A} (isSep : A -> bool) (a b : list A) (sep : A) :
  isSep sep = true ->
  splitBy isSep (a ++ sep :: b) = splitBy isSep a ++ splitBy isSep b.
Proof.
  intros Hsep. induction a as [|c a IH]; cbn [app splitBy].
  - by rewrite Hsep.
  - rewrite IH. destruct (isSep c); [reflexivity|].
    pose proof (splitBy_nonempty isSep a) as Hne.
    by destruct (splitBy isSep a).
Qed.

Lemma linesOf_app (a b : list Byte.byte) :
  linesOf ((a ++ [Byte.x0a]) ++ b) = linesOf (a ++ [Byte.x0a]) ++ linesOf b.
Proof.
  unfold linesOf. rewrite <- app_assoc. cbn [app].
  rewrite !splitBy_app_sep by reflexivity.
  rewrite !filter_app. cbn [splitBy].
  assert (E : filter (fun l : list Byte.byte => l <> []) [[]] = [])
    by reflexivity.
  by rewrite E, app_nil_r.
Qed.

Lemma ingest_shift parse envs envs2 (k i : nat) (lines : list (list Byte.byte))
    (st : State) :
  (forall j, envs2 (k + j) = envs (i + j)) ->
  ingest parse envs2 k lines st = ingest parse envs i lines st.
Proof.
  revert k i st. induction lines as [|l lines IH]; intros k i st H;
    [reflexivity|].
  cbn [ingest]. pose proof (H 0) as H0. rewrite !Nat.add_0_r in H0.
  rewrite H0. apply IH. intros j.
  replace (S k + j) with (k + S j) by lia.
  replace (S i + j) with (i + S j) by lia. apply H.
Qed.

Lemma ingest_app parse envs envs2 (i : nat) (l1 l2 : list (list Byte.byte))
    (st : State) :
  (forall j, envs2 j = envs (i + length l1 + j)) ->
  ingest parse envs i (l1 ++ l2) st
  = ingest parse envs2 0 l2 (ingest parse envs i l1 st).
Proof.
  revert i st. induction l1 as [|l l1 IH]; intros i st H; cbn [app ingest].
  - symmetry. apply ingest_shift. intros j. rewrite H. cbn [length].
    f_equal. lia.
  - apply IH. intros j. rewrite H. cbn [length]. f_equal. lia.
Qed.

Lemma processEvent_set_eventsFileSize (evt : Evt.t) (env : Env) (n : nat)
    (st : State) :
  processEvent evt env (set_eventsFileSize n st)
  = set_eventsFileSize n (processEvent evt env st).
Proof.
  destruct st as [agents ci events messages queue teams size log].
  unfold processEvent, getOrCreateAgent, set_eventsFileSize.
  cbn [knownAgents colorIndex recentEvents recentMessages pendingTasks
       teamsState eventsFileSize sent].
  destruct (agents !! sessionIdOf evt) as [existing|];
    unfold broadcast, set_knownAgents, set_colorIndex;
    cbn [knownAgents colorIndex recentEvents recentMessages pendingTasks
         teamsState eventsFileSize sent];
    destruct (delegateTask _ _ _ _ _ _ _) as [queue' message0];
    unfold adoptPending, set_pendingTasks, set_recentMessages, broadcast;
    cbn [knownAgents colorIndex recentEvents recentMessages pendingTasks
         teamsState eventsFileSize sent];
    destruct (_ && _);
    try destruct (findPending _ _ _ _) as [[idx p]|];
    destruct (sendMessage _ _ _ _ _); reflexivity.
Qed.

Lemma ingest_set_eventsFileSize parse envs (i n : nat)
    (lines : list (list Byte.byte)) (st : State) :
  ingest parse envs i lines (set_eventsFileSize n st)
  = set_eventsFileSize n (ingest parse envs i lines st).
Proof.
  revert i st. induction lines as [|l lines IH]; intros i st; [reflexivity|].
  cbn [ingest]. destruct (parse l); [|apply IH].
  rewrite processEvent_set_eventsFileSize. apply IH.
Qed.

Lemma onEventsFileChange_grown parse envs (content : list Byte.byte)
    (st : State) :
  eventsFileSize st < length content ->
  onEventsFileChange parse envs change (Some content) st
  = set_eventsFileSize (length content)
      (ingest parse envs 0 (linesOf (drop (eventsFileSize st) content)) st).
Proof.
  intros H. unfold onEventsFileChange.
  destruct (Nat.leb_spec (length content) (eventsFileSize st)); [lia|].
  apply ingest_set_eventsFileSize.
Qed.

Lemma onEventsFileChange_same parse envs (content : list Byte.byte)
    (st : State) :
  length content <= eventsFileSize st ->
  onEventsFileChange parse envs change (Some content) st
  = set_eventsFileSize (length content) st.
Proof.
  intros H. unfold onEventsFileChange.
  destruct (Nat.leb_spec (length content) (eventsFileSize st)); [done|lia].
Qed.

(** ** What the buffers, the queue and the registry refer to *)

Lemma elem_of_ringPush {A} (cap : nat) (buf : list A) (x y : A) :
  y ∈ ringPush cap buf x -> y ∈ buf \/ y = x.
Proof.
  unfold ringPush. intros H.
  assert (H' : y ∈ buf ++ [x]).
  { destruct (_ <? _); [|done]. by apply (subseteq_drop 1). }
  apply elem_of_app in H' as [H'|H']; [by left|right].
  by apply list_elem_of_singleton in H'.
Qed.

Lemma removeAt_subseteq {A} (idx : nat) (l : list A) : removeAt idx l ⊆ l.
Proof.
  intros x. unfold removeAt. intros [H|H]%elem_of_app.
  - by apply (subseteq_take idx).
  - by apply (subseteq_drop (S idx)).
Qed.

Lemma materialize_sent (team agentName : jsstring) (now : Z)
    (ids : nat -> jsstring) (i : nat) (l : list InboxMsg.t) (st : State) :
  exists more,
    sent (materialize team agentName now ids i l st) = sent st ++ more.
Proof.
  revert i st. induction l as [|msg l IH]; intros i st; simpl.
  - exists []. by rewrite app_nil_r.
  - match goal with
    | |- context [materialize _ _ _ _ (S i) l ?s] =>
        destruct (IH (S i) s) as [more ->]
    end.
    destruct (truthy (InboxMsg.from msg)); [|by exists more].
    eexists. cbn [sent broadcast set_recentMessages].
    by rewrite <- app_assoc.
Qed.

Lemma registerMember_sent (team : jsstring) (now : Z) (st : State)
    (member : Member.t) :
  let i := memberAgentId team member in
  sent (registerMember team now st member)
  = sent st
    ++ match knownAgents st !! i with
       | Some _ => []
       | None =>
           [Push.agent_join
              (newAgent i
                 {| hintLabel :=
                      Some (default i (truthy (Member.name member)));
                    hintRole :=
                      Some (if equalsLit (Member.agentType member) "team-lead"
                            then js "lead" else js "worker");
                    hintCwd := truthy (Member.cwd member) |}
                 (nth (colorIndex st mod length PALETTE) PALETTE []) now)]
       end.
Proof.
  intros i.
  destruct (registerMember_step team now st member) as (a & -> & _).
  fold i. cbn [sent set_knownAgents].
  unfold getOrCreateAgent. destruct (knownAgents st !! i); cbn [fst sent];
    [by rewrite app_nil_r|reflexivity].
Qed.

(** The induction over the states the server reaches, for a property of
    the registry, the events buffer, the queue and the broadcasts. *)
Lemma reachable_steps_ind (P : State -> Prop) :
  (forall st st',
     knownAgents st' = knownAgents st ->
     recentEvents st' = recentEvents st ->
     pendingTasks st' = pendingTasks st ->
     (exists more, sent st' = sent st ++ more) ->
     P st -> P st') ->
  (forall size, P (initialState size)) ->
  (forall evt env st, P st -> P (processEvent evt env st)) ->
  (forall team now st member, P st -> P (registerMember team now st member)) ->
  forall st, reachable st -> P st.
Proof.
  intros Hframe Hinit Hevt Hmem st Hr.
  assert (Hsame : forall s s' : State,
             knownAgents s' = knownAgents s ->
             recentEvents s' = recentEvents s ->
             pendingTasks s' = pendingTasks s ->
             sent s' = sent s -> P s -> P s').
  { intros s s' H1 H2 H3 H4. apply Hframe; try done.
    exists []. by rewrite app_nil_r. }
  induction Hr as
    [size|evt env st _ IH|parse envs ty file st _ IH
    |filename config inboxes tasks now ids st _ IH].
  - apply Hinit.
  - by apply Hevt.
  - unfold onEventsFileChange. destruct ty, file as [content|]; try done.
    assert (Hing : forall i lines s, P s -> P (ingest parse envs i lines s)).
    { intros i lines. revert i. induction lines as [|l lines IHl];
        intros i s Hs; simpl; [done|].
      apply IHl. destruct (parse l); [by apply Hevt|done]. }
    destruct (_ <=? _); [by eapply Hsame; [| | | |exact IH]|].
    apply Hing. by eapply Hsame; [| | | |exact IH].
  - unfold onTeamsChange.
    destruct (truthy _) as [team|]; [|done].
    destruct config as [cfg|]; [|done].
    assert (Hfold : forall l s, P s ->
                      P (fold_left (registerMember team now) l s)).
    { induction l as [|m l IHl]; intros s Hs; simpl; [done|].
      apply IHl. by apply Hmem. }
    match goal with
    | |- context [fold_left ?f ?l ?s] =>
        assert (H2 : P (fold_left f l s))
          by (apply Hfold; by eapply Hsame; [| | | |exact IH]);
        set (st2 := fold_left f l s) in *
    end.
    destruct (equalsLit _ "config.json").
    { eapply Hframe; [| | | |exact H2]; try done. by eexists. }
    destruct (equalsLit _ "inboxes"); [|done].
    destruct (truthy _); [|done]. destruct (0 <? _); [|done].
    match goal with
    | |- P (materialize ?t ?a ?n ?d ?i ?l ?s) =>
        destruct (materialize_registry t a n d i l s)
          as (Hk & _ & _ & Hp & He & _);
        destruct (materialize_sent t a n d i l s) as [more Hs]
    end.
    apply (Hframe st2); [exact Hk|exact He|exact Hp| |exact H2].
    eexists. rewrite Hs. cbn [sent broadcast]. by rewrite <- app_assoc.
Qed.

Lemma announced_mono (st st' : State) (k : jsstring) (more : list Push.t) :
  sent st' = sent st ++ more -> announced st k -> announced st' k.
Proof.
  intros Hs (a & Ha & Hid). exists a. split; [|done].
  rewrite Hs. apply elem_of_app. by left.
Qed.

Lemma processEvent_wellReferenced (evt : Evt.t) (env : Env) (st : State) :
  wellReferenced st -> wellReferenced (processEvent evt env st).
Proof.
  intros (He & Hp & Ha).
  destruct (processEvent_fields evt env st) as (Fp & _ & Fe & Fs & _).
  pose proof (processEvent_knownAgents evt env st) as Fk.
  set (st' := processEvent evt env st) in *.
  assert (Hkeep : forall k, is_Some (knownAgents st !! k) ->
                    is_Some (knownAgents st' !! k)).
  { intros k Hk. rewrite Fk.
    destruct (decide (sessionIdOf evt = k)) as [<-|Hne];
      [by rewrite lookup_insert_eq|by rewrite lookup_insert_ne]. }
  assert (Hsid : is_Some (knownAgents st' !! sessionIdOf evt))
    by (by rewrite Fk, lookup_insert_eq).
  split; [|split].
  - intros r Hr. rewrite Fe in Hr.
    apply elem_of_ringPush in Hr as [Hr| ->]; [by apply Hkeep, He|done].
  - intros p Hq. rewrite Fp in Hq.
    assert (Hin : p ∈ queuedBy evt env st).
    { destruct (adoptedBy evt env st) as [[idx q]|]; [|done].
      by apply (removeAt_subseteq idx). }
    unfold queuedBy in Hin. destruct (taskDescOf evt); [|by apply Hkeep, Hp].
    apply elem_of_app in Hin as [Hin|Hin]; [by apply Hkeep, Hp|].
    by apply list_elem_of_singleton in Hin as ->.
  - intros k Hk. rewrite Fk in Hk.
    destruct (knownAgents st !! k) as [a|] eqn:Eold.
    { eapply announced_mono; [exact Fs|]. apply Ha. by rewrite Eold. }
    destruct (decide (sessionIdOf evt = k)) as [<-|Hne];
      [|rewrite lookup_insert_ne, Eold in Hk by done; by destruct Hk].
    rewrite Eold in Fs.
    destruct (getOrCreateAgent_registry (sessionIdOf evt) (hintsOf evt)
                (now env) st) as [_ Hnew].
    rewrite Eold in Hnew. destruct Hnew as (_ & Hid & _).
    eexists. split; [|exact Hid].
    rewrite Fs. apply elem_of_app. right. apply list_elem_of_here.
Qed.

Lemma registerMember_wellReferenced (team : jsstring) (now : Z) (st : State)
    (member : Member.t) :
  wellReferenced st -> wellReferenced (registerMember team now st member).
Proof.
  intros (He & Hp & Ha).
  destruct (registerMember_frame team now st member) as (Fe & _ & Fp & _).
  destruct (registerMember_knownAgents team now st member) as (a & Fk & _).
  pose proof (registerMember_sent team now st member) as Fs.
  cbv zeta in Fs.
  set (st' := registerMember team now st member) in *.
  set (i := memberAgentId team member) in *.
  assert (Hkeep : forall k, is_Some (knownAgents st !! k) ->
                    is_Some (knownAgents st' !! k)).
  { intros k Hk. rewrite Fk.
    destruct (decide (i = k)) as [<-|Hne];
      [by rewrite lookup_insert_eq|by rewrite lookup_insert_ne]. }
  split; [|split].
  - intros r Hr. rewrite Fe in Hr. by apply Hkeep, He.
  - intros p Hq. rewrite Fp in Hq. by apply Hkeep, Hp.
  - intros k Hk. rewrite Fk in Hk.
    destruct (knownAgents st !! k) as [b|] eqn:Eold.
    { eapply announced_mono; [exact Fs|]. apply Ha. by rewrite Eold. }
    destruct (decide (i = k)) as [Heq|Hne];
      [|rewrite lookup_insert_ne, Eold in Hk by done; by destruct Hk].
    rewrite <- Heq in Eold |- *. rewrite Eold in Fs. eexists. split.
    + rewrite Fs. apply elem_of_app. right. apply list_elem_of_here.
    + reflexivity.
Qed.

Lemma reachable_wellReferenced (st : State) :
  reachable st -> wellReferenced st.
Proof.
  revert st. apply (reachable_steps_ind wellReferenced).
  - intros st st' Hk He Hp [more Hs] (H1 & H2 & H3).
    split; [|split].
    + intros r Hr. rewrite Hk. apply H1. by rewrite <- He.
    + intros p Hq. rewrite Hk. apply H2. by rewrite <- Hp.
    + intros k Hin. eapply announced_mono; [exact Hs|]. apply H3.
      by rewrite <- Hk.
  - intros size. split; [|split].
    + intros r Hr. by apply elem_of_nil in Hr.
    + intros p Hq. by apply elem_of_nil in Hq.
    + intros k [a Hk]. cbn [initialState knownAgents] in Hk.
      by rewrite lookup_empty in Hk.
  - apply processEvent_wellReferenced.
  - apply registerMember_wellReferenced.
Qed.

(** X12: nothing dangles.  In every state the server reaches, each record
    of the events buffer and each entry of the queue of pending tasks
    names an agent of the registry, and for each agent of the registry an
    [agent_join] with its id is among the broadcasts made: a client that
    has listened from the start knows every agent an event refers to. *)
Theorem well_referenced (st : State) :
  reachable st ->
  (forall r, r ∈ recentEvents st ->
     is_Some (knownAgents st !! EventRecord.agentId r))
  /\ (forall p, p ∈ pendingTasks st ->
        is_Some (knownAgents st !! PendingTask.from p))
  /\ (forall k, is_Some (knownAgents st !! k) -> announced st k).
Proof. apply reachable_wellReferenced. Qed.

Lemma well_referenced_witness :
  let task :=
    Evt.mk (Some (js "s1")) None None (Some (js "pre_tool")) None
      (Some (js "Task")) None
      (Some (ToolInput.mk None None None None (Some (js "Write the parser"))
               None None None None))
      None None None None None None in
  let st :=
    processEvent task {| now := 1; messageId := []; recordId := [] |}
      (initialState 0) in
  reachable st
  /\ map PendingTask.from (pendingTasks st) = [js "s1"]
  /\ announced st (js "s1").
Proof.
  intros task st.
  assert (Hr : reachable st) by (apply reach_event, reach_start).
  split; [exact Hr|]. split; [by vm_compute|].
  destruct (well_referenced st Hr) as (_ & Hp & Ha).
  apply Ha, (Hp (pendingOf task {| now := 1; messageId := []; recordId := [] |}
                   None (js "Write the parser"))).
  vm_compute. apply list_elem_of_here.
Defined.

(** ** The file histories *)

Lemma normalizeSeparators_no_backslash (s : jsstring) :
  92%N ∉ normalizeSeparators s.
Proof.
  unfold normalizeSeparators. intros (c & Hc & _)%list_elem_of_fmap.
  destruct (N.eqb_spec c 92); [done|congruence].
Qed.

Lemma trackFile_historyOk (f : option jsstring) (a : Agent.t) :
  historyOk (Agent._filePaths a) ->
  historyOk (Agent._filePaths (trackFile f a)).
Proof.
  intros [Hlen Hno]. unfold trackFile. destruct f as [f|]; [|done].
  set (pushed := default [] (Agent._filePaths a) ++ [normalizeSeparators f]).
  set (paths := if 30 <? length pushed then lastN 30 pushed else pushed).
  assert (Hok : historyOk (Some paths)).
  { unfold historyOk. change (default [] (Some paths)) with paths. split.
    - unfold paths. destruct (Nat.ltb_spec 30 (length pushed)); [|done].
      rewrite lastN_length. lia.
    - intros path Hp.
      assert (Hin : path ∈ pushed).
      { unfold paths in Hp. destruct (_ <? _); [|done].
        unfold lastN in Hp. by apply (subseteq_drop (length pushed - 30)). }
      apply elem_of_app in Hin as [Hin|Hin]; [by apply Hno|].
      apply list_elem_of_singleton in Hin as ->.
      apply normalizeSeparators_no_backslash. }
  cbn [Agent._taskLabel Agent.set__filePaths Agent.label]. cases.
Qed.

Lemma updateAgent_historyOk (evt : Evt.t) (now : Z) (a : Agent.t) :
  historyOk (Agent._filePaths a) ->
  historyOk (Agent._filePaths (updateAgent evt now a)).
Proof.
  intros H. unfold updateAgent. cbn [Agent._filePaths Agent.set_tokens].
  apply trackFile_historyOk.
  unfold touch, describeActivity, resolveStatus. cases.
Qed.

Lemma adoptPending_filePaths (h sid : jsstring) (now : Z) (a : Agent.t)
    (st : State) :
  Agent._filePaths (adoptPending h sid now a st).2 = Agent._filePaths a.
Proof.
  unfold adoptPending. destruct (_ && _); [|done].
  by destruct (findPending _ _ _ _) as [[idx p]|].
Qed.

Lemma getOrCreateAgent_historyOk (sid : jsstring) (extra : Hints) (now : Z)
    (st : State) :
  historiesOk st ->
  historyOk (Agent._filePaths (getOrCreateAgent sid extra now st).2).
Proof.
  intros H. unfold getOrCreateAgent.
  destruct (knownAgents st !! sid) as [a|] eqn:E; cbn [snd].
  - destruct (applyHints_taskLabel extra a) as [_ ->]. by apply (H sid).
  - split; cbn [newAgent Agent._filePaths default length]; [lia|].
    intros path Hp. by apply elem_of_nil in Hp.
Qed.

Lemma historiesOk_insert (st st' : State) (k : jsstring) (a : Agent.t) :
  knownAgents st' = <[k := a]> (knownAgents st) ->
  historiesOk st -> historyOk (Agent._filePaths a) -> historiesOk st'.
Proof.
  intros Hk H Ha k' a'. rewrite Hk.
  destruct (decide (k = k')) as [<-|Hne].
  - rewrite lookup_insert_eq. by intros [= <-].
  - rewrite lookup_insert_ne by done. apply H.
Qed.

(** X13: the file histories stay small and normalised.  In every state
    the server reaches, the history of file paths of each agent holds at
    most 30 paths, and no path in it holds a backslash. *)
Theorem file_histories (st : State) :
  reachable st ->
  forall k a, knownAgents st !! k = Some a ->
    length (default [] (Agent._filePaths a)) <= 30
    /\ forall path, path ∈ default [] (Agent._filePaths a) -> 92%N ∉ path.
Proof.
  revert st. apply (reachable_registry_ind historiesOk).
  - intros st st' Hk _ H k a. rewrite <- Hk. apply H.
  - intros size k a H. cbn [initialState knownAgents] in H.
    by rewrite lookup_empty in H.
  - intros evt env st H.
    apply (historiesOk_insert st _ _ _ (processEvent_knownAgents evt env st));
      [done|].
    unfold agentAfter.
    pose proof (getOrCreateAgent_historyOk (sessionIdOf evt) (hintsOf evt)
                  (now env) st H) as Hh.
    destruct (getOrCreateAgent _ _ _ _) as [st0 agent0]. cbn [snd] in Hh.
    rewrite adoptPending_filePaths. by apply updateAgent_historyOk.
  - intros team now st member H.
    destruct (registerMember_step team now st member)
      as (a & -> & _ & _ & _ & _ & _ & _ & _ & Hf & _).
    match goal with
    | |- context [getOrCreateAgent ?i ?e ?n ?s] =>
        destruct (getOrCreateAgent_registry i e n s) as [Hm _];
        pose proof (getOrCreateAgent_historyOk i e n s H) as Hh;
        set (r := getOrCreateAgent i e n s) in *
    end.
    eapply (historiesOk_insert st); [|done|by rewrite Hf].
    cbn [knownAgents set_knownAgents]. rewrite Hm. apply insert_insert_eq.
Qed.

Lemma file_histories_witness :
  let read :=
    Evt.mk (Some (js "s1")) None None (Some (js "pre_tool")) None
      (Some (js "Read")) None
      (Some (ToolInput.mk (Some (js "src\app.js")) None None None None None
               None None None))
      None None None None None None in
  let st :=
    processEvent read {| now := 1; messageId := []; recordId := [] |}
      (initialState 0) in
  reachable st
  /\ (Agent._filePaths <$> knownAgents st !! js "s1")
     = Some (Some [js "src/app.js"])
  /\ forall k a, knownAgents st !! k = Some a ->
       length (default [] (Agent._filePaths a)) <= 30.
Proof.
  intros read st.
  assert (Hr : reachable st) by (apply reach_event, reach_start).
  split; [exact Hr|]. split; [by vm_compute|].
  intros k a E. by destruct (file_histories st Hr k a E).
Defined.

(** ** A notification that repeats *)

(** The state after the handler of the teams directory, for a readable
    configuration: the state after the loop over the members, with more
    broadcasts and messages at most. *)
Lemma onTeamsChange_shape (filename team : jsstring) (cfg : TeamConfig)
    (inboxes : gmap jsstring (list InboxMsg.t)) (tasks : gmap jsstring jsstring)
    (now : Z) (ids : nat -> jsstring) (st : State) :
  truthy (splitBy isSlash (normalizeSeparators filename) !! 0) = Some team ->
  let st' := onTeamsChange filename (Some cfg) inboxes tasks now ids st in
  let st2 :=
    fold_left (registerMember team now) (default [] (members cfg))
      (set_teamsState (<[team := Team.mk cfg inboxes tasks]> (teamsState st))
         st) in
  knownAgents st' = knownAgents st2 /\ teamsState st' = teamsState st2.
Proof.
  intros Hteam st' st2. unfold st', onTeamsChange. rewrite Hteam. fold st2.
  destruct (equalsLit _ "config.json"); [done|].
  destruct (equalsLit _ "inboxes"); [|done].
  destruct (truthy (_ !! 2)); [|done].
  destruct (0 <? _); [|done].
  match goal with
  | |- context [materialize ?t ?a ?n ?d ?i ?l ?s] =>
      destruct (materialize_registry t a n d i l s) as (Hk & _ & Ht & _)
  end.
  by rewrite Hk, Ht.
Qed.

(** The loop over members that are all known already broadcasts nothing
    and adds no key to the registry. *)
Lemma registerMembers_known (team : jsstring) (now : Z)
    (l : list Member.t) (st : State) :
  (forall m, m ∈ l -> is_Some (knownAgents st !! memberAgentId team m)) ->
  let st' := fold_left (registerMember team now) l st in
  sent st' = sent st /\ dom (knownAgents st') = dom (knownAgents st).
Proof.
  revert st. induction l as [|m l IH]; intros st Hall; simpl; [done|].
  destruct (registerMember_knownAgents team now st m) as (a & Hk & _).
  pose proof (registerMember_sent team now st m) as Hs. cbv zeta in Hs.
  destruct (Hall m) as [b Hb]; [apply list_elem_of_here|].
  rewrite Hb, app_nil_r in Hs.
  set (st1 := registerMember team now st m) in *.
  destruct (IH st1) as [-> ->].
  - intros m' Hm'. rewrite Hk.
    destruct (decide (memberAgentId team m = memberAgentId team m'))
      as [->|Hne]; [by rewrite lookup_insert_eq|].
    rewrite lookup_insert_ne by done. by apply Hall, list_elem_of_further.
  - split; [done|]. rewrite Hk. apply dom_insert_lookup_L. by exists b.
Qed.

(** A run of the handler for a path that is not [config.json], when the
    snapshot of the team holds the inboxes read and every member of the
    configuration is a known agent: nothing is broadcast and no message
    is made. *)
Lemma onTeamsChange_quiet (filename team : jsstring) (cfg : TeamConfig)
    (prev : Team.t) (inboxes : gmap jsstring (list InboxMsg.t))
    (tasks : gmap jsstring jsstring) (now : Z) (ids : nat -> jsstring)
    (st : State) :
  let parts := splitBy isSlash (normalizeSeparators filename) in
  truthy (parts !! 0) = Some team ->
  equalsLit (parts !! 1) "config.json" = false ->
  teamsState st !! team = Some prev -> Team.inboxes prev = inboxes ->
  (forall m, m ∈ default [] (members cfg) ->
     is_Some (knownAgents st !! memberAgentId team m)) ->
  let st' := onTeamsChange filename (Some cfg) inboxes tasks now ids st in
  sent st' = sent st
  /\ recentMessages st' = recentMessages st
  /\ recentEvents st' = recentEvents st
  /\ pendingTasks st' = pendingTasks st
  /\ teamsState st' = <[team := Team.mk cfg inboxes tasks]> (teamsState st)
  /\ dom (knownAgents st') = dom (knownAgents st).
Proof.
  intros parts Hteam Hcfg Hprev Hinb Hall st'.
  unfold st', onTeamsChange. fold parts. rewrite Hteam, Hcfg.
  set (s := set_teamsState _ st).
  destruct (registerMembers_known team now (default [] (members cfg)) s)
    as [Hsent Hdom]; [exact Hall|].
  destruct (registerMembers_frame team now (default [] (members cfg)) s)
    as (He & Hm & Hp & Ht & _).
  set (s' := fold_left _ _ s) in *.
  assert (Hgoal : sent s' = sent st
                  /\ recentMessages s' = recentMessages st
                  /\ recentEvents s' = recentEvents st
                  /\ pendingTasks s' = pendingTasks st
                  /\ teamsState s'
                     = <[team := Team.mk cfg inboxes tasks]> (teamsState st)
                  /\ dom (knownAgents s') = dom (knownAgents st)).
  { by rewrite Hsent, Hm, He, Hp, Ht, Hdom. }
  destruct (equalsLit _ "inboxes"); [|done].
  destruct (truthy (_ !! 2)) as [file|]; [|done].
  rewrite Hprev. cbn [mbind option_bind]. rewrite Hinb.
  unfold newInboxMessages. rewrite drop_all.
  cbn [length Nat.ltb Nat.leb]. exact Hgoal.
Qed.

(** X14: a notification that comes late.  A run of the handler of the
    teams directory, for any path of a team, takes the inboxes it reads
    into the snapshot of the team, all of them.  When the directory then
    reports another change under that team that is no change of
    [config.json], the same path or not, while the files read as before
    (a single write often comes as several notifications), the second run
    broadcasts nothing, makes no message and adds no agent. *)
Theorem teams_renotified (filename filename' team : jsstring)
    (cfg : TeamConfig) (inboxes : gmap jsstring (list InboxMsg.t))
    (tasks : gmap jsstring jsstring) (now now' : Z)
    (ids ids' : nat -> jsstring) (st : State) :
  let parts := splitBy isSlash (normalizeSeparators filename) in
  let parts' := splitBy isSlash (normalizeSeparators filename') in
  truthy (parts !! 0) = Some team ->
  truthy (parts' !! 0) = Some team ->
  equalsLit (parts' !! 1) "config.json" = false ->
  let st1 := onTeamsChange filename (Some cfg) inboxes tasks now ids st in
  let st2 := onTeamsChange filename' (Some cfg) inboxes tasks now' ids' st1 in
  sent st2 = sent st1
  /\ recentMessages st2 = recentMessages st1
  /\ recentEvents st2 = recentEvents st1
  /\ pendingTasks st2 = pendingTasks st1
  /\ teamsState st2 = teamsState st1
  /\ dom (knownAgents st2) = dom (knownAgents st1).
Proof.
  intros parts parts' Hteam Hteam' Hcfg st1 st2.
  destruct (onTeamsChange_shape filename team cfg inboxes tasks now ids st
              Hteam) as [Hk1 Ht1].
  fold st1 in Hk1, Ht1.
  match type of Hk1 with
  | _ = knownAgents (fold_left ?f ?l ?s) =>
      destruct (registerMembers_tagged team now l s) as (_ & _ & Hall);
      destruct (registerMembers_frame team now l s) as (_ & _ & _ & Hts & _)
  end.
  rewrite <- Hk1 in Hall. rewrite Hts in Ht1.
  cbn [teamsState set_teamsState] in Ht1.
  destruct (onTeamsChange_quiet filename' team cfg
              (Team.mk cfg inboxes tasks) inboxes tasks now' ids' st1)
    as (H1 & H2 & H3 & H4 & H5 & H6); try done.
  - by rewrite Ht1, lookup_insert_eq.
  - intros m Hm. destruct (Hall m Hm) as (a & Ha & _). by exists a.
  - split_and!; try done. fold st2 in H5. rewrite H5, Ht1.
    apply insert_insert_eq.
Qed.

Lemma teams_renotified_witness :
  let ada := Member.mk (Some (js "ada")) None None None None None in
  let cfg := {| members := Some [ada] |} in
  let hello := InboxMsg.mk (Some (js "bob")) (js "hello") None false in
  let inboxes : gmap jsstring (list InboxMsg.t) := {[ js "ada" := [hello] ]} in
  let st1 :=
    onTeamsChange (js "crew/inboxes/ada.json.tmp") (Some cfg) inboxes ∅ 0
      (fun _ => js "m1") (initialState 0) in
  let st2 :=
    onTeamsChange (js "crew/inboxes/ada.json") (Some cfg) inboxes ∅ 1
      (fun _ => js "m2") st1 in
  length (sent st1) = 1 /\ sent st2 = sent st1.
Proof.
  intros ada cfg hello inboxes st1 st2. split; [by vm_compute|].
  by destruct (teams_renotified (js "crew/inboxes/ada.json.tmp")
                 (js "crew/inboxes/ada.json") (js "crew") cfg
                 inboxes ∅ 0 1 (fun _ => js "m1") (fun _ => js "m2")
                 (initialState 0) eq_refl eq_refl eq_refl) as [H _].
Defined.

(** ** The shape of a summary *)

Lemma takeUntil_subseteq {A} (p : A -> bool) (l : list A) :
  takeUntil p l ⊆ l.
Proof.
  induction l as [|x l IH]; simpl; [done|].
  destruct (p x); [apply list_subseteq_nil|].
  intros y [->|Hy]%elem_of_cons; [apply list_elem_of_here|].
  by apply list_elem_of_further, IH.
Qed.

Lemma squeeze_whitespace (inRun : bool) (s : jsstring) (c : N) :
  c ∈ squeeze inRun s -> isWhiteSpace c = true -> c = SPACE.
Proof.
  revert inRun. induction s as [|d s IH]; intros inRun; simpl.
  - intros H. by apply elem_of_nil in H.
  - destruct (isWhiteSpace d) eqn:E.
    + destruct inRun; [apply IH|].
      intros [->|H]%elem_of_cons; [done|by apply (IH true)].
    + intros [->|H]%elem_of_cons; [congruence|by apply (IH false)].
Qed.

(** X15: the shape of a summary.  Whatever the description, its summary
    holds at most 41 units (40 and the ellipsis), none of ['.'], ['!'],
    ['?'] and no newline, and no white space but the space. *)
Theorem summarizeTask_shape (text : jsstring) :
  length (summarizeTask text) <= 41
  /\ forall c, c ∈ summarizeTask text ->
       isTerminator c = false /\ (isWhiteSpace c = true -> c = SPACE).
Proof.
  assert (Hfirst : forall c, c ∈ firstClause text ->
            isTerminator c = false /\ (isWhiteSpace c = true -> c = SPACE)).
  { intros c Hc. split; [by apply (firstClause_no_terminator text)|].
    apply (squeeze_whitespace false (replaceNewlines text)).
    unfold firstClause in Hc.
    by apply trim_subseteq, takeUntil_subseteq, trim_subseteq in Hc. }
  unfold summarizeTask.
  destruct (Nat.leb_spec (length (firstClause text)) 32) as [Hle|Hgt].
  { split; [lia|exact Hfirst]. }
  cbv zeta.
  set (cut := if (15 <? _)%Z then _ else _).
  assert (Hcut : length cut <= 40 /\ cut ⊆ firstClause text).
  { unfold cut. destruct (_ <? _)%Z.
    - split; [rewrite !length_take; lia|].
      etrans; apply subseteq_take.
    - split; [rewrite length_take; lia|apply subseteq_take]. }
  destruct Hcut as [Hlen Hsub]. split.
  - rewrite length_app. unfold ellipsis. simpl. lia.
  - intros c [Hc|Hc]%elem_of_app; [by apply Hfirst, Hsub|].
    apply list_elem_of_singleton in Hc as ->. by split.
Qed.

(** ** The inbox files *)

Lemma startsWith_app (p r : jsstring) : startsWith p (p ++ r) = true.
Proof.
  induction p as [|c p IH]; [by destruct r|]. simpl.
  by rewrite N.eqb_refl, IH.
Qed.

Lemma startsWith_inv (p s : jsstring) :
  startsWith p s = true -> s = p ++ drop (length p) s.
Proof.
  revert s. induction p as [|c p IH]; intros [|d s]; simpl; try done.
  intros [Hc Hs]%andb_true_iff. apply N.eqb_eq in Hc as ->.
  f_equal. by apply IH.
Qed.

Lemma endsWith_app (t ext : jsstring) : endsWith ext (t ++ ext) = true.
Proof. unfold endsWith. rewrite rev_app_distr. apply startsWith_app. Qed.

Lemma basenameJson_app (t : jsstring) : basenameJson (t ++ js ".json") = t.
Proof.
  unfold basenameJson. fold (endsWith (js ".json") (t ++ js ".json")).
  rewrite endsWith_app, length_app, Nat.add_sub. apply take_app_length.
Qed.

Lemma endsWith_basenameJson (f : jsstring) :
  endsWith (js ".json") f = true -> f = basenameJson f ++ js ".json".
Proof.
  intros H. unfold basenameJson. fold (endsWith (js ".json") f). rewrite H.
  unfold endsWith in H. apply startsWith_inv in H.
  apply (f_equal (@rev N)) in H. rewrite rev_involutive, rev_app_distr in H.
  rewrite rev_involutive in H.
  set (r := rev (drop _ (rev f))) in H. rewrite H at 2 3.
  rewrite length_app, Nat.add_sub, take_app_length. exact H.
Qed.

(** The inbox that the loop of [readTeamInboxes] leaves under [target]: the
    messages of the file [target.json], when that file holds data. *)
Lemma readInboxFiles_lookup (target : jsstring)
    (l : list (jsstring * InboxData)) (acc : gmap jsstring (list InboxMsg.t)) :
  NoDup l.*1 ->
  fold_left readInboxFile l acc !! target
  = match (list_to_map l : gmap jsstring InboxData) !! (target ++ js ".json")
          ≫= inboxMessages with
    | Some messages => Some messages
    | None => acc !! target
    end.
Proof.
  revert acc. induction l as [|[f d] l IH]; intros acc Hnd; [done|].
  apply NoDup_cons in Hnd as [Hf Hnd].
  cbn [fold_left list_to_map foldr]. rewrite (IH _ Hnd). clear IH.
  cbn [fst snd uncurry]. unfold readInboxFile; cbn [fst snd].
  destruct (decide (f = target ++ js ".json")) as [->|Hne].
  - rewrite lookup_insert_eq, endsWith_app, basenameJson_app.
    rewrite (not_elem_of_list_to_map_1 _ _ Hf). cbn [mbind option_bind].
    destruct (inboxMessages d); [by rewrite lookup_insert_eq|done].
  - rewrite lookup_insert_ne by done.
    destruct (_ ≫= inboxMessages); [done|].
    destruct (endsWith (js ".json") f) eqn:E; [|done].
    destruct (inboxMessages d); [|done].
    rewrite lookup_insert_ne; [done|].
    intros <-. by apply endsWith_basenameJson in E.
Qed.

Lemma readTeamInboxes_lookup (disk : Disk) (team target : jsstring) :
  readTeamInboxes disk team !! target
  = match disk !! team with
    | Some files => files !! (target ++ js ".json") ≫= inboxMessages
    | None => None
    end.
Proof.
  unfold readTeamInboxes. destruct (disk !! team) as [files|]; [|done].
  rewrite readInboxFiles_lookup by apply NoDup_fst_map_to_list.
  rewrite list_to_map_to_list.
  by destruct (_ ≫= inboxMessages).
Qed.

Lemma splitBy_none {A} (isSep : A -> bool) (s : list A) :
  forallb (fun c => negb (isSep c)) s = true -> splitBy isSep s = [s].
Proof.
  induction s as [|c s IH]; [done|]. simpl.
  intros [Hc Hs]%andb_true_iff. apply negb_true_iff in Hc.
  by rewrite Hc, IH.
Qed.

Lemma isFileName_spec (s : jsstring) :
  isFileName s = true ->
  normalizeSeparators s = s
  /\ forallb (fun c => negb (isSlash c)) s = true.
Proof.
  unfold isFileName, normalizeSeparators.
  induction s as [|c s IH]; [done|]. simpl.
  intros [[Hc Hb]%andb_true_iff Hs]%andb_true_iff.
  destruct (IH Hs) as [-> ->]. apply negb_true_iff in Hb.
  by rewrite Hb, Hc.
Qed.

(** The parts of the path under which the teams directory reports the
    inbox file of [target] in [team]. *)
Lemma inboxPath_parts (team target : jsstring) :
  isFileName team = true -> isFileName target = true ->
  splitBy isSlash
    (normalizeSeparators (team ++ js "/inboxes/" ++ target ++ js ".json"))
  = [team; js "inboxes"; target ++ js ".json"].
Proof.
  intros [Ht Hts]%isFileName_spec [Hg Hgs]%isFileName_spec.
  unfold normalizeSeparators in *. rewrite !map_app, Ht, Hg.
  change (map _ (js "/inboxes/")) with (47%N :: js "inboxes" ++ [47%N]).
  change (map _ (js ".json")) with (js ".json").
  cbn [app]. rewrite <- app_assoc. cbn [app].
  rewrite (splitBy_app_sep isSlash team _ 47%N) by reflexivity.
  rewrite (splitBy_app_sep isSlash (js "inboxes") _ 47%N) by reflexivity.
  rewrite (splitBy_none isSlash team) by done.
  rewrite (splitBy_none isSlash (target ++ js ".json")).
  - reflexivity.
  - rewrite forallb_app, Hgs. reflexivity.
Qed.

Lemma writeInboxMessage_read (team target sender text iso : jsstring)
    (disk : Disk) :
  let r := writeInboxMessage team target sender text iso disk in
  let msg := InboxMsg.mk (Some sender) text (Some iso) false in
  r.2 = Some msg
  /\ readTeamInboxes r.1 team !! target
     = Some (default [] (readTeamInboxes disk team !! target) ++ [msg])
  /\ (forall other, other <> target ->
        readTeamInboxes r.1 team !! other
        = readTeamInboxes disk team !! other)
  /\ (forall team' other, team' <> team ->
        readTeamInboxes r.1 team' !! other
        = readTeamInboxes disk team' !! other).
Proof.
  intros r msg. split; [reflexivity|].
  unfold r, writeInboxMessage. cbv zeta. cbn [fst]. split; [|split].
  - rewrite !readTeamInboxes_lookup, !lookup_insert_eq.
    destruct (disk !! team) as [files|].
    + change (default ∅ (Some files)) with files.
      by destruct (files !! (target ++ js ".json")) as [[|l|[l|]]|].
    + change (default ∅ None) with (∅ : gmap jsstring InboxData).
      by rewrite lookup_empty.
  - intros other Hne. rewrite !readTeamInboxes_lookup, lookup_insert_eq.
    rewrite lookup_insert_ne by (intros H; by apply app_inv_tail in H).
    destruct (disk !! team) as [files|]; [done|].
    change (default ∅ None) with (∅ : gmap jsstring InboxData).
    by rewrite lookup_empty.
  - intros team' other Hne. rewrite !readTeamInboxes_lookup.
    by rewrite lookup_insert_ne.
Qed.

Lemma sender_truthy (fromName : option jsstring) :
  let sender := default (js "observer") (truthy fromName) in
  truthy (Some sender) = Some sender.
Proof. by destruct fromName as [[|c s]|]. Qed.

(** X16: a message sent from the UI comes back.  The UI asks to send
    [text] to the inbox of [target] in [team]; the server appends the
    message to the file of that inbox, and the teams directory reports the
    file.  When the snapshot the server held of that inbox was what the
    file held, the handler of the report broadcasts one inbox update that
    carries the new message alone, with the new length of the inbox, and
    then one message for the graph, from the sender (["observer"] when the
    UI names none) to the target, each under its id of the registry when
    the registry knows it as a member of the team. *)
Theorem sent_message_comes_back (team target text : jsstring)
    (fromName : option jsstring) (iso : jsstring) (cfg : TeamConfig)
    (tasks : gmap jsstring jsstring) (now : Z) (ids : nat -> jsstring)
    (disk : Disk) (st : State) :
  team <> [] -> target <> [] -> text <> [] ->
  isFileName team = true -> isFileName target = true ->
  default [] (teamsState st !! team ≫= fun t => Team.inboxes t !! target)
  = default [] (readTeamInboxes disk team !! target) ->
  let sender := default (js "observer") (truthy fromName) in
  let msg := InboxMsg.mk (Some sender) text (Some iso) false in
  let old := default [] (readTeamInboxes disk team !! target) in
  let r :=
    onSendInboxMessage (Some team) (Some target) fromName (Some text) iso
      disk in
  let st' :=
    onTeamsChange (team ++ js "/inboxes/" ++ target ++ js ".json") (Some cfg)
      (readTeamInboxes r.1 team) tasks now ids st in
  let idOf name :=
    if bool_decide (is_Some (knownAgents st' !! (name ++ js "@" ++ team)))
    then name ++ js "@" ++ team else name in
  let edge :=
    {| Message.id := ids 0;
       Message.from := idOf sender;
       Message.to := idOf target;
       Message.text := take 100 text;
       Message.timestamp := now |} in
  r.2 = Some msg
  /\ readTeamInboxes r.1 team !! target = Some (old ++ [msg])
  /\ inboxUpdates (sent st')
     = inboxUpdates (sent st)
       ++ [Push.inbox_update team target [msg] (S (length old))]
  /\ last (sent st') = Some (Push.message edge)
  /\ last (recentMessages st') = Some edge.
Proof.
  intros Hteam Htarget Htext Hft Hfg Hsync sender msg old r st' idOf edge.
  assert (Hr : r = writeInboxMessage team target sender text iso disk).
  { unfold r, onSendInboxMessage.
    by destruct team, target, text. }
  destruct (writeInboxMessage_read team target sender text iso disk)
    as (H2 & Hread & _).
  rewrite <- Hr in H2, Hread. fold msg old in H2, Hread.
  pose proof (inboxPath_parts team target Hft Hfg) as Hparts.
  split; [exact H2|]. split; [exact Hread|].
  assert (Hnew : newInboxMessages old (old ++ [msg]) = [msg])
    by (unfold newInboxMessages; by rewrite drop_app_length).
  split.
  - pose proof (onTeamsChange_inbox
                  (team ++ js "/inboxes/" ++ target ++ js ".json") team
                  (target ++ js ".json") cfg (readTeamInboxes r.1 team)
                  tasks now ids st) as H.
    cbv zeta in H. rewrite Hparts, basenameJson_app, Hread, Hsync in H.
    fold st' old in H. change (default [] (Some (old ++ [msg])))
      with (old ++ [msg]) in H.
    rewrite Hnew, length_app, Nat.add_1_r in H.
    apply H; try done. by destruct target.
  - set (st2 :=
           fold_left (registerMember team now) (default [] (members cfg))
             (set_teamsState
                (<[team := Team.mk cfg (readTeamInboxes r.1 team) tasks]>
                   (teamsState st)) st)).
    set (idOf2 name :=
           if bool_decide
                (is_Some (knownAgents st2 !! (name ++ js "@" ++ team)))
           then name ++ js "@" ++ team else name).
    set (edge2 :=
           {| Message.id := ids 0;
              Message.from := idOf2 sender;
              Message.to := idOf2 target;
              Message.text := take 100 text;
              Message.timestamp := now |}).
    assert (Hst' : st'
                   = broadcast (Push.message edge2)
                       (set_recentMessages
                          (ringPush MAX_MESSAGES (recentMessages st2) edge2)
                          (broadcast
                             (Push.inbox_update team target [msg]
                                (length (old ++ [msg]))) st2))).
    { unfold st', onTeamsChange. rewrite Hparts.
      change ([team; js "inboxes"; target ++ js ".json"] !! 0)
        with (Some team).
      change ([team; js "inboxes"; target ++ js ".json"] !! 1)
        with (Some (js "inboxes")).
      change ([team; js "inboxes"; target ++ js ".json"] !! 2)
        with (Some (target ++ js ".json")).
      change (equalsLit (Some (js "inboxes")) "config.json") with false.
      change (equalsLit (Some (js "inboxes")) "inboxes") with true.
      assert (Ht : truthy (Some team) = Some team) by (by destruct team).
      assert (Hf : truthy (Some (target ++ js ".json"))
                   = Some (target ++ js ".json")) by (by destruct target).
      rewrite Ht, Hf. cbv iota. fold st2.
      rewrite basenameJson_app, Hread, Hsync.
      fold old. change (default [] (Some (old ++ [msg])))
        with (old ++ [msg]).
      rewrite Hnew. cbn [length Nat.ltb Nat.leb materialize]. unfold msg.
      cbn [InboxMsg.from InboxMsg.text].
      pose proof (sender_truthy fromName) as Hs. cbv zeta in Hs.
      fold sender in Hs. rewrite Hs. reflexivity. }
    assert (Hk : knownAgents st' = knownAgents st2) by (by rewrite Hst').
    assert (He : edge = edge2).
    { unfold edge, edge2, idOf, idOf2. by rewrite Hk. }
    rewrite He, Hst'. split.
    + apply last_snoc.
    + apply ringPush_last. unfold MAX_MESSAGES. lia.
Qed.

Lemma sent_message_comes_back_witness :
  let ada := Member.mk (Some (js "ada")) None None None None None in
  let cfg := {| members := Some [ada] |} in
  let r :=
    onSendInboxMessage (Some (js "crew")) (Some (js "ada")) None
      (Some (js "hi")) (js "2026") ∅ in
  let st' :=
    onTeamsChange (js "crew/inboxes/ada.json") (Some cfg)
      (readTeamInboxes r.1 (js "crew")) ∅ 5 (fun _ => js "m")
      (initialState 0) in
  last (recentMessages st')
  = Some {| Message.id := js "m";
            Message.from := js "observer";
            Message.to := js "ada@crew";
            Message.text := js "hi";
            Message.timestamp := 5 |}.
Proof.
  intros ada cfg r st'.
  destruct (sent_message_comes_back (js "crew") (js "ada") (js "hi") None
              (js "2026") cfg ∅ 5 (fun _ => js "m") ∅ (initialState 0))
    as (_ & _ & _ & _ & H); [done|done|done|reflexivity|reflexivity| |].
  - by vm_compute.
  - etrans; [exact H|]. by vm_compute.
Defined.

(** ** The read of the teams directory at the start *)

(** For a directory, the start does what the handler of the teams
    directory does when the directory itself is reported. *)
Lemma readTeam_onTeamsChange (now : Z) (ids : nat -> jsstring) (st : State)
    (dir : TeamDir.t) :
  TeamDir.name dir <> [] -> isFileName (TeamDir.name dir) = true ->
  readTeam now st dir
  = onTeamsChange (TeamDir.name dir) (TeamDir.config dir)
      (TeamDir.inboxes dir) (TeamDir.tasks dir) now ids st.
Proof.
  intros Hne [Hn Hs]%isFileName_spec. unfold readTeam, onTeamsChange.
  rewrite Hn, (splitBy_none isSlash) by done.
  change ([TeamDir.name dir] !! 0) with (Some (TeamDir.name dir)).
  assert (Ht : truthy (Some (TeamDir.name dir)) = Some (TeamDir.name dir))
    by (by destruct (TeamDir.name dir)).
  rewrite Ht. by destruct (TeamDir.config dir).
Qed.

(** X17: the read at the start is a run of the handlers.  Reading the
    teams directory at the start leaves the server in the state in which
    the handler of the teams directory leaves it when it is run for each
    directory in turn; so the state after the start is one of the states
    the handlers reach, and what holds in all of those holds from the
    start. *)
Theorem readAllTeams_reachable (dirs : list TeamDir.t) (now : Z)
    (ids : nat -> jsstring) (st : State) :
  (forall dir, dir ∈ dirs ->
     TeamDir.name dir <> [] /\ isFileName (TeamDir.name dir) = true) ->
  readAllTeams dirs now st
  = fold_left
      (fun s dir =>
         onTeamsChange (TeamDir.name dir) (TeamDir.config dir)
           (TeamDir.inboxes dir) (TeamDir.tasks dir) now ids s) dirs st
  /\ (reachable st -> reachable (readAllTeams dirs now st)).
Proof.
  unfold readAllTeams. revert st.
  induction dirs as [|dir dirs IH]; intros st Hall; [done|].
  cbn [fold_left].
  destruct (Hall dir) as [Hne Hfn]; [apply list_elem_of_here|].
  rewrite (readTeam_onTeamsChange now ids st dir Hne Hfn).
  destruct (IH (onTeamsChange (TeamDir.name dir) (TeamDir.config dir)
                  (TeamDir.inboxes dir) (TeamDir.tasks dir) now ids st))
    as [Heq Hreach].
  { intros d Hd. by apply Hall, list_elem_of_further. }
  split; [exact Heq|]. intros Hr. by apply Hreach, reach_teams.
Qed.

Lemma readAllTeams_reachable_witness :
  let ada := Member.mk (Some (js "ada")) None (Some (js "team-lead")) None
               None None in
  let crew := TeamDir.mk (js "crew") (Some {| members := Some [ada] |}) ∅ ∅ in
  let st := readAllTeams [crew] 7 (initialState 0) in
  reachable st
  /\ (Agent.role <$> knownAgents st !! js "ada@crew") = Some (js "lead").
Proof.
  intros ada crew st. split; [|by vm_compute].
  apply (readAllTeams_reachable [crew] 7 (fun _ => []) (initialState 0));
    [|apply reach_start].
  intros dir ->%list_elem_of_singleton. by split.
Defined.

(** ** The watcher of the transcripts *)

Lemma calm_refl (st : State) : calm st st.
Proof. intros k. by right. Qed.

Lemma calm_trans (st1 st2 st3 : State) :
  calm st1 st2 -> calm st2 st3 -> calm st1 st3.
Proof.
  intros H12 H23 k. destruct (H23 k) as [H|H]; [by left|].
  rewrite H. apply H12.
Qed.

(** An event made of a transcript changes no status but to thinking, and
    leaves the queue of pending tasks alone. *)
Lemma transcriptEvent_calm (fullPath : jsstring) (entry : Entry.t)
    (block : Block.t) (env : Env) (st : State) :
  let st' := processEvent (transcriptEvent fullPath entry block) env st in
  calm st st' /\ pendingTasks st' = pendingTasks st.
Proof.
  set (evt := transcriptEvent fullPath entry block). intros st'. split.
  - intros k. unfold statusBefore at 1 2.
    destruct (decide (k = sessionIdOf evt)) as [->|Hne].
    + unfold st'. rewrite processEvent_agent.
      destruct (agentAfter_status evt env st) as [-> _].
      destruct (getOrCreateAgent_status (sessionIdOf evt) (hintsOf evt)
                  (now env) st) as [Hs _].
      rewrite resolveStatus_post
        by (unfold postToolKinds; apply list_elem_of_further,
              list_elem_of_here).
      destruct (_ <=? _)%Z; [by left|right]. exact Hs.
    + right. unfold st'. rewrite processEvent_others by done. reflexivity.
  - destruct (processEvent_fields evt env st) as (Hp & _). fold st' in Hp.
    rewrite Hp. unfold adoptedBy, queuedBy, taskDescOf.
    change (isSessionStart (hookEventOf evt)) with false.
    change (isPreTool (hookEventOf evt)) with false.
    by rewrite andb_false_r.
Qed.

Section TranscriptFacts.

Variable parse : list Byte.byte -> option Entry.t.
Variable envs : nat -> nat -> Env.
Variable projectsDir : jsstring.

Lemma replayBlocks_calm (fullPath : jsstring) (entry : Entry.t) (i j : nat)
    (blocks : list Block.t) (st : State) :
  let st' := replayBlocks envs fullPath entry i j blocks st in
  calm st st' /\ pendingTasks st' = pendingTasks st.
Proof.
  revert j st. induction blocks as [|b blocks IH]; intros j st; cbn [replayBlocks].
  - split; [apply calm_refl|reflexivity].
  - destruct (equalsLit (Block.type b) "tool_use"); [|apply IH].
    destruct (transcriptEvent_calm fullPath entry b (envs i j) st)
      as [Hc Hp].
    match goal with
    | |- context [replayBlocks _ _ _ _ (S j) blocks ?s] =>
        destruct (IH (S j) s) as [Hc' Hp']
    end.
    split; [by eapply calm_trans|by rewrite Hp', Hp].
Qed.

Lemma replayLines_calm (fullPath : jsstring) (i : nat)
    (lines : list (list Byte.byte)) (st : State) :
  let st' := replayLines parse envs fullPath i lines st in
  calm st st' /\ pendingTasks st' = pendingTasks st.
Proof.
  revert i st. induction lines as [|l lines IH]; intros i st; cbn [replayLines].
  - split; [apply calm_refl|reflexivity].
  - match goal with
    | |- context [replayLines _ _ _ (S i) lines ?s] =>
        destruct (IH (S i) s) as [Hc' Hp'];
        assert (Hstep : calm st s /\ pendingTasks s = pendingTasks st)
    end.
    { destruct (parse l) as [entry|]; [|by split; [apply calm_refl|]].
      destruct (equalsLit _ "assistant"); [|by split; [apply calm_refl|]].
      destruct (Entry.content entry); [|by split; [apply calm_refl|]].
      apply replayBlocks_calm. }
    destruct Hstep as [Hc Hp].
    split; [by eapply calm_trans|by rewrite Hp', Hp].
Qed.

(** X18: the transcripts never show an agent at work.  Whatever a
    transcript holds, a run of its listener leaves each agent in the
    status it had, or thinking; an agent it creates is idle or thinking.
    It queues no pending task and gives none to an agent. *)
Theorem transcripts_never_activate (filename : option jsstring)
    (file : option (list Byte.byte)) (fileSizes : gmap jsstring nat)
    (st : State) :
  let st' :=
    (onTranscriptChange parse envs projectsDir filename file fileSizes st).2 in
  (forall k, statusBefore st' k = thinking
             \/ statusBefore st' k = statusBefore st k)
  /\ pendingTasks st' = pendingTasks st.
Proof.
  unfold onTranscriptChange.
  destruct (truthy filename) as [name|]; [|by split; [apply calm_refl|]].
  destruct (endsWith _ name); [|by split; [apply calm_refl|]].
  destruct file as [content|]; [|by split; [apply calm_refl|]].
  cbv zeta. destruct (_ <=? _); [by split; [apply calm_refl|]|].
  apply replayLines_calm.
Qed.

End TranscriptFacts.

(** ** The statuses the handlers give *)

Lemma activeStatus_not_blocked (t : option jsstring) :
  activeStatus t <> blocked.
Proof. unfold activeStatus. cases. Qed.

Lemma resolveStatus_not_blocked (h : jsstring) (t : option jsstring) (now : Z)
    (a : Agent.t) :
  Agent.status a <> blocked ->
  Agent.status (resolveStatus h t now a) <> blocked.
Proof.
  intros H. unfold resolveStatus.
  destruct (isPreTool h); [apply activeStatus_not_blocked|].
  destruct (isPostTool h); [by destruct (_ <=? _)%Z|].
  destruct (isStop h); [done|]. destruct (isSessionStart h); [done|].
  destruct (isSubagentStop h); [done|]. by destruct (isTaskDone h).
Qed.

(** X20: the handlers never block an agent.  In every state the server
    reaches, no agent of the registry has the status [blocked]: only the
    demo gives that status. *)
Theorem never_blocked (st : State) :
  reachable st ->
  forall k a, knownAgents st !! k = Some a -> Agent.status a <> blocked.
Proof.
  revert st.
  apply (reachable_registry_ind
           (fun st => forall k a, knownAgents st !! k = Some a ->
                        Agent.status a <> blocked)).
  - intros st st' Hk _ H k a. rewrite <- Hk. apply H.
  - intros size k a H. cbn [initialState knownAgents] in H.
    by rewrite lookup_empty in H.
  - intros evt env st H k a. rewrite processEvent_knownAgents.
    destruct (decide (sessionIdOf evt = k)) as [<-|Hne];
      [|rewrite lookup_insert_ne by done; apply H].
    rewrite lookup_insert_eq. intros [= <-].
    destruct (agentAfter_status evt env st) as [-> _].
    apply resolveStatus_not_blocked.
    destruct (getOrCreateAgent_status (sessionIdOf evt) (hintsOf evt)
                (now env) st) as [-> _].
    unfold statusBefore.
    destruct (knownAgents st !! sessionIdOf evt) as [b|] eqn:E; [|done].
    by apply (H _ _ E).
  - intros team now st member H k a.
    destruct (registerMember_step team now st member)
      as (b & -> & _ & _ & _ & _ & _ & _ & _ & _ & _ & _ & Hs & _).
    match goal with
    | |- context [getOrCreateAgent ?i ?e ?n ?s] =>
        destruct (getOrCreateAgent_registry i e n s) as [Hm _];
        destruct (getOrCreateAgent_status i e n s) as [Hst _];
        set (r := getOrCreateAgent i e n s) in *
    end.
    cbn [knownAgents set_knownAgents]. rewrite Hm, insert_insert_eq.
    destruct (decide (memberAgentId team member = k)) as [<-|Hne];
      [|rewrite lookup_insert_ne by done; apply H].
    rewrite lookup_insert_eq. intros [= <-]. rewrite Hs, Hst.
    unfold statusBefore.
    destruct (knownAgents st !! memberAgentId team member) as [c|] eqn:E;
      [|done].
    by apply (H _ _ E).
Qed.

Lemma never_blocked_witness :
  let stop :=
    Evt.mk (Some (js "s1")) None None (Some (js "stop")) None None None None
      None None None None None None in
  let st :=
    processEvent stop {| now := 1; messageId := []; recordId := [] |}
      (initialState 0) in
  reachable st
  /\ statusBefore st (js "s1") = done
  /\ forall k a, knownAgents st !! k = Some a -> Agent.status a <> blocked.
Proof.
  intros stop st.
  assert (Hr : reachable st) by (apply reach_event, reach_start).
  split; [exact Hr|]. split; [by vm_compute|]. by apply never_blocked.
Defined.

(** ** A client that connects *)

(** The induction over the states the server goes through from [st0] on,
    by the steps the handlers are made of. *)
Lemma reaches_steps_ind (st0 : State) (P : State -> Prop) :
  (forall st st',
     knownAgents st' = knownAgents st ->
     recentEvents st' = recentEvents st ->
     pendingTasks st' = pendingTasks st ->
     teamsState st' = teamsState st ->
     (exists more, sent st' = sent st ++ more) ->
     P st -> P st') ->
  P st0 ->
  (forall evt env st, P st -> P (processEvent evt env st)) ->
  (forall team t st,
     team <> [] ->
     P st -> P (set_teamsState (<[team := t]> (teamsState st)) st)) ->
  (forall team now st member,
     team <> [] -> is_Some (teamsState st !! team) ->
     P st -> P (registerMember team now st member)) ->
  forall st, reaches st0 st -> P st.
Proof.
  intros Hframe Hinit Hevt Hset Hmem st Hr.
  assert (Hsame : forall s s' : State,
             knownAgents s' = knownAgents s ->
             recentEvents s' = recentEvents s ->
             pendingTasks s' = pendingTasks s ->
             teamsState s' = teamsState s ->
             sent s' = sent s -> P s -> P s').
  { intros s s' H1 H2 H3 H4 H5. apply Hframe; try done.
    exists []. by rewrite app_nil_r. }
  induction Hr as
    [|evt env st _ IH|parse envs ty file st _ IH
    |filename config inboxes tasks now ids st _ IH].
  - apply Hinit.
  - by apply Hevt.
  - unfold onEventsFileChange. destruct ty, file as [content|]; try done.
    assert (Hing : forall i lines s, P s -> P (ingest parse envs i lines s)).
    { intros i lines. revert i. induction lines as [|l lines IHl];
        intros i s Hs; simpl; [done|].
      apply IHl. destruct (parse l); [by apply Hevt|done]. }
    destruct (_ <=? _); [by eapply Hsame; [| | | | |exact IH]|].
    apply Hing. by eapply Hsame; [| | | | |exact IH].
  - unfold onTeamsChange.
    destruct (truthy _) as [team|] eqn:Ht; [|done].
    assert (Hne : team <> []).
    { intros ->. by destruct (_ !! 0) as [[|c s]|]. }
    destruct config as [cfg|]; [|done].
    assert (Hfold : forall l s, is_Some (teamsState s !! team) -> P s ->
                      P (fold_left (registerMember team now) l s)).
    { induction l as [|m l IHl]; intros s Hin Hs; simpl; [done|].
      apply IHl; [|by apply Hmem].
      destruct (registerMember_frame team now s m) as (_ & _ & _ & -> & _).
      exact Hin. }
    match goal with
    | |- context [fold_left ?f ?l ?s] =>
        assert (H2 : P (fold_left f l s));
        [apply Hfold;
         [cbn [teamsState set_teamsState]; by rewrite lookup_insert_eq
         |by apply Hset]|];
        set (st2 := fold_left f l s) in *
    end.
    destruct (equalsLit _ "config.json").
    { apply (Hframe st2); try done. by eexists. }
    destruct (equalsLit _ "inboxes"); [|done].
    destruct (truthy (_ !! 2)); [|done]. destruct (0 <? _); [|done].
    match goal with
    | |- P (materialize ?t ?a ?n ?d ?i ?l ?s) =>
        destruct (materialize_registry t a n d i l s)
          as (Hk & _ & Hts & Hp & He & _);
        destruct (materialize_sent t a n d i l s) as [more Hs]
    end.
    apply (Hframe st2); [exact Hk|exact He|exact Hp|exact Hts| |exact H2].
    eexists. rewrite Hs. cbn [sent broadcast]. by rewrite <- app_assoc.
Qed.

Lemma reachable_reaches (st : State) :
  reachable st <-> exists size, reaches (initialState size) st.
Proof.
  split.
  - induction 1 as [size|evt env st _ [size IH]|parse envs ty file st _ [size IH]
                   |filename config inboxes tasks now ids st _ [size IH]];
      exists size; by constructor.
  - intros [size H]. induction H; by constructor.
Qed.

Lemma allAnnounced_insert (st0 st st' : State) (k : jsstring) (a b : Agent.t)
    (later more : list Push.t) :
  knownAgents st' = <[k := a]> (knownAgents st) ->
  (knownAgents st !! k = None ->
   Push.agent_join b ∈ more /\ Agent.id b = k) ->
  allAnnounced st0 st later -> allAnnounced st0 st' (later ++ more).
Proof.
  intros Hk Hnew Hall k' Hin. rewrite Hk in Hin.
  destruct (knownAgents st !! k') as [c|] eqn:Eold.
  - destruct (Hall k') as [H|(d & Hd & Hid)]; [by rewrite Eold|by left|].
    right. exists d. split; [|done]. apply elem_of_app. by left.
  - destruct (decide (k = k')) as [<-|Hne];
      [|rewrite lookup_insert_ne, Eold in Hin by done; by destruct Hin].
    destruct (Hnew Eold) as [Hb Hid]. right. exists b. split; [|done].
    apply elem_of_app. by right.
Qed.

(** X21: a client that connects misses no agent.  The snapshot it is sent
    holds the registry, the last 80 event records and the last 30
    messages; when the server has only run its handlers so far, each
    record of the snapshot names an agent of the snapshot.  Whatever the
    handlers do afterwards, each agent of the registry is either in the
    snapshot or was announced by an [agent_join] among the broadcasts
    made since. *)
Theorem late_client (st0 st : State) :
  reachable st0 -> reaches st0 st ->
  let snap := snapshotOf st0 in
  length (Snapshot.recentEvents snap) <= 80
  /\ length (Snapshot.recentMessages snap) <= 30
  /\ (forall r, r ∈ Snapshot.recentEvents snap ->
        is_Some (Snapshot.agents snap !! EventRecord.agentId r))
  /\ exists later,
       sent st = sent st0 ++ later /\ allAnnounced st0 st later.
Proof.
  intros Hr0 Hr snap.
  split; [unfold snap, snapshotOf; cbn; rewrite lastN_length; lia|].
  split; [unfold snap, snapshotOf; cbn; rewrite lastN_length; lia|].
  split.
  { intros r Hin. destruct (reachable_wellReferenced st0 Hr0) as [He _].
    apply He. unfold snap, snapshotOf, lastN in Hin.
    cbn [Snapshot.recentEvents] in Hin.
    by apply (subseteq_drop (length (recentEvents st0) - 80)). }
  revert st Hr.
  apply (reaches_steps_ind st0
           (fun st => exists later,
              sent st = sent st0 ++ later /\ allAnnounced st0 st later)).
  - intros st st' Hk _ _ _ [more Hs] (later & Hl & Hall).
    exists (later ++ more). split; [by rewrite Hs, Hl, app_assoc|].
    intros k Hin. rewrite Hk in Hin.
    destruct (Hall k Hin) as [H|(a & Ha & Hid)]; [by left|right].
    exists a. split; [|done]. apply elem_of_app. by left.
  - exists []. split; [by rewrite app_nil_r|]. intros k Hin. by left.
  - intros evt env st (later & Hl & Hall).
    destruct (processEvent_fields evt env st) as (_ & _ & _ & Fs & _).
    eexists. split; [rewrite Fs, Hl, <- app_assoc; reflexivity|].
    eapply allAnnounced_insert;
      [apply processEvent_knownAgents| |exact Hall].
    intros E. rewrite E. split; [apply list_elem_of_here|].
    destruct (getOrCreateAgent_registry (sessionIdOf evt) (hintsOf evt)
                (now env) st) as [_ Hnew].
    rewrite E in Hnew. by destruct Hnew as (_ & ? & _).
  - intros team t st _ (later & Hl & Hall). exists later. by split.
  - intros team now st member _ _ (later & Hl & Hall).
    destruct (registerMember_knownAgents team now st member) as (a & Fk & _).
    pose proof (registerMember_sent team now st member) as Fs.
    cbv zeta in Fs.
    eexists. split; [rewrite Fs, Hl, <- app_assoc; reflexivity|].
    eapply allAnnounced_insert; [exact Fk| |exact Hall].
    intros E. rewrite E. split; [apply list_elem_of_here|reflexivity].
Qed.

Lemma late_client_witness :
  let evt sid :=
    Evt.mk (Some sid) None None (Some (js "stop")) None None None None
      None None None None None None in
  let env := {| now := 1; messageId := []; recordId := [] |} in
  let st0 := processEvent (evt (js "s1")) env (initialState 0) in
  let st := processEvent (evt (js "s2")) env st0 in
  reachable st0 /\ reaches st0 st
  /\ exists later, sent st = sent st0 ++ later /\ allAnnounced st0 st later.
Proof.
  intros evt env st0 st.
  assert (Hr0 : reachable st0) by (apply reach_event, reach_start).
  assert (Hr : reaches st0 st) by (apply reaches_event, reaches_here).
  split; [exact Hr0|]. split; [exact Hr|].
  by destruct (late_client st0 st Hr0 Hr) as (_ & _ & _ & H).
Defined.

(** ** The context of an agent *)

Lemma updateAgent_team (evt : Evt.t) (now : Z) (a : Agent.t) :
  Agent.teamName (updateAgent evt now a) = Agent.teamName a
  /\ Agent.teamAgentId (updateAgent evt now a) = Agent.teamAgentId a
  /\ Agent.teamMemberName (updateAgent evt now a) = Agent.teamMemberName a.
Proof.
  unfold updateAgent, trackFile, touch, describeActivity, resolveStatus.
  cases.
Qed.

Lemma adoptPending_team (h sid : jsstring) (now : Z) (a : Agent.t)
    (st : State) :
  Agent.teamName (adoptPending h sid now a st).2 = Agent.teamName a
  /\ Agent.teamAgentId (adoptPending h sid now a st).2 = Agent.teamAgentId a
  /\ Agent.teamMemberName (adoptPending h sid now a st).2
     = Agent.teamMemberName a.
Proof.
  unfold adoptPending. destruct (_ && _); [|done].
  by destruct (findPending _ _ _ _) as [[idx p]|].
Qed.

Lemma applyHints_team (extra : Hints) (a : Agent.t) :
  Agent.teamName (applyHints extra a) = Agent.teamName a
  /\ Agent.teamAgentId (applyHints extra a) = Agent.teamAgentId a
  /\ Agent.teamMemberName (applyHints extra a) = Agent.teamMemberName a.
Proof. unfold applyHints. cases. Qed.

(** An event leaves the team of its agent as it was; a new agent has
    none. *)
Lemma agentAfter_team (evt : Evt.t) (env : Env) (st : State) :
  let after := agentAfter evt env st in
  match knownAgents st !! sessionIdOf evt with
  | Some a =>
      Agent.teamName after = Agent.teamName a
      /\ Agent.teamAgentId after = Agent.teamAgentId a
      /\ Agent.teamMemberName after = Agent.teamMemberName a
  | None => Agent.teamName after = None
  end.
Proof.
  intros after. unfold after, agentAfter.
  destruct (getOrCreateAgent_registry (sessionIdOf evt) (hintsOf evt)
              (now env) st) as [_ H].
  assert (Hnew : knownAgents st !! sessionIdOf evt = None ->
            Agent.teamName
              (getOrCreateAgent (sessionIdOf evt) (hintsOf evt) (now env)
                 st).2 = None).
  { intros E. unfold getOrCreateAgent. by rewrite E. }
  destruct (getOrCreateAgent _ _ _ _) as [st0 agent0]. cbn [snd] in *.
  match goal with
  | |- context [adoptPending ?h ?i ?n ?a ?s] =>
      destruct (adoptPending_team h i n a s) as (-> & -> & ->)
  end.
  destruct (updateAgent_team evt (now env) agent0) as (-> & -> & ->).
  destruct (knownAgents st !! sessionIdOf evt) as [a|].
  - destruct H as [_ ->]. apply applyHints_team.
  - by apply Hnew.
Qed.

Lemma reachable_teamsOk (st : State) : reachable st -> teamsOk st.
Proof.
  intros [size Hr]%reachable_reaches. revert st Hr.
  apply (reaches_steps_ind (initialState size) teamsOk).
  - intros st st' Hk _ _ Ht _ H k a team. rewrite Hk, Ht. apply H.
  - intros k a team H. cbn [initialState knownAgents] in H.
    by rewrite lookup_empty in H.
  - intros evt env st H k a team.
    destruct (processEvent_fields evt env st) as (_ & _ & _ & _ & -> & _).
    rewrite processEvent_knownAgents.
    destruct (decide (sessionIdOf evt = k)) as [<-|Hne];
      [|rewrite lookup_insert_ne by done; apply H].
    rewrite lookup_insert_eq. intros [= <-].
    pose proof (agentAfter_team evt env st) as Hteam. cbv zeta in Hteam.
    destruct (knownAgents st !! sessionIdOf evt) as [b|] eqn:E.
    + destruct Hteam as (-> & -> & ->). by apply H.
    + by rewrite Hteam.
  - intros team t st _ H k a team' Hk Ht.
    destruct (H k a team' Hk Ht) as (H1 & H2 & H3 & H4).
    split_and!; try done. cbn [teamsState set_teamsState].
    destruct (decide (team = team')) as [<-|Hne];
      [by rewrite lookup_insert_eq|by rewrite lookup_insert_ne].
  - intros team now st member Hne Hin H k a team'.
    destruct (registerMember_frame team now st member)
      as (_ & _ & _ & -> & _).
    destruct (registerMember_step team now st member)
      as (b & -> & _ & _ & Ht & Hi & _ & Hm & _).
    match goal with
    | |- context [getOrCreateAgent ?i ?e ?n ?s] =>
        destruct (getOrCreateAgent_registry i e n s) as [Hreg _];
        set (r := getOrCreateAgent i e n s) in *
    end.
    cbn [knownAgents set_knownAgents]. rewrite Hreg, insert_insert_eq.
    destruct (decide (memberAgentId team member = k)) as [<-|Hk];
      [|rewrite lookup_insert_ne by done; apply H].
    rewrite lookup_insert_eq. intros [= <-]. rewrite Ht. intros [= <-].
    split_and!; try done; by rewrite Hm.
Qed.

(** X22: an agent of a team always finds its team.  In every state the
    server reaches, an agent that carries the name of a team carries its
    own key as team id, and the server holds a snapshot of that team; so
    the context sent for such an agent always has the team information,
    with the number of members of the configuration stored, and an inbox
    of at most 50 messages. *)
Theorem team_agent_context (st : State) (k : jsstring) (a : Agent.t)
    (team : jsstring) :
  reachable st ->
  knownAgents st !! k = Some a -> Agent.teamName a = Some team ->
  Agent.teamAgentId a = Some k
  /\ exists t,
       teamsState st !! team = Some t
       /\ Context.teamInfo (agentContext k st)
          = Some {| TeamInfo.name := team;
                    TeamInfo.memberCount :=
                      length (default [] (members (Team.config t)));
                    TeamInfo.members :=
                      map memberSummary
                        (default [] (members (Team.config t))) |}
       /\ length (Context.inbox (agentContext k st)) <= 50.
Proof.
  intros Hr Hk Ht.
  destruct (reachable_teamsOk st Hr k a team Hk Ht)
    as (Hne & Hid & _ & [t Hteam]).
  split; [exact Hid|]. exists t. split; [exact Hteam|].
  unfold agentContext. rewrite Hk. cbv zeta. rewrite Ht.
  assert (Htr : truthy (Some team) = Some team) by (by destruct team).
  rewrite Htr, Hteam. cbn [Context.teamInfo Context.inbox].
  split; [reflexivity|]. rewrite lastN_length. lia.
Qed.

Lemma team_agent_context_witness :
  let ada := Member.mk (Some (js "ada")) None None None None None in
  let cfg := {| members := Some [ada] |} in
  let hello := InboxMsg.mk (Some (js "bob")) (js "hello") None false in
  let st :=
    onTeamsChange (js "crew/config.json") (Some cfg) {[ js "ada" := [hello] ]}
      ∅ 0 (fun _ => []) (initialState 0) in
  reachable st
  /\ Context.inbox (agentContext (js "ada@crew") st) = [hello]
  /\ exists t, teamsState st !! js "crew" = Some t.
Proof.
  intros ada cfg hello st.
  assert (Hr : reachable st) by (apply reach_teams, reach_start).
  split; [exact Hr|]. split; [by vm_compute|].
  destruct (knownAgents st !! js "ada@crew") as [a|] eqn:Hk;
    [|by vm_compute in Hk].
  assert (Ht : Agent.teamName a = Some (js "crew")).
  { vm_compute in Hk. by injection Hk as <-. }
  destruct (team_agent_context st (js "ada@crew") a (js "crew") Hr Hk Ht)
    as (_ & t & H & _).
  by exists t.
Defined.

(** ** The hook dispatcher and the server *)

Lemma truthy_default (o : option jsstring) (s : jsstring) :
  s <> [] -> truthy (Some (default s (truthy o))) = Some (default s (truthy o)).
Proof. intros Hs. destruct o as [[|c r]|]; by destruct s. Qed.

Lemma firstTruthy_default (l : list (option jsstring)) (s : jsstring) :
  s <> [] ->
  truthy (Some (default s (firstTruthy l))) = Some (default s (firstTruthy l)).
Proof.
  intros Hs. induction l as [|o l IH]; [by destruct s|].
  cbn [firstTruthy]. by destruct o as [[|c r]|].
Qed.

(** X23: what the server makes of a logged hook.  For the record the
    dispatcher logs, the server takes as session the [session_id] of the
    hook, else the variable [CLAUDE_SESSION_ID], else ["unknown"], and
    never the [sessionId] of the hook; as kind of event the
    [hook_event_name] of the hook when it has one, and only otherwise the
    argument of the dispatcher; the tool, its input and the file are
    those of the hook.  So a hook without [hook_event_name] that is
    logged as [pre_tool] puts its agent in the active status of its
    tool. *)
Theorem logged_event (hookData : option Evt.t)
    (argument envSession : option jsstring) (env : Env) (st : State) :
  let data := default Evt.empty hookData in
  let evt := logRecord hookData argument envSession in
  sessionIdOf evt
  = default (js "unknown") (firstTruthy [Evt.session_id data; envSession])
  /\ hookEventOf evt
     = default (default (js "unknown") (truthy argument))
         (truthy (Evt.hook_event_name data))
  /\ toolNameOf evt = toolNameOf data
  /\ toolInputOf evt = toolInputOf data
  /\ filePathOf evt = filePathOf data
  /\ (truthy (Evt.hook_event_name data) = None ->
      argument = Some (js "pre_tool") ->
      statusBefore (processEvent evt env st) (sessionIdOf evt)
      = activeStatus (toolNameOf data)).
Proof.
  intros data evt.
  assert (Hsid : sessionIdOf evt
                 = default (js "unknown")
                     (firstTruthy [Evt.session_id data; envSession])).
  { unfold sessionIdOf, evt, logRecord. fold data.
    cbn [Evt.session_id Evt.sessionId].
    set (x := default (js "unknown")
                (firstTruthy [Evt.session_id data; envSession])).
    assert (Hx : truthy (Some x) = Some x)
      by (by apply firstTruthy_default).
    cbn [firstTruthy]. by rewrite Hx. }
  assert (Hkind : hookEventOf evt
                  = default (default (js "unknown") (truthy argument))
                      (truthy (Evt.hook_event_name data))).
  { unfold hookEventOf, evt, logRecord. fold data.
    cbn [Evt.hook_event_name Evt.event Evt.type].
    set (x := default (js "unknown") (truthy argument)).
    assert (Hx : truthy (Some x) = Some x) by (by apply truthy_default).
    cbn [firstTruthy].
    destruct (truthy (Evt.hook_event_name data)); [done|]. by rewrite Hx. }
  split; [exact Hsid|]. split; [exact Hkind|].
  split; [reflexivity|]. split; [reflexivity|]. split; [reflexivity|].
  intros Hnone ->. unfold statusBefore. rewrite processEvent_agent.
  destruct (agentAfter_status evt env st) as [-> _].
  rewrite Hkind, Hnone. by rewrite resolveStatus_pre by (by left).
Qed.

Lemma logged_event_witness :
  let hook :=
    Evt.mk None (Some (js "camel")) None None None (Some (js "Read")) None
      None None None None None None None in
  let evt := logRecord (Some hook) (Some (js "pre_tool")) None in
  let env := {| now := 1; messageId := []; recordId := [] |} in
  sessionIdOf evt = js "unknown"
  /\ statusBefore (processEvent evt env (initialState 0)) (js "unknown")
     = reading.
Proof.
  intros hook evt env.
  destruct (logged_event (Some hook) (Some (js "pre_tool")) None env
              (initialState 0)) as (Hs & _ & _ & _ & _ & H).
  assert (E : sessionIdOf evt = js "unknown") by (by vm_compute).
  split; [exact E|]. pose proof (H eq_refl eq_refl) as H'.
  fold evt in H'. rewrite E in H'. rewrite H'. reflexivity.
Defined.

(** ** A write that is taken in silently *)

(** The parts of the path of a file of the directory [inboxes] of a
    team. *)
Lemma teamPath_parts (team file : jsstring) :
  isFileName team = true -> isFileName file = true ->
  splitBy isSlash (normalizeSeparators (team ++ js "/inboxes/" ++ file))
  = [team; js "inboxes"; file].
Proof.
  intros [Ht Hts]%isFileName_spec [Hg Hgs]%isFileName_spec.
  unfold normalizeSeparators in *. rewrite !map_app, Ht, Hg.
  change (map _ (js "/inboxes/")) with (47%N :: js "inboxes" ++ [47%N]).
  cbn [app]. rewrite <- app_assoc. cbn [app].
  rewrite (splitBy_app_sep isSlash team _ 47%N) by reflexivity.
  rewrite (splitBy_app_sep isSlash (js "inboxes") _ 47%N) by reflexivity.
  by rewrite !(splitBy_none isSlash) by done.
Qed.

Lemma tmpName (target : jsstring) :
  isFileName target = true ->
  isFileName (target ++ js ".json.tmp") = true
  /\ basenameJson (target ++ js ".json.tmp") = target ++ js ".json.tmp"
  /\ target ++ js ".json.tmp" <> target
  /\ target ++ js ".json.tmp" <> [].
Proof.
  intros H. split; [|split; [|split]].
  - unfold isFileName in *. by rewrite forallb_app, H.
  - unfold basenameJson. by rewrite rev_app_distr.
  - intros E. apply (f_equal length) in E. rewrite length_app in E.
    simpl in E. lia.
  - by destruct target.
Qed.

(** X24: a write that is taken in silently.  The server writes an inbox
    message through a temporary file that it renames, so the teams
    directory reports the temporary file too.  When the report of the
    temporary file is handled first, once the rename is done, the handler
    takes the new inbox into the snapshot of the team and, the report
    being for another file, broadcasts no inbox update; the handler of
    the report of the inbox file then finds nothing new.  So neither run
    makes an inbox update or a message for it, although the snapshot
    holds it. *)
Theorem own_write_absorbed (team target text : jsstring)
    (fromName : option jsstring) (iso : jsstring) (cfg : TeamConfig)
    (tasks tasks' : gmap jsstring jsstring) (now now' : Z)
    (ids ids' : nat -> jsstring) (disk : Disk) (st : State) :
  team <> [] -> target <> [] -> text <> [] ->
  isFileName team = true -> isFileName target = true ->
  readTeamInboxes disk team !! (target ++ js ".json.tmp") = None ->
  let r :=
    onSendInboxMessage (Some team) (Some target) fromName (Some text) iso
      disk in
  let inboxes := readTeamInboxes r.1 team in
  let st1 :=
    onTeamsChange (team ++ js "/inboxes/" ++ target ++ js ".json.tmp")
      (Some cfg) inboxes tasks now ids st in
  let st2 :=
    onTeamsChange (team ++ js "/inboxes/" ++ target ++ js ".json")
      (Some cfg) inboxes tasks' now' ids' st1 in
  inboxUpdates (sent st2) = inboxUpdates (sent st)
  /\ recentMessages st2 = recentMessages st
  /\ exists t msg,
       r.2 = Some msg
       /\ teamsState st2 !! team = Some t
       /\ last (default [] (Team.inboxes t !! target)) = Some msg.
Proof.
  intros Hteam Htarget Htext Hft Hfg Hnone r inboxes st1 st2.
  set (sender := default (js "observer") (truthy fromName)).
  assert (Hr : r = writeInboxMessage team target sender text iso disk).
  { unfold r, onSendInboxMessage. by destruct team, target, text. }
  destruct (writeInboxMessage_read team target sender text iso disk)
    as (H2 & Hread & Hother & _).
  rewrite <- Hr in H2, Hread, Hother. fold inboxes in Hread, Hother.
  destruct (tmpName target Hfg) as (Hftmp & Hbase & Hne & Hnil).
  pose proof (teamPath_parts team (target ++ js ".json.tmp") Hft Hftmp)
    as Hparts1.
  pose proof (inboxPath_parts team target Hft Hfg) as Hparts2.
  assert (Htr : truthy (Some team) = Some team) by (by destruct team).
  (* the report of the temporary file *)
  assert (H1 : inboxUpdates (sent st1) = inboxUpdates (sent st)
               /\ recentMessages st1 = recentMessages st).
  { pose proof (onTeamsChange_inbox
                  (team ++ js "/inboxes/" ++ target ++ js ".json.tmp") team
                  (target ++ js ".json.tmp") cfg inboxes tasks now ids st)
      as H.
    cbv zeta in H. rewrite Hparts1, Hbase, (Hother _ Hne), Hnone in H.
    fold st1 in H. unfold newInboxMessages in H.
    change (default [] None) with (@nil InboxMsg.t) in H.
    rewrite drop_nil, app_nil_r in H. split; [by apply H|].
    unfold st1, onTeamsChange. rewrite Hparts1.
    change ([team; js "inboxes"; target ++ js ".json.tmp"] !! 0)
      with (Some team).
    change ([team; js "inboxes"; target ++ js ".json.tmp"] !! 1)
      with (Some (js "inboxes")).
    change ([team; js "inboxes"; target ++ js ".json.tmp"] !! 2)
      with (Some (target ++ js ".json.tmp")).
    change (equalsLit (Some (js "inboxes")) "config.json") with false.
    change (equalsLit (Some (js "inboxes")) "inboxes") with true.
    assert (Hf : truthy (Some (target ++ js ".json.tmp"))
                 = Some (target ++ js ".json.tmp")) by (by destruct target).
    rewrite Htr, Hf. cbv iota. rewrite Hbase, (Hother _ Hne), Hnone.
    unfold newInboxMessages.
    change (default [] None) with (@nil InboxMsg.t). rewrite drop_nil.
    cbn [length Nat.ltb Nat.leb].
    match goal with
    | |- context [fold_left ?f ?l ?s] =>
        by destruct (registerMembers_frame team now l s) as (_ & -> & _)
    end. }
  destruct H1 as [H1 H1'].
  (* the snapshot after it, and the report of the inbox file *)
  destruct (onTeamsChange_shape
              (team ++ js "/inboxes/" ++ target ++ js ".json.tmp") team cfg
              inboxes tasks now ids st) as [Hk1 Ht1].
  { rewrite Hparts1. exact Htr. }
  fold st1 in Hk1, Ht1.
  match type of Hk1 with
  | _ = knownAgents (fold_left ?f ?l ?s) =>
      destruct (registerMembers_tagged team now l s) as (_ & _ & Hall);
      destruct (registerMembers_frame team now l s) as (_ & _ & _ & Hts & _)
  end.
  rewrite <- Hk1 in Hall. rewrite Hts in Ht1.
  cbn [teamsState set_teamsState] in Ht1.
  destruct (onTeamsChange_quiet
              (team ++ js "/inboxes/" ++ target ++ js ".json") team cfg
              (Team.mk cfg inboxes tasks) inboxes tasks' now' ids' st1)
    as (Q1 & Q2 & _ & _ & Q5 & _); try done.
  - rewrite Hparts2. exact Htr.
  - by rewrite Hparts2.
  - by rewrite Ht1, lookup_insert_eq.
  - intros m Hm. destruct (Hall m Hm) as (a & Ha & _). by exists a.
  - fold st2 in Q1, Q2, Q5. split; [by rewrite Q1|].
    split; [by rewrite Q2|].
    eexists _, _. split; [exact H2|]. rewrite Q5, lookup_insert_eq.
    split; [reflexivity|]. cbn [Team.inboxes]. rewrite Hread.
    apply last_snoc.
Qed.

Lemma own_write_absorbed_witness :
  let ada := Member.mk (Some (js "ada")) None None None None None in
  let cfg := {| members := Some [ada] |} in
  let r :=
    onSendInboxMessage (Some (js "crew")) (Some (js "ada")) None
      (Some (js "hi")) (js "2026") ∅ in
  let inboxes := readTeamInboxes r.1 (js "crew") in
  let st1 :=
    onTeamsChange (js "crew/inboxes/ada.json.tmp") (Some cfg) inboxes ∅ 5
      (fun _ => js "m") (initialState 0) in
  let st2 :=
    onTeamsChange (js "crew/inboxes/ada.json") (Some cfg) inboxes ∅ 6
      (fun _ => js "m") st1 in
  inboxUpdates (sent st2) = [] /\ recentMessages st2 = []
  /\ length (default [] (inboxes !! js "ada")) = 1.
Proof.
  intros ada cfg r inboxes st1 st2.
  destruct (own_write_absorbed (js "crew") (js "ada") (js "hi") None
              (js "2026") cfg ∅ ∅ 5 6 (fun _ => js "m") (fun _ => js "m") ∅
              (initialState 0))
    as (H1 & H2 & _); [done|done|done|reflexivity|reflexivity|by vm_compute|].
  split; [exact H1|]. split; [exact H2|by vm_compute].
Defined.

(** * The handlers on events as they come *)

(** ** Well-typed events *)

Lemma textOf_valueOf (o : option jsstring) : textOf (valueOf o) = o.
Proof. by destruct o. Qed.

Lemma viewInput_rawInput (i : ToolInput.t) : viewInput (rawInput i) = i.
Proof.
  destruct i. unfold viewInput, rawInput. cbn. by rewrite !textOf_valueOf.
Qed.

Lemma viewResponse_rawResponse (r : ToolResponse.t) :
  viewResponse (rawResponse r) = r.
Proof.
  destruct r. unfold viewResponse, rawResponse. cbn.
  by rewrite !textOf_valueOf.
Qed.

Lemma viewEvt_rawEvt (evt : Evt.t) : viewEvt (rawEvt evt) = evt.
Proof.
  destruct evt as [a b c d e f g input h i j k response tokens].
  unfold viewEvt, rawEvt. cbn. rewrite !textOf_valueOf.
  f_equal.
  - destruct input as [input|]; [|reflexivity]. cbn.
    by rewrite viewInput_rawInput.
  - destruct response as [response|]; [|reflexivity]. cbn.
    by rewrite viewResponse_rawResponse.
  - by destruct tokens.
Qed.

(** The first truthy value, when it is a string, is the first truthy
    string of the view. *)
Lemma firstValue_view (l : list Value) :
  isOther (firstValue l) = false ->
  firstTruthy (textOf <$> l) = textOf (firstValue l)
  /\ (firstValue l = missing \/ exists c s, firstValue l = text (c :: s)).
Proof.
  induction l as [|v l IH]; cbn [firstValue fmap list_fmap firstTruthy].
  - intros _. split; [reflexivity|by left].
  - destruct v as [|[|c s]|]; cbn [textOf truthy]; try exact IH.
    + intros _. split; [reflexivity|right; by exists c, s].
    + done.
Qed.

Lemma firstValue_typed (l : list (option jsstring)) :
  isOther (firstValue (valueOf <$> l)) = false.
Proof.
  induction l as [|[[|c s]|] l IH]; cbn [firstValue fmap list_fmap valueOf];
    done.
Qed.



Lemma amountOf_typed (evt : Evt.t) :
  amountOf (rawEvt evt) = Some (estimateTokens evt (toolInputOf evt)).
Proof.
  unfold amountOf, estimateOf, estimateTokens, toolInputOf, rawEvt.
  cbn [RawEvt.tokens RawEvt.tool_response RawEvt.tool_input firstValue].
  assert (Hin :
    match
      match RawInput.content
              (default RawInput.empty (rawInput <$> Evt.tool_input evt)) with
      | other => other
      | text (c :: s) => text (c :: s)
      | _ => missing
      end
    with
    | other => None
    | text c => Some (quarter c)
    | missing => Some 0%Z
    end
    = Some match truthy (ToolInput.content
                           (default ToolInput.empty (Evt.tool_input evt))) with
           | Some c => quarter c
           | None => 0%Z
           end).
  { destruct (Evt.tool_input evt) as [[? ? ? [[|c s]|] ? ? ? ? ?]|];
      reflexivity. }
  rewrite Hin.
  assert (Hout :
    match rawResponse <$> Evt.tool_response evt with
    | Some resp =>
        match
          match RawResponse.file_content resp with
          | other => other
          | text (c :: s) => text (c :: s)
          | _ => missing
          end
        with
        | other => None
        | text c => Some (quarter c)
        | missing =>
            match
              match RawResponse.stdout resp with
              | other => other
              | text (c :: s) => text (c :: s)
              | _ => missing
              end
            with
            | other => None
            | text o => Some (quarter o)
            | missing =>
                match RawResponse.filenames resp with
                | Some names => Some (quarter names)
                | None => Some 0%Z
                end
            end
        end
    | None => Some 0%Z
    end
    = Some match Evt.tool_response evt with
           | Some resp =>
               match truthy (ToolResponse.file_content resp) with
               | Some c => quarter c
               | None =>
                   match truthy (ToolResponse.stdout resp) with
                   | Some o => quarter o
                   | None =>
                       match ToolResponse.filenames resp with
                       | Some names => quarter names
                       | None => 0%Z
                       end
                   end
               end
           | None => 0%Z
           end).
  { destruct (Evt.tool_response evt) as [[[[|c1 s1]|] [[|c2 s2]|] [fn|]]|];
      reflexivity. }
  rewrite Hout.
  destruct (Evt.tokens evt) as [t|]; [|reflexivity].
  by destruct (t =? 0)%Z.
Qed.

(** ** The ends of [processRaw] *)

Lemma sessionIdOf_view (raw : RawEvt.t) :
  isOther (firstValue [RawEvt.session_id raw; RawEvt.sessionId raw]) = false ->
  firstValue [RawEvt.session_id raw; RawEvt.sessionId raw] = missing
  /\ sessionIdOf (viewEvt raw) = js "unknown"
  \/ exists c s,
       firstValue [RawEvt.session_id raw; RawEvt.sessionId raw]
       = text (c :: s)
       /\ sessionIdOf (viewEvt raw) = c :: s.
Proof.
  intros H. destruct (firstValue_view _ H) as [Hv Hc].
  unfold sessionIdOf.
  change [Evt.session_id (viewEvt raw); Evt.sessionId (viewEvt raw)]
    with (textOf <$> [RawEvt.session_id raw; RawEvt.sessionId raw]).
  rewrite Hv. destruct Hc as [Hc|(c & s & Hc)]; rewrite Hc.
  - by left.
  - right. by exists c, s.
Qed.


(** How [processRaw] ends: before anything is done; once the status is
    set; once the record of the agent is updated; at the end of
    [processEvent]; or in a state that is not modelled. *)
Lemma processRaw_cases (raw : RawEvt.t) (env : Env) (st : State) :
  let evt := viewEvt raw in
  let sid := sessionIdOf evt in
  let st0 := (getOrCreateAgent sid (hintsOf evt) (now env) st).1 in
  let agent0 := (getOrCreateAgent sid (hintsOf evt) (now env) st).2 in
  let store a := set_knownAgents (<[sid := a]> (knownAgents st0)) st0 in
  processRaw raw env st = abandoned st
  \/ (processRaw raw env st
      = abandoned
          (store (resolveStatus (hookEventOf evt) (toolNameOf evt) (now env)
                    agent0))
      /\ is_Some (toolNameOf evt) /\ isPreTool (hookEventOf evt) = true)
  \/ (exists amount,
        amountOf raw = Some amount
        /\ exactSum (Agent.tokens agent0) amount = true
        /\ (processRaw raw env st
            = abandoned (store (updateAgent evt (now env) agent0))
            /\ equalsLit (toolNameOf evt) "Task" = true
            /\ isPreTool (hookEventOf evt) = true
            \/ processRaw raw env st = finished (processEvent evt env st)))
  \/ processRaw raw env st = unmodelled.
Proof.
  intros evt sid. cbv zeta. unfold processRaw. fold evt sid.
  destruct (isOther (firstValue [RawEvt.model raw])
            || isOther (firstValue [RawEvt.session_id raw;
                                    RawEvt.sessionId raw]));
    [by left|].
  destruct (getOrCreateAgent sid (hintsOf evt) (now env) st) as [s0 a0].
  cbn [fst snd].
  destruct (isOther (firstValue _)).
  { destruct (bool_decide (is_Some (toolNameOf evt))) eqn:Ht;
      [|right; right; right; reflexivity].
    destruct (isPreTool (hookEventOf evt)) eqn:Hp;
      [|right; right; right; reflexivity].
    right; left. split; [reflexivity|].
    split; [by apply bool_decide_eq_true in Ht|reflexivity]. }
  destruct (amountOf raw) as [amount|]; [|by right; right; right].
  destruct (exactSum (Agent.tokens a0) amount) eqn:He;
    [|by right; right; right].
  destruct (equalsLit (toolNameOf evt) "Task" && isPreTool (hookEventOf evt)
            && isOther (firstValue _)) eqn:Hd.
  { apply andb_true_iff in Hd as [[Ht Hp]%andb_true_iff _].
    right; right; left. exists amount. split_and!; try done. by left. }
  destruct (equalsLit (toolNameOf evt) "SendMessage" && _);
    [by right; right; right|].
  right; right; left. exists amount. split_and!; try done. by right.
Qed.

(** An event handled to its end is handled as [processEvent] handles its
    view, and its tokens are an exact sum. *)
Lemma processRaw_finished (raw : RawEvt.t) (env : Env) (st st' : State) :
  processRaw raw env st = finished st' ->
  st' = processEvent (viewEvt raw) env st
  /\ exists amount,
       amountOf raw = Some amount
       /\ exactSum (tokensBefore st (sessionIdOf (viewEvt raw))) amount = true.
Proof.
  intros H.
  destruct (processRaw_cases raw env st)
    as [H'|[[H' _]|[(amount & Ha & He & [[H' _]|H'])|H']]];
    rewrite H' in H; try done.
  injection H as <-. split; [reflexivity|]. exists amount.
  split; [exact Ha|].
  by rewrite (proj1 (getOrCreateAgent_counters _ _ _ _)) in He.
Qed.

(** A well-typed event is handled to its end, as [processEvent] handles
    it, when its tokens are an exact sum. *)
Lemma processRaw_typed (evt : Evt.t) (env : Env) (st : State) :
  processRaw (rawEvt evt) env st
  = if exactSum (tokensBefore st (sessionIdOf evt))
         (estimateTokens evt (toolInputOf evt))
    then finished (processEvent evt env st) else unmodelled.
Proof.
  unfold processRaw. rewrite viewEvt_rawEvt, amountOf_typed.
  change (firstValue [RawEvt.model (rawEvt evt)])
    with (firstValue (valueOf <$> [Evt.model evt])).
  change (firstValue [RawEvt.session_id (rawEvt evt);
                      RawEvt.sessionId (rawEvt evt)])
    with (firstValue (valueOf <$> [Evt.session_id evt; Evt.sessionId evt])).
  rewrite !firstValue_typed. cbn [orb].
  rewrite <- (proj1 (getOrCreateAgent_counters (sessionIdOf evt) (hintsOf evt)
                       (now env) st)).
  destruct (getOrCreateAgent _ _ _ _) as [st0 agent0]. cbn [snd].
  assert (Hin : forall f : RawInput.t -> list Value,
            (forall i, exists l, f (rawInput i) = valueOf <$> l) ->
            (exists l, f RawInput.empty = valueOf <$> l) ->
            isOther (firstValue
                       (f (default RawInput.empty
                             (RawEvt.tool_input (rawEvt evt))))) = false).
  { intros f Hf He. cbn [rawEvt RawEvt.tool_input].
    destruct (Evt.tool_input evt) as [i|].
    - change (isOther (firstValue (f (rawInput i))) = false).
      destruct (Hf i) as [l ->]. apply firstValue_typed.
    - change (isOther (firstValue (f RawInput.empty)) = false).
      destruct He as [l ->]. apply firstValue_typed. }
  rewrite (Hin (fun i => [RawInput.file_path i; RawInput.command i;
                          RawInput.path i])).
  2:{ intros i. by exists [ToolInput.file_path i; ToolInput.command i;
                           ToolInput.path i]. }
  2:{ by exists [None; None; None]. }
  destruct (exactSum _ _); [|reflexivity].
  rewrite (Hin (fun i => [RawInput.description i; RawInput.prompt i;
                          RawInput.task i; RawInput.message i;
                          RawInput.content i])).
  2:{ intros i. by exists [ToolInput.description i; ToolInput.prompt i;
                           ToolInput.task i; ToolInput.message i;
                           ToolInput.content i]. }
  2:{ by exists [None; None; None; None; None]. }
  rewrite andb_false_r.
  assert (Hu : unreadable
                 (firstValue [RawInput.to (default RawInput.empty
                                (RawEvt.tool_input (rawEvt evt)))])
                 (firstValue [RawInput.message (default RawInput.empty
                                (RawEvt.tool_input (rawEvt evt)));
                              RawInput.content (default RawInput.empty
                                (RawEvt.tool_input (rawEvt evt)))]) = false).
  { pose proof (Hin (fun i => [RawInput.to i])) as H1.
    pose proof (Hin (fun i => [RawInput.message i; RawInput.content i])) as H2.
    cbv beta in H1, H2. unfold unreadable.
    rewrite H2.
    - destruct (firstValue _); try done. rewrite <- H1; [done| |].
      + intros i. by exists [ToolInput.to i].
      + by exists [None].
    - intros i. by exists [ToolInput.message i; ToolInput.content i].
    - by exists [None; None]. }
  rewrite Hu. by rewrite andb_false_r.
Qed.

(** What an event that is abandoned leaves alone. *)
Lemma processRaw_abandoned_frame (raw : RawEvt.t) (env : Env)
    (st st' : State) :
  processRaw raw env st = abandoned st' ->
  recentEvents st' = recentEvents st
  /\ recentMessages st' = recentMessages st
  /\ pendingTasks st' = pendingTasks st
  /\ teamsState st' = teamsState st
  /\ eventsFileSize st' = eventsFileSize st.
Proof.
  intros H.
  pose proof (getOrCreateAgent_frame (sessionIdOf (viewEvt raw))
                (hintsOf (viewEvt raw)) (now env) st) as F.
  cbv zeta in F.
  destruct (processRaw_cases raw env st)
    as [H'|[[H' _]|[(amount & _ & _ & [[H' _]|H'])|H']]];
    rewrite H' in H; try done; by injection H as <-.
Qed.


(** ** Counters *)








(** ** Events without a session *)





(** ** Ring buffers *)

Lemma processAll_cons (e : Evt.t * Env) (events : list (Evt.t * Env))
    (st : State) :
  processAll (e :: events) st = processAll events (processEvent e.1 e.2 st).
Proof. reflexivity. Qed.

(** The events buffer after a run of events: the records of the run are
    pushed one after another. *)
Lemma processAll_recentEvents (events : list (Evt.t * Env)) (st : State) :
  recentEvents (processAll events st)
  = fold_left (ringPush MAX_EVENTS) (recordsOf events st) (recentEvents st).
Proof.
  revert st. induction events as [|e events IH]; intros st; [reflexivity|].
  rewrite processAll_cons, IH. cbn [recordsOf fold_left].
  by rewrite (proj1 (proj2 (proj2 (processEvent_fields e.1 e.2 st)))).
Qed.

Lemma recordsOf_length (events : list (Evt.t * Env)) (st : State) :
  length (recordsOf events st) = length events.
Proof.
  revert st. induction events as [|e events IH]; intros st; [reflexivity|].
  cbn [recordsOf length]. by rewrite IH.
Qed.

Lemma recordsOf_ids (events : list (Evt.t * Env)) (st : State) :
  EventRecord.id <$> recordsOf events st = (fun e => recordId e.2) <$> events.
Proof.
  revert st. induction events as [|e events IH]; intros st; [reflexivity|].
  cbn [recordsOf fmap list_fmap]. f_equal. apply IH.
Qed.

Lemma messagesKept_length (evt : Evt.t) (env : Env) (st : State) :
  length (messagesKept evt env st) = length (recentMessages st).
Proof.
  unfold messagesKept. destruct (adoptedBy evt env st) as [[idx p]|];
    [apply retarget_length|reflexivity].
Qed.

Lemma drop1_snoc {A} (buf : list A) (x : A) :
  buf <> [] -> drop 1 (buf ++ [x]) = drop 1 buf ++ [x].
Proof. by destruct buf. Qed.

Lemma runs_processAll (events : list (Evt.t * Env)) (st : State) :
  runs st -> runs (processAll events st).
Proof.
  revert st. induction events as [|e events IH]; intros st H; [exact H|].
  rewrite processAll_cons. by apply IH, runs_event.
Qed.

(** The states reached by handlers that run to their ends are among
    those reached step by step. *)
Lemma reachable_runs (st : State) : reachable st -> runs st.
Proof.
  induction 1 as [size|evt env st _ IH|parse envs eventType file st _ IH
                  |filename config inboxes tasks now ids st _ IH].
  - apply runs_start.
  - by apply runs_event.
  - unfold onEventsFileChange.
    destruct eventType, file as [content|]; try exact IH.
    destruct (_ <=? _); [by apply runs_offset|].
    rewrite ingest_accepted. by apply runs_processAll, runs_offset.
  - by apply runs_teams.
Qed.

Lemma ingestRaw_runs parse envs (i : nat) (lines : list (list Byte.byte))
    (st st' : State) :
  runs st -> ingestRaw parse envs i lines st = Some st' -> runs st'.
Proof.
  revert i st. induction lines as [|line rest IH]; intros i st Hr;
    cbn [ingestRaw]; [by intros [= <-]|].
  destruct (parse line) as [raw|]; [|by apply IH].
  destruct (processRaw raw (envs i) st) as [s|s|] eqn:E; [| |done];
    apply IH; apply (runs_raw raw (envs i) st s Hr); auto.
Qed.

Lemma runs_bounded (st : State) : runs st -> bounded st.
Proof.
  induction 1 as [size|evt env st _ IH|raw env st st' _ IH [H|H]|size st _ IH
                  |filename config inboxes tasks now ids st _ IH].
  - split; simpl; unfold MAX_EVENTS, MAX_MESSAGES; lia.
  - by apply processEvent_bounded.
  - apply processRaw_finished in H as [-> _]. by apply processEvent_bounded.
  - destruct (processRaw_abandoned_frame raw env st st' H) as (He & Hm & _).
    unfold bounded. by rewrite He, Hm.
  - exact IH.
  - by apply onTeamsChange_bounded.
Qed.

(** C4: the two ring buffers.  At every state the server goes through,
    whether its handlers run to their ends or events are abandoned on the
    way, the events buffer holds at most 500 records and the messages
    buffer at most 100.  An event handled at such a state pushes its record: onto
    the end of the events buffer when that holds fewer than 500, and
    otherwise onto the end of what is left of it once its oldest record is
    removed; and so for the message of the event, if it makes one, and
    the messages buffer with its 100 places (one of the messages there
    may be readdressed by the same event, where it is).  So after a run of
    events the events buffer holds the last 500 of the records it held
    and of those of the run, in the order they came: 501 events from an
    empty buffer leave the records of the last 500, without that of the
    first.  An event that is abandoned pushes nothing. *)
Theorem ring_buffers (st : State) :
  runs st ->
  (length (recentEvents st) <= 500 /\ length (recentMessages st) <= 100)
  /\ (forall (evt : Evt.t) (env : Env),
        let st' := processEvent evt env st in
        let record := recordOf evt env (agentAfter evt env st) in
        let kept := messagesKept evt env st in
        (length (recentEvents st) < 500 ->
         recentEvents st' = recentEvents st ++ [record])
        /\ (length (recentEvents st) = 500 ->
            recentEvents st' = drop 1 (recentEvents st) ++ [record])
        /\ length kept = length (recentMessages st)
        /\ (messageOf evt env = None -> recentMessages st' = kept)
        /\ (forall m, messageOf evt env = Some m ->
              (length kept < 100 -> recentMessages st' = kept ++ [m])
              /\ (length kept = 100 ->
                  recentMessages st' = drop 1 kept ++ [m])))
  /\ (forall events : list (Evt.t * Env),
        recentEvents (processAll events st)
        = lastN 500 (recentEvents st ++ recordsOf events st))
  /\ (forall (first : Evt.t * Env) (others : list (Evt.t * Env)),
        recentEvents st = [] ->
        length others = 500 ->
        recentEvents (processAll (first :: others) st)
        = recordsOf others (processEvent first.1 first.2 st))
  /\ (forall (raw : RawEvt.t) (env : Env) (st' : State),
        processRaw raw env st = abandoned st' ->
        recentEvents st' = recentEvents st
        /\ recentMessages st' = recentMessages st).
Proof.
  intros Hr. pose proof (runs_bounded st Hr) as [He Hm].
  unfold MAX_EVENTS in He. unfold MAX_MESSAGES in Hm.
  assert (Hrun : forall events : list (Evt.t * Env),
            recentEvents (processAll events st)
            = lastN 500 (recentEvents st ++ recordsOf events st)).
  { intros events. rewrite processAll_recentEvents.
    by apply ringPush_all. }
  split; [by split|]. split; [|split; [exact Hrun|split]].
  - intros evt env st' record kept.
    destruct (processEvent_fields evt env st) as (_ & Hmsgs & Hevts & _).
    fold st' record in Hevts. fold st' in Hmsgs.
    change (match adoptedBy evt env st with
            | Some (_, p) => retarget p (sessionIdOf evt) (recentMessages st)
            | None => recentMessages st
            end) with kept in Hmsgs.
    split; [|split; [|split; [|split]]].
    + intros Hlt. rewrite Hevts. by apply ringPush_room.
    + intros Heq. rewrite Hevts, ringPush_full by done.
      apply drop1_snoc. intros E. by rewrite E in Heq.
    + apply messagesKept_length.
    + intros Hnone. by rewrite Hmsgs, Hnone.
    + intros m Hsome. rewrite Hsome in Hmsgs. split.
      * intros Hlt. rewrite Hmsgs. by apply ringPush_room.
      * intros Heq. rewrite Hmsgs, ringPush_full by done.
        apply drop1_snoc. intros E. by rewrite E in Heq.
  - intros first others Hnil Hlen. rewrite Hrun, Hnil. cbn [app recordsOf].
    unfold lastN. cbn [length]. rewrite recordsOf_length, Hlen.
    reflexivity.
  - intros raw env st' H.
    by destruct (processRaw_abandoned_frame raw env st st' H) as (-> & -> & _).
Qed.

(** 501 log lines from the start, the [i]-th giving its record the
    identifier [i]: the buffer then holds the records 1 to 500, in that
    order. *)
Lemma ring_buffers_witness :
  let line (i : nat) :=
    (Evt.empty,
     {| now := Z.of_nat i; messageId := []; recordId := [N.of_nat i] |}) in
  let st := processAll (line <$> seq 0 501) (initialState 0) in
  runs (initialState 0)
  /\ length (recentEvents st) = 500
  /\ EventRecord.id <$> recentEvents st
     = (fun i => [N.of_nat i]) <$> seq 1 500.
Proof.
  intros line st.
  assert (Hr : runs (initialState 0)) by apply runs_start.
  destruct (ring_buffers (initialState 0) Hr) as (_ & _ & _ & Hrun & _).
  assert (Hseq : line <$> seq 0 501 = line 0 :: (line <$> seq 1 500))
    by reflexivity.
  assert (Hst : recentEvents st
                = recordsOf (line <$> seq 1 500)
                    (processEvent (line 0).1 (line 0).2 (initialState 0))).
  { unfold st. rewrite Hseq. apply Hrun; [reflexivity|].
    by rewrite length_fmap, length_seq. }
  split; [exact Hr|]. rewrite Hst. split.
  - by rewrite recordsOf_length, length_fmap, length_seq.
  - rewrite recordsOf_ids, <- list_fmap_compose. reflexivity.
Defined.

(** ** Tailing the events file, step by step *)

Lemma processRaw_eventsFileSize (raw : RawEvt.t) (env : Env)
    (st st' : State) :
  processRaw raw env st = finished st' \/ processRaw raw env st = abandoned st' ->
  eventsFileSize st' = eventsFileSize st.
Proof.
  intros [H|H].
  - apply processRaw_finished in H as [-> _].
    apply processEvent_eventsFileSize.
  - by destruct (processRaw_abandoned_frame raw env st st' H)
      as (_ & _ & _ & _ & ->).
Qed.

(** The offset is no part of what [processRaw] reads. *)
Lemma processRaw_set_eventsFileSize (raw : RawEvt.t) (env : Env) (n : nat)
    (st : State) :
  processRaw raw env (set_eventsFileSize n st)
  = mapOutcome (set_eventsFileSize n) (processRaw raw env st).
Proof.
  unfold processRaw.
  destruct (_ || _); [reflexivity|].
  assert (Hg : getOrCreateAgent (sessionIdOf (viewEvt raw))
                 (hintsOf (viewEvt raw)) (now env) (set_eventsFileSize n st)
               = (set_eventsFileSize n
                    (getOrCreateAgent (sessionIdOf (viewEvt raw))
                       (hintsOf (viewEvt raw)) (now env) st).1,
                  (getOrCreateAgent (sessionIdOf (viewEvt raw))
                     (hintsOf (viewEvt raw)) (now env) st).2)).
  { unfold getOrCreateAgent. cbn [knownAgents set_eventsFileSize].
    by destruct (knownAgents st !! sessionIdOf (viewEvt raw)). }
  rewrite Hg.
  destruct (getOrCreateAgent _ _ _ st) as [st0 agent0]. cbn [fst snd].
  destruct (isOther _).
  { by destruct (_ && _). }
  destruct (amountOf raw); [|reflexivity].
  destruct (exactSum _ _); [|reflexivity].
  destruct (_ && _); [reflexivity|].
  destruct (_ && _); [reflexivity|].
  cbn [mapOutcome]. by rewrite processEvent_set_eventsFileSize.
Qed.

Section EventsFileStepsFacts.

Variable parse : list Byte.byte -> option RawEvt.t.

Lemma ingestRaw_eventsFileSize envs (i : nat) (lines : list (list Byte.byte))
    (st st' : State) :
  ingestRaw parse envs i lines st = Some st' ->
  eventsFileSize st' = eventsFileSize st.
Proof.
  revert i st. induction lines as [|line rest IH]; intros i st;
    cbn [ingestRaw]; [by intros [= <-]|].
  destruct (parse line) as [raw|]; [|apply IH].
  destruct (processRaw raw (envs i) st) as [s|s|] eqn:E; [| |done];
    intros H; rewrite (IH _ _ H);
    apply (processRaw_eventsFileSize raw (envs i)); auto.
Qed.

Lemma ingestRaw_set_eventsFileSize envs (i n : nat)
    (lines : list (list Byte.byte)) (st : State) :
  ingestRaw parse envs i lines (set_eventsFileSize n st)
  = set_eventsFileSize n <$> ingestRaw parse envs i lines st.
Proof.
  revert i st. induction lines as [|line rest IH]; intros i st;
    cbn [ingestRaw]; [reflexivity|].
  destruct (parse line) as [raw|]; [|apply IH].
  rewrite processRaw_set_eventsFileSize.
  destruct (processRaw raw (envs i) st) as [s|s|]; cbn [mapOutcome];
    [apply IH|apply IH|reflexivity].
Qed.

Lemma ingestRaw_shift envs envs2 (k i : nat) (lines : list (list Byte.byte))
    (st : State) :
  (forall j, envs2 (k + j) = envs (i + j)) ->
  ingestRaw parse envs2 k lines st = ingestRaw parse envs i lines st.
Proof.
  revert k i st. induction lines as [|l lines IH]; intros k i st H;
    [reflexivity|].
  cbn [ingestRaw]. pose proof (H 0) as H0. rewrite !Nat.add_0_r in H0.
  rewrite H0.
  assert (Hnext : forall s,
            ingestRaw parse envs2 (S k) lines s
            = ingestRaw parse envs (S i) lines s).
  { intros s. apply IH. intros j.
    replace (S k + j) with (k + S j) by lia.
    replace (S i + j) with (i + S j) by lia. apply H. }
  destruct (parse l) as [raw|]; [|apply Hnext].
  destruct (processRaw raw (envs i) st); [apply Hnext|apply Hnext|done].
Qed.

Lemma ingestRaw_app envs envs2 (i : nat) (l1 l2 : list (list Byte.byte))
    (st : State) :
  (forall j, envs2 j = envs (i + length l1 + j)) ->
  ingestRaw parse envs i (l1 ++ l2) st
  = ingestRaw parse envs i l1 st ≫= ingestRaw parse envs2 0 l2.
Proof.
  revert i st. induction l1 as [|l l1 IH]; intros i st H;
    cbn [app ingestRaw].
  - cbn. symmetry. apply ingestRaw_shift. intros j. rewrite H. cbn [length].
    f_equal. lia.
  - assert (Hnext : forall s,
              ingestRaw parse envs (S i) (l1 ++ l2) s
              = ingestRaw parse envs (S i) l1 s ≫= ingestRaw parse envs2 0 l2).
    { intros s. apply IH. intros j. rewrite H. cbn [length]. f_equal. lia. }
    destruct (parse l) as [raw|]; [|apply Hnext].
    destruct (processRaw raw (envs i) st); [apply Hnext|apply Hnext|done].
Qed.


(** On well-typed events the loop is the loop of [ingest]. *)
Lemma ingestRaw_typed (typed : list Byte.byte -> option Evt.t) envs
    (i : nat) (lines : list (list Byte.byte)) (st st' : State) :
  (forall line, parse line = rawEvt <$> typed line) ->
  ingestRaw parse envs i lines st = Some st' ->
  st' = ingest typed envs i lines st.
Proof.
  intros Hparse. revert i st. induction lines as [|line rest IH];
    intros i st; cbn [ingestRaw ingest]; [by intros [= <-]|].
  rewrite Hparse. destruct (typed line) as [evt|]; cbn; [|apply IH].
  rewrite processRaw_typed. destruct (exactSum _ _); [apply IH|done].
Qed.

End EventsFileStepsFacts.

Lemma bytesRead_spec (r : Reading) (seen more later : list Byte.byte) :
  length seen = start r ->
  bytesRead r (seen ++ more ++ later) = more ++ later.
Proof. unfold bytesRead. intros <-. by rewrite drop_app_length. Qed.


(** The lines of the examples: [{}] parses to an object without
    properties, that is an event without any; no other line of the
    examples parses. *)
Lemma linesOf_example :
  linesOf [Byte.x7b; Byte.x7d; Byte.x0a; Byte.x78; Byte.x78; Byte.x0a;
           Byte.x0a; Byte.x7b; Byte.x7d; Byte.x0a]
  = [[Byte.x7b; Byte.x7d]; [Byte.x78; Byte.x78]; [Byte.x7b; Byte.x7d]].
Proof. by vm_compute. Qed.


(** A file of four lines, one of them empty and one that does not parse,
    read from its start when it has not changed since the notification:
    two events are processed, and the size of the file is the offset. *)
Example events_file_tail_example :
  let parse line :=
    match line with
    | [a; b] =>
        if Byte.eqb a Byte.x7b && Byte.eqb b Byte.x7d
        then Some RawEvt.empty else None
    | _ => None
    end in
  let envs i := {| now := Z.of_nat i; messageId := []; recordId := [] |} in
  let content :=
    [Byte.x7b; Byte.x7d; Byte.x0a; Byte.x78; Byte.x78; Byte.x0a; Byte.x0a;
     Byte.x7b; Byte.x7d; Byte.x0a] in
  exists st',
    tailOnce parse envs content (initialState 0) = Some st'
    /\ eventsFileSize st' = 10
    /\ length (recentEvents st') = 2
    /\ toolCallsBefore st' (js "unknown") = 2.
Proof. eexists. split; [by vm_compute|]. by vm_compute. Qed.

(** ** Tailing the events file in steps *)

Lemma tailOnce_grown parse envs (content : list Byte.byte) (st : State) :
  eventsFileSize st < length content ->
  tailOnce parse envs content st
  = set_eventsFileSize (length content)
    <$> ingestRaw parse envs 0 (linesOf (drop (eventsFileSize st) content)) st.
Proof.
  intros H. unfold tailOnce, onEventsFileNotify.
  destruct (Nat.leb_spec (length content) (eventsFileSize st)); [lia|].
  unfold onEventsFileEnd, bytesRead. cbn [start statSize].
  apply ingestRaw_set_eventsFileSize.
Qed.

Lemma tailOnce_same parse envs (content : list Byte.byte) (st : State) :
  length content <= eventsFileSize st ->
  tailOnce parse envs content st
  = Some (set_eventsFileSize (length content) st).
Proof.
  intros H. unfold tailOnce, onEventsFileNotify.
  destruct (Nat.leb_spec (length content) (eventsFileSize st)); [done|lia].
Qed.

(** A notification and its read, on a file that does not change
    meanwhile and holds well-typed events, do what the listener taken as
    one step does. *)
Lemma tailOnce_typed (typed : list Byte.byte -> option Evt.t) envs
    (content : list Byte.byte) (st st' : State) :
  tailOnce (fun line => rawEvt <$> typed line) envs content st = Some st' ->
  st' = onEventsFileChange typed envs change (Some content) st.
Proof.
  unfold tailOnce, onEventsFileNotify, onEventsFileChange.
  destruct (_ <=? _); [by intros [= <-]|].
  unfold onEventsFileEnd, bytesRead. cbn [start statSize].
  by apply ingestRaw_typed.
Qed.

(** X11: tailing in steps.  The events file grows from [first] to
    [first ++ more]; the listener is notified once of each, and each
    read ends before anything else is done and finds the file as long as
    it was at its notification.  When the first read starts inside
    [first] and what it delivers ends with a newline (the hooks append
    whole lines), the two leave the server in the state that one
    notification of the whole file leaves it in: no line is lost and none
    is processed twice.  [envs2] is what the handlers of the second read
    take from outside. *)
Theorem events_file_in_steps (parse : list Byte.byte -> option RawEvt.t)
    (envs envs2 : nat -> Env) (first more : list Byte.byte) (st : State) :
  let read := drop (eventsFileSize st) first in
  eventsFileSize st <= length first ->
  read = [] \/ (exists a, read = a ++ [Byte.x0a]) ->
  (forall j, envs2 j = envs (length (linesOf read) + j)) ->
  tailOnce parse envs first st ≫= tailOnce parse envs2 (first ++ more)
  = tailOnce parse envs (first ++ more) st.
Proof.
  intros read Hk Hread Henvs.
  assert (Hdrop : drop (eventsFileSize st) (first ++ more) = read ++ more).
  { rewrite drop_app. unfold read. f_equal.
    replace (eventsFileSize st - length first) with 0 by lia.
    apply drop_0. }
  assert (Hset : forall n m (s : State),
            set_eventsFileSize n (set_eventsFileSize m s)
            = set_eventsFileSize n s) by reflexivity.
  destruct more as [|b more].
  { (* nothing was appended: the second notification finds the file as it
       was *)
    rewrite app_nil_r.
    destruct (tailOnce parse envs first st) as [st1|] eqn:E1; [|reflexivity].
    cbn [mbind option_bind].
    assert (H1 : eventsFileSize st1 = length first /\ set_eventsFileSize (length first) st1 = st1).
    { unfold tailOnce, onEventsFileNotify in E1.
      destruct (_ <=? _).
      - injection E1 as <-. by split.
      - unfold onEventsFileEnd in E1. cbn [start statSize] in E1.
        apply ingestRaw_eventsFileSize in E1 as E.
        cbn [eventsFileSize set_eventsFileSize] in E.
        split; [exact E|]. rewrite <- E. by destruct st1. }
    destruct H1 as [H1 H1'].
    rewrite tailOnce_same by lia. by rewrite H1'. }
  assert (Hlen : length first < length (first ++ b :: more))
    by (rewrite length_app; simpl; lia).
  rewrite (tailOnce_grown parse envs (first ++ b :: more)) by lia.
  rewrite Hdrop. destruct Hread as [Hnil|[a Ha]].
  - assert (length first <= eventsFileSize st).
    { unfold read in Hnil. apply (f_equal length) in Hnil.
      rewrite length_drop in Hnil. simpl in Hnil. lia. }
    rewrite (tailOnce_same parse envs first) by lia.
    cbn [mbind option_bind].
    rewrite tailOnce_grown by done.
    cbn [eventsFileSize set_eventsFileSize].
    rewrite drop_app_length, ingestRaw_set_eventsFileSize, Hnil. cbn [app].
    rewrite (ingestRaw_shift parse envs envs2 0 0 (linesOf (b :: more)))
      by (intros j; rewrite Henvs, Hnil; reflexivity).
    destruct (ingestRaw parse envs 0 _ st); [|reflexivity].
    cbn. by rewrite Hset.
  - assert (eventsFileSize st < length first).
    { unfold read in Ha. apply (f_equal length) in Ha.
      rewrite length_drop, length_app in Ha. simpl in Ha. lia. }
    rewrite (tailOnce_grown parse envs first) by done.
    fold read.
    rewrite Ha, linesOf_app, <- Ha.
    rewrite (ingestRaw_app parse envs envs2 0 _ _ st)
      by (intros j; apply Henvs).
    destruct (ingestRaw parse envs 0 (linesOf read) st) as [st1|] eqn:E1;
      [|reflexivity].
    cbn [fmap option_fmap option_map mbind option_bind].
    apply ingestRaw_eventsFileSize in E1 as E.
    rewrite tailOnce_grown
      by (cbn [eventsFileSize set_eventsFileSize]; done).
    cbn [eventsFileSize set_eventsFileSize].
    rewrite drop_app_length, ingestRaw_set_eventsFileSize.
    destruct (ingestRaw parse envs2 0 _ st1); [|reflexivity].
    cbn. by rewrite Hset.
Qed.

(** The file holds the line [{}] at the first notification, and a line
    that does not parse and a second [{}] at the second. *)
Lemma events_file_in_steps_witness :
  let parse line :=
    match line with
    | [a; b] =>
        if Byte.eqb a Byte.x7b && Byte.eqb b Byte.x7d
        then Some RawEvt.empty else None
    | _ => None
    end in
  let envs i := {| now := Z.of_nat i; messageId := []; recordId := [] |} in
  let first := [Byte.x7b; Byte.x7d; Byte.x0a] in
  let more := [Byte.x78; Byte.x0a; Byte.x7b; Byte.x7d; Byte.x0a] in
  let st :=
    tailOnce parse envs first (initialState 0)
    ≫= tailOnce parse (fun j => envs (1 + j)) (first ++ more) in
  eventsFileSize (initialState 0) <= length first
  /\ st = tailOnce parse envs (first ++ more) (initialState 0)
  /\ (fun s => toolCallsBefore s (js "unknown")) <$> st = Some 2.
Proof.
  intros parse envs first more st.
  assert (Hle : eventsFileSize (initialState 0) <= length first)
    by (simpl; lia).
  split; [exact Hle|]. split; [|by vm_compute].
  apply (events_file_in_steps parse envs (fun j => envs (1 + j)) first more
           (initialState 0)).
  - exact Hle.
  - right. exists [Byte.x7b; Byte.x7d]. reflexivity.
  - intros j. reflexivity.
Defined.

(** ** Tailing a transcript, step by step *)

Section TranscriptStepsFacts.

Variable parse : list Byte.byte -> option RawEntry.t.
Variable envs : nat -> nat -> Env.
Variable projectsDir : jsstring.

(** X19: a transcript is read from where it was first seen.  The first
    report of a transcript only records its size, and so does every
    report while the size recorded is 0: a transcript first seen empty
    loses what it holds at the next report.  Once a size other than 0 is
    recorded, a report of the file grown by [more] opens a read at the
    size recorded and does nothing else.  When that read ends, the size
    taken at the report is recorded and the lines of what the read
    delivered are replayed: those of [more], and those only, when the
    file is then as it was at the report; and also those of what was
    appended during the read, [later], which the next report then opens
    a read of again. *)
Theorem transcript_tail (name : jsstring) (seen more later : list Byte.byte)
    (fileSizes : gmap jsstring nat) (st : State) :
  let fullPath := projectsDir ++ js "/" ++ name in
  let notify := onTranscriptNotify projectsDir (Some name) in
  let sizes1 := <[fullPath := length seen]> fileSizes in
  let r := {| start := length seen; statSize := length (seen ++ more) |} in
  let sizes2 := <[fullPath := length (seen ++ more)]> sizes1 in
  name <> [] -> endsWith (js ".jsonl") name = true ->
  (fileSizes !! fullPath = None \/ fileSizes !! fullPath = Some 0) ->
  notify (Some (length seen)) fileSizes = (sizes1, None)
  /\ (seen = [] ->
      notify (Some (length more)) sizes1
      = (<[fullPath := length more]> sizes1, None))
  /\ (seen <> [] -> more <> [] ->
      notify (Some (length (seen ++ more))) sizes1 = (sizes1, Some (fullPath, r))
      /\ onTranscriptEnd parse envs fullPath r (seen ++ more) sizes1 st
         = (sizes2, replayLinesRaw parse envs fullPath 0 (linesOf more) st)
      /\ onTranscriptEnd parse envs fullPath r (seen ++ more ++ later) sizes1
           st
         = (sizes2,
            replayLinesRaw parse envs fullPath 0 (linesOf (more ++ later)) st)
      /\ (later <> [] ->
          notify (Some (length (seen ++ more ++ later))) sizes2
          = (sizes2,
             Some (fullPath,
                   {| start := length (seen ++ more);
                      statSize := length (seen ++ more ++ later) |}))
          /\ bytesRead {| start := length (seen ++ more);
                          statSize := length (seen ++ more ++ later) |}
               (seen ++ more ++ later) = later)).
Proof.
  intros fullPath notify sizes1 r sizes2 Hname Hext Hsize.
  assert (Ht : truthy (Some name) = Some name) by (by destruct name).
  assert (Hnotify : forall size sizes,
            notify (Some size) sizes
            = let prevSize :=
                match sizes !! fullPath with
                | Some (S n) => S n
                | _ => size
                end in
              if size <=? prevSize then (<[fullPath := size]> sizes, None)
              else (sizes,
                    Some (fullPath, {| start := prevSize; statSize := size |}))).
  { intros size sizes. unfold notify, onTranscriptNotify.
    by rewrite Ht, Hext. }
  split; [|split].
  - rewrite Hnotify. cbv zeta.
    assert (Hprev : match fileSizes !! fullPath with
                    | Some (S n) => S n
                    | _ => length seen
                    end = length seen) by (by destruct Hsize as [-> | ->]).
    by rewrite Hprev, Nat.leb_refl.
  - intros ->. rewrite Hnotify. cbv zeta. unfold sizes1.
    rewrite lookup_insert_eq. cbn [length]. by rewrite Nat.leb_refl.
  - intros Hseen Hmore.
    assert (Hgrow : forall (n : nat) (b : list Byte.byte) sizes,
              sizes !! fullPath = Some n -> 0 < n -> n < length b ->
              notify (Some (length b)) sizes
              = (sizes,
                 Some (fullPath, {| start := n; statSize := length b |}))).
    { intros n b sizes Hl Hn Hb. rewrite Hnotify, Hl. cbv zeta.
      destruct n as [|n]; [lia|].
      destruct (Nat.leb_spec (length b) (S n)); [lia|reflexivity]. }
    assert (Hs : 0 < length seen) by (destruct seen; [done|simpl; lia]).
    assert (Hm : 0 < length more) by (destruct more; [done|simpl; lia]).
    split; [|split; [|split]].
    + apply Hgrow; [apply lookup_insert_eq|exact Hs|].
      rewrite length_app. lia.
    + unfold onTranscriptEnd. cbn [statSize]. f_equal.
      pose proof (bytesRead_spec r seen more [] eq_refl) as Hb.
      rewrite app_nil_r in Hb. by rewrite Hb.
    + unfold onTranscriptEnd. cbn [statSize]. f_equal.
      by rewrite (bytesRead_spec r seen more later eq_refl).
    + intros Hlater. split.
      * apply Hgrow; [apply lookup_insert_eq|rewrite length_app; lia|].
        assert (0 < length later) by (destruct later; [done|simpl; lia]).
        rewrite !length_app. lia.
      * rewrite (app_assoc seen more later). unfold bytesRead. cbn [start].
        by rewrite drop_app_length.
Qed.

End TranscriptStepsFacts.

(** A transcript of one line, seen, and then grown by one more: the line
    appended is replayed, and the agent named after the file has made one
    tool call and is thinking.  When a third line is appended during the
    read, it is replayed too. *)
Lemma transcript_tail_witness :
  let parse (line : list Byte.byte) :=
    match line with
    | [b] =>
        if Byte.eqb b Byte.x45 then
          Some (RawEntry.mk (Some (js "assistant")) missing None
                  (Some [Some (RawBlock.mk (Some (js "tool_use"))
                                 (Some (js "Read")) None)]))
        else None
    | _ => None
    end in
  let envs (i j : nat) :=
    {| now := 5000; messageId := []; recordId := [] |} in
  let seen := [Byte.x45; Byte.x0a] in
  let more := [Byte.x45; Byte.x0a] in
  let later := [Byte.x45; Byte.x0a] in
  let fullPath := js "p/s9.jsonl" in
  let sizes1 := <[fullPath := 2]> (∅ : gmap jsstring nat) in
  let r := {| start := 2; statSize := 4 |} in
  js "s9.jsonl" <> []
  /\ endsWith (js ".jsonl") (js "s9.jsonl") = true
  /\ (exists st',
        (onTranscriptEnd parse envs fullPath r (seen ++ more) sizes1
           (initialState 0)).2 = Some st'
        /\ toolCallsBefore st' (js "s9") = 1
        /\ statusBefore st' (js "s9") = thinking)
  /\ (exists st',
        (onTranscriptEnd parse envs fullPath r (seen ++ more ++ later) sizes1
           (initialState 0)).2 = Some st'
        /\ toolCallsBefore st' (js "s9") = 2).
Proof.
  intros parse envs seen more later fullPath sizes1 r.
  assert (Hn : js "s9.jsonl" <> []) by done.
  split; [exact Hn|]. split; [reflexivity|].
  destruct (transcript_tail parse envs (js "p") (js "s9.jsonl") seen more
              later ∅ (initialState 0)) as (_ & _ & H);
    [exact Hn|reflexivity|by left|].
  destruct H as (_ & H1 & H2 & _); [done|done|].
  split.
  - eexists. split.
    + etransitivity; [exact (f_equal snd H1)|]. by vm_compute.
    + by vm_compute.
  - eexists. split.
    + etransitivity; [exact (f_equal snd H2)|]. by vm_compute.
    + by vm_compute.
Defined.
